(** * gnss-ins-sim: the simulation engine of [sim/imu_sim.py]

    A shallow embedding of the classes [Sim] and [Sim_data] and of
    [plot_in_one_figure], and the properties of the engine that follow
    from the code.

    Python dictionaries are finite maps ([gmap]), the attributes of the
    engine that hold a [Sim_data] are a total function from an enumeration
    of the attribute names, and every method is a computation in a state
    and exception monad in which the state survives a raised exception,
    as the attributes of a Python object do.  NumPy, [pathgen], the
    algorithm plug-in and matplotlib are outside the file: they are the
    members of the class [External]. *)

From Stdlib Require Import ZArith String List Bool Lia DecimalString.
From Stdlib Require Import SpecFloat.
From stdpp Require Import gmap strings list fin_maps.

Local Open Scope string_scope.
Local Open Scope Z_scope.

(** ** Python values *)

(** Exceptions, by class.  [Raised] is an exception of a collaborator. *)
Inductive exn : Type :=
  | ValueError (msg : string)
  | TypeError (msg : string)
  | IndexError
  | KeyError
  | AttributeError
  | OverflowError
  | Raised (what : string).

(** A number passed where the code calls [int()]: a Python [int] or a
    Python [float] (an IEEE 754 value). *)
Inductive num : Type :=
  | NInt (z : Z)
  | NFloat (f : spec_float).

(** [int(x)]: the identity on an [int]; on a [float] truncation towards
    zero, [OverflowError] on an infinity and [ValueError] on a NaN. *)
Definition py_int (x : num) : exn + Z :=
  match x with
  | NInt z => inr z
  | NFloat (S754_zero _) => inr 0
  | NFloat (S754_finite s m e) =>
      inr (cond_Zopp s (if 0 <=? e then Z.pos m * 2 ^ e else Z.pos m / 2 ^ (- e)))
  | NFloat (S754_infinity _) => inl OverflowError
  | NFloat S754_nan => inl (ValueError "cannot convert float NaN to integer")
  end.

(** [x < 1] as Python compares it: false on a NaN. *)
Definition num_lt_1 (x : num) : Prop :=
  match x with
  | NInt z => z < 1
  | NFloat (S754_zero _) => True
  | NFloat (S754_finite true _ _) => True
  | NFloat (S754_finite false m e) =>
      if 0 <=? e then False else Z.pos m < 2 ^ (- e)
  | NFloat (S754_infinity s) => s = true
  | NFloat S754_nan => False
  end.

Definition num_finite (x : num) : Prop :=
  match x with
  | NFloat (S754_infinity _) | NFloat S754_nan => False
  | _ => True
  end.

(** ** The attributes of the engine that hold a container *)

Module Attr.

(** One constructor for each attribute of [Sim] bound to a [Sim_data] in
    [__init__], under the attribute's identifier. *)
Inductive t : Type :=
  | fs | ref_frame | time | gps_time
  | ref_pos | ref_vel | ref_att | ref_gyro | ref_accel | ref_gps | ref_mag
  | pos | vel | att_quat | att_euler | gyro | accel | gps | mag
  | wb | ab | av_t | av_gyro | av_accel.

Definition all : list t :=
  [fs; ref_frame; time; gps_time;
   ref_pos; ref_vel; ref_att; ref_gyro; ref_accel; ref_gps; ref_mag;
   pos; vel; att_quat; att_euler; gyro; accel; gps; mag;
   wb; ab; av_t; av_gyro; av_accel].

(** The identifier, as [exec] and [eval] see it after ['self.']. *)
Definition ident (a : t) : string :=
  match a with
  | fs => "fs" | ref_frame => "ref_frame" | time => "time"
  | gps_time => "gps_time" | ref_pos => "ref_pos" | ref_vel => "ref_vel"
  | ref_att => "ref_att" | ref_gyro => "ref_gyro" | ref_accel => "ref_accel"
  | ref_gps => "ref_gps" | ref_mag => "ref_mag" | pos => "pos" | vel => "vel"
  | att_quat => "att_quat" | att_euler => "att_euler" | gyro => "gyro"
  | accel => "accel" | gps => "gps" | mag => "mag" | wb => "wb" | ab => "ab"
  | av_t => "av_t" | av_gyro => "av_gyro" | av_accel => "av_accel"
  end.

(** The attribute an identifier names, if it names a container. *)
Definition of_ident (s : string) : option t :=
  List.find (fun a => String.eqb (ident a) s) all.

#[global] Instance eq_dec : EqDecision t.
Proof. solve_decision. Defined.

Definition index (a : t) : nat :=
  match a with
  | fs => 0 | ref_frame => 1 | time => 2 | gps_time => 3 | ref_pos => 4
  | ref_vel => 5 | ref_att => 6 | ref_gyro => 7 | ref_accel => 8
  | ref_gps => 9 | ref_mag => 10 | pos => 11 | vel => 12 | att_quat => 13
  | att_euler => 14 | gyro => 15 | accel => 16 | gps => 17 | mag => 18
  | wb => 19 | ab => 20 | av_t => 21 | av_gyro => 22 | av_accel => 23
  end%nat.

#[global] Instance countable : Countable t.
Proof.
  apply (inj_countable index (fun n => List.nth_error all n)).
  intros a; destruct a; reflexivity.
Defined.

End Attr.

(** A key of one of the engine's dictionaries: a string, or a [Sim_data]
    object itself (objects hash and compare by identity, so the object is
    the attribute that holds it). *)
Inductive key : Type :=
  | KStr (s : string)
  | KObj (a : Attr.t).

#[global] Instance key_eq_dec : EqDecision key.
Proof. solve_decision. Defined.

#[global] Instance key_countable : Countable key.
Proof.
  apply (inj_countable'
           (fun k => match k with KStr s => inl s | KObj a => inr a end)
           (fun x => match x with inl s => KStr s | inr a => KObj a end)).
  intros []; reflexivity.
Defined.

(** ** Exceptions as results *)

Definition ebind {A B : Type} (m : exn + A) (k : A -> exn + B) : exn + B :=
  match m with
  | inl e => inl e
  | inr a => k a
  end.

(** Whether a result is a value, not an exception. *)
Definition returns {A : Type} (r : exn + A) : bool :=
  match r with
  | inr _ => true
  | inl _ => false
  end.

(** [l[i]] on a list or a tuple. *)
Definition py_getitem {A : Type} (l : list A) (i : nat) : exn + A :=
  match l !! i with
  | Some a => inr a
  | None => inl IndexError
  end.

(** [d[k]] on a dict. *)
Definition dict_getitem {K : Type} `{Countable K} {A : Type}
    (d : gmap K A) (k : K) : exn + A :=
  match d !! k with
  | Some a => inr a
  | None => inl KeyError
  end.

Section Engine.

(** [array] is a NumPy array, [world] the state of the collaborators: the
    random generators of [pathgen] and whatever the algorithm keeps. *)
Context {array world : Type}.

(** What a container or an argument list holds: a scalar or an array. *)
Inductive value : Type :=
  | VInt (z : Z)
  | VArr (a : array).

(** [Sim_data.data]: the dict of [__init__], or what an assignment to
    [.data] has put in its place. *)
Inductive payload : Type :=
  | PDict (d : gmap Z value)
  | PVal (v : value).

(** An argument that the code tests with [isinstance]. *)
Inductive pyarg : Type :=
  | AStr (s : string)
  | AArr (a : array)
  | AOther.

(** The IMU configuration object, as far as the engine reads it. *)
Record imu_cfg : Type := {
  imu_gps : bool;
  imu_magnetometer : bool;
  accel_err : array;
  gyro_err : array;
  gps_err : array;
  mag_err : array
}.

(** The algorithm plug-in. *)
Record algorithm : Type := {
  input : list string;
  output : list string;
  algo_run : list payload -> world -> (exn + unit) * world;
  get_results : world -> (exn + list value) * world
}.

(** The collaborators. *)
Class External : Type := {
  (** [a.shape] *)
  shape : array -> list nat;
  (** [a[ix]], the index written as in the source *)
  np_getitem : string -> array -> array;
  (** [a[ix] = a[ix] * D2R] *)
  np_times_D2R : string -> array -> array;
  np_hstack : list array -> array;
  np_sqrt : value -> value;
  (** [y.ndim]; nothing for an object without the attribute *)
  ndim : value -> option nat;
  (** the drawing calls of lines 456 to 475, with the scales [logx] and
      [logy]: whether matplotlib draws a [y] of one dimension over [x], or
      every column of a [y] of two dimensions over [x], without raising *)
  lines_drawn : payload -> value -> bool -> bool -> bool;
  high_mobility : array;
  (** [pathgen.path_gen]: a dict of arrays *)
  path_gen : array -> array -> list (Z * payload) -> array -> payload -> bool ->
             world -> (exn + gmap string array) * world;
  acc_gen : payload -> payload -> array -> option array ->
            world -> (exn + value) * world;
  gyro_gen : payload -> payload -> array -> world -> (exn + value) * world;
  gps_gen : payload -> array -> payload -> world -> (exn + value) * world;
  mag_gen : payload -> array -> world -> (exn + value) * world
}.

Context `{External}.

(** ** Sim_data *)

Record Sim_data : Type := {
  name : string;
  description : string;
  plottable : bool;
  logx : bool;
  logy : bool;
  grid : string;
  legend : option (list string);
  pre_func : option (value -> value);
  data : payload
}.

(** [grid.lower() == 'off'], on the ASCII letters. *)
Definition lower_ascii (c : Ascii.ascii) : Ascii.ascii :=
  let n := Ascii.nat_of_ascii c in
  if ((65 <=? n) && (n <=? 90))%nat then Ascii.ascii_of_nat (n + 32) else c.

Fixpoint lower (s : string) : string :=
  match s with
  | EmptyString => EmptyString
  | String c s' => String (lower_ascii c) (lower s')
  end.

(** [Sim_data.__init__] *)
Definition Sim_data_init (name description : string) (plottable logx logy : bool)
    (grid : string) (legend : option (list string))
    (pre_func : option (value -> value)) : Sim_data :=
  {| name := name;
     description := description;
     plottable := plottable;
     logx := logx;
     logy := logy;
     grid := if String.eqb (lower grid) "off" then grid else "on";
     legend := legend;
     pre_func := pre_func;
     data := PDict ∅ |}.

Definition set_data (p : payload) (c : Sim_data) : Sim_data :=
  {| name := name c; description := description c; plottable := plottable c;
     logx := logx c; logy := logy c; grid := grid c; legend := legend c;
     pre_func := pre_func c; data := p |}.

(** ** Sim *)

(** One element of the expression [algo_in_expr]: ['self.<i>.data'] or
    ['self.<i>.data[NO_OF_SIM]'].  The expression is kept as the list of
    its elements, and [eval] of its text as the evaluation of that list. *)
Inductive in_term : Type :=
  | TConst (i : string)
  | TVary (i : string).

Record Sim : Type := {
  sim_complete : bool;
  sim_count : Z;
  imu : imu_cfg;
  attr : Attr.t -> Sim_data;
  supported_in_constant : gmap key string;
  supported_in_varying : gmap key string;
  supported_out : gmap key string;
  res : gmap key string;
  supported_plot : gmap key string;
  ini_pos_n : array;
  ini_vel_b : array;
  ini_att : array;
  motion_def : array;
  output_def : list (Z * payload);
  mobility : array;
  vib_def : option array;
  algo : option algorithm;
  (** elements of ['[' ... ']'], each ['self.<i>.data[NO_OF_SIM]'] for the
      output expression *)
  algo_in_expr : list in_term;
  algo_out_expr : list string
}.

(** The containers as [__init__] creates them (lines 55 to 110), before
    [fs.data] and [ref_frame.data] are assigned. *)
Definition new_attr (a : Attr.t) : Sim_data :=
  match a with
  | Attr.fs =>
      Sim_data_init "fs" "sample frequency of imu" false false false "on" None None
  | Attr.ref_frame =>
      Sim_data_init "ref_frame" "reference frame" false false false "on" None None
  | Attr.time =>
      Sim_data_init "time" "sample time, start from 1" true false false "on" None None
  | Attr.gps_time =>
      Sim_data_init "gps_time" "GPS sample time" true false false "on" None None
  | Attr.ref_pos =>
      Sim_data_init "ref_pos" "true pos" true false false "on"
        (Some ["ref_pos_x"; "ref_pos_y"; "ref_pos_z"]) None
  | Attr.ref_vel =>
      Sim_data_init "ref_vel" "true vel" true false false "on"
        (Some ["ref_vel_x"; "ref_vel_y"; "ref_vel_z"]) None
  | Attr.ref_att =>
      Sim_data_init "ref_att" "true attitude (Euler angles, ZYX)" true false false "on"
        (Some ["ref_Yaw"; "ref_Pitch"; "ref_Roll"]) None
  | Attr.ref_gyro =>
      Sim_data_init "ref_gyro" "true angular velocity" true false false "on"
        (Some ["ref_gyro_x"; "ref_gyro_y"; "ref_gyro_z"]) None
  | Attr.ref_accel =>
      Sim_data_init "ref_accel" "true accel" true false false "on"
        (Some ["ref_accel_x"; "ref_accel_y"; "ref_accel_z"]) None
  | Attr.ref_gps =>
      Sim_data_init "ref_gps" "true GPS pos/vel" true false false "on"
        (Some ["ref_gps_x"; "ref_gps_y"; "ref_gps_z";
               "ref_gps_vx"; "ref_gps_vy"; "ref_gps_vz"]) None
  | Attr.ref_mag =>
      Sim_data_init "ref_mag" "true magnetic field" true false false "on"
        (Some ["ref_mag_x"; "ref_mag_y"; "ref_mag_z"]) None
  | Attr.pos =>
      Sim_data_init "pos" "sim pos" true false false "on"
        (Some ["pos_x"; "pos_y"; "pos_z"]) None
  | Attr.vel =>
      Sim_data_init "vel" "sim vel" true false false "on"
        (Some ["vel_x"; "vel_y"; "vel_z"]) None
  | Attr.att_quat =>
      Sim_data_init "att_quat" "sim att (quaternion)" true false false "on"
        (Some ["q0"; "q1"; "q2"; "q3"]) None
  | Attr.att_euler =>
      Sim_data_init "att_euler" "sim att (Euler angles, ZYX)" true false false "on"
        (Some ["Yaw"; "Pitch"; "Roll"]) None
  | Attr.gyro =>
      Sim_data_init "gyro" "gyro measurements" true false false "on"
        (Some ["gyro_x"; "gyro_y"; "gyro_z"]) None
  | Attr.accel =>
      Sim_data_init "accel" "accel measurements" true false false "on"
        (Some ["accel_x"; "accel_y"; "accel_z"]) None
  | Attr.gps =>
      Sim_data_init "gps" "GPS measurements" true false false "on"
        (Some ["gps_x"; "gps_y"; "gps_z"; "gps_vx"; "gps_vy"; "gps_vz"]) None
  | Attr.mag =>
      Sim_data_init "mag" "magnetometer measurements" true false false "on"
        (Some ["mag_x"; "mag_y"; "mag_z"]) None
  | Attr.wb =>
      Sim_data_init "wb" "gyro bias estimation" true false false "on"
        (Some ["gyro_bias_x"; "gyro_bias_y"; "gyro_bias_z"]) None
  | Attr.ab =>
      Sim_data_init "ab" "accel bias estimation" true false false "on"
        (Some ["accel_bias_x"; "accel_bias_y"; "accel_bias_z"]) None
  | Attr.av_t =>
      Sim_data_init "av_t" "Allan var time" true false false "on" None None
  | Attr.av_gyro =>
      Sim_data_init "av_gyro" "Allan var of gyro" true true true "on"
        (Some ["av_wx"; "av_wy"; "av_wz"]) (Some np_sqrt)
  | Attr.av_accel =>
      Sim_data_init "av_accel" "Allan var of accel" true true true "on"
        (Some ["av_ax"; "av_ay"; "av_az"]) (Some np_sqrt)
  end.

(** [self.<a>.data = p] *)
Definition attr_set_data (a : Attr.t) (p : payload)
    (f : Attr.t -> Sim_data) : Attr.t -> Sim_data :=
  fun b => if decide (b = a) then set_data p (f b) else f b.

(** The containers after lines 57 and 60. *)
Definition init_attr (fs0 : value) : Attr.t -> Sim_data :=
  attr_set_data Attr.ref_frame (PVal (VInt 0))
    (attr_set_data Attr.fs (PVal fs0) new_attr).

(** The three dictionaries of supported data (lines 125 to 154), from the
    containers and the two flags of the IMU. *)
Definition init_supported_in_constant (f : Attr.t -> Sim_data) (i : imu_cfg)
    : gmap key string :=
  let d : gmap key string :=
    <[KStr (name (f Attr.ref_accel)) := description (f Attr.ref_accel)]>
    (<[KStr (name (f Attr.ref_gyro)) := description (f Attr.ref_gyro)]>
    (<[KStr (name (f Attr.ref_att)) := description (f Attr.ref_att)]>
    (<[KStr (name (f Attr.ref_vel)) := description (f Attr.ref_vel)]>
    (<[KStr (name (f Attr.ref_pos)) := description (f Attr.ref_pos)]>
    (<[KStr (name (f Attr.ref_frame)) := description (f Attr.ref_frame)]>
    (<[KStr (name (f Attr.fs)) := description (f Attr.fs)]> ∅)))))) in
  let d : gmap key string :=
    if imu_gps i then
      <[KObj Attr.gps_time := description (f Attr.gps_time)]>
      (<[KStr (name (f Attr.ref_gps)) := description (f Attr.ref_gps)]> d)
    else d in
  if imu_magnetometer i then
    <[KStr (name (f Attr.ref_mag)) := description (f Attr.ref_mag)]> d
  else d.

Definition init_supported_in_varying (f : Attr.t -> Sim_data) (i : imu_cfg)
    : gmap key string :=
  let d : gmap key string :=
    <[KStr (name (f Attr.accel)) := description (f Attr.accel)]>
    (<[KStr (name (f Attr.gyro)) := description (f Attr.gyro)]> ∅) in
  let d : gmap key string :=
    if imu_gps i then
      <[KStr (name (f Attr.gps)) := description (f Attr.gps)]> d
    else d in
  if imu_magnetometer i then
    <[KStr (name (f Attr.mag)) := description (f Attr.mag)]> d
  else d.

Definition init_supported_out (f : Attr.t -> Sim_data) : gmap key string :=
  <[KStr (name (f Attr.av_accel)) := description (f Attr.av_accel)]>
  (<[KStr (name (f Attr.av_gyro)) := description (f Attr.av_gyro)]>
  (<[KStr (name (f Attr.av_t)) := description (f Attr.av_t)]>
  (<[KStr (name (f Attr.ab)) := description (f Attr.ab)]>
  (<[KStr (name (f Attr.wb)) := description (f Attr.wb)]>
  (<[KStr (name (f Attr.att_euler)) := description (f Attr.att_euler)]>
  (<[KStr (name (f Attr.att_quat)) := description (f Attr.att_quat)]>
  (<[KStr (name (f Attr.vel)) := description (f Attr.vel)]>
  (<[KStr (name (f Attr.pos)) := description (f Attr.pos)]> ∅)))))))).

(** [i in d] for a string [i]. *)
Definition str_in (i : string) (d : gmap key string) : bool :=
  bool_decide (is_Some (d !! KStr i)).

(** The two loops of [parse_algo_in_out]: the expression extended by the
    names, or nothing where the method returns [False]. *)
Fixpoint parse_in (sic siv : gmap key string) (names : list string)
    (expr : list in_term) : option (list in_term) :=
  match names with
  | [] => Some expr
  | i :: rest =>
      if str_in i sic then parse_in sic siv rest (expr ++ [TConst i])
      else if str_in i siv then parse_in sic siv rest (expr ++ [TVary i])
      else None
  end.

Fixpoint parse_out (so : gmap key string) (names : list string)
    (expr : list string) : option (list string) :=
  match names with
  | [] => Some expr
  | i :: rest =>
      if str_in i so then parse_out so rest (expr ++ [i])
      else None
  end.

Definition set_algo_exprs (ie : list in_term) (oe : list string) (s : Sim) : Sim :=
  {| sim_complete := sim_complete s; sim_count := sim_count s; imu := imu s;
     attr := attr s;
     supported_in_constant := supported_in_constant s;
     supported_in_varying := supported_in_varying s;
     supported_out := supported_out s;
     res := res s; supported_plot := supported_plot s;
     ini_pos_n := ini_pos_n s; ini_vel_b := ini_vel_b s; ini_att := ini_att s;
     motion_def := motion_def s; output_def := output_def s;
     mobility := mobility s; vib_def := vib_def s; algo := algo s;
     algo_in_expr := ie; algo_out_expr := oe |}.

(** [parse_algo_in_out]: the engine with its two expressions, and the
    value returned.  Where it returns [False] the expressions are the
    ones it had built so far; [__init__] raises and the object is lost. *)
Definition parse_algo_in_out (s : Sim) : Sim * bool :=
  match algo s with
  | None => (s, false)
  | Some a =>
      match parse_in (supported_in_constant s) (supported_in_varying s)
                     (input a) (algo_in_expr s) with
      | None => (s, false)
      | Some ie =>
          match parse_out (supported_out s) (output a) (algo_out_expr s) with
          | None => (set_algo_exprs ie (algo_out_expr s) s, false)
          | Some oe => (set_algo_exprs ie oe s, true)
          end
      end
  end.

(** The shape of the array [np.genfromtxt(path, delimiter=',')] returns
    for a file of [rows] lines of [cols] numbers each (line 161).  NumPy
    squeezes the table it has read: an axis of length one is dropped, so
    a file of one line gives an array of one dimension, and so does a file
    of one column; an empty file gives an empty array of one dimension. *)
Definition genfromtxt_shape (rows cols : nat) : list nat :=
  if (rows =? 0)%nat then [0%nat]
  else List.filter (fun n => negb (n =? 1)%nat) [rows; cols].

(** The message of line 163: the line continuation keeps the indentation
    of line 164 inside the literal. *)
Definition motion_msg : string :=
  "motion definition file must have nine columns "
  ++ "                              and at least two rows and ".

Definition check_msg : string :=
  "check input and output definitions of the algorithm.".

(** [Sim.__init__].  [waypoints] is the array [np.genfromtxt] has read
    from [path]. *)
Definition Sim_init (fs : list value) (imu : imu_cfg) (waypoints : array)
    (mode env : pyarg) (algorithm : option algorithm) : exn + Sim :=
  ebind (py_getitem fs 0) (fun fs0 =>
  let attr0 := init_attr fs0 in
  let sic := init_supported_in_constant attr0 imu in
  let siv := init_supported_in_varying attr0 imu in
  let so := init_supported_out attr0 in
  ebind (py_getitem (shape waypoints) 0) (fun rows =>
  ebind (if (rows <? 2)%nat then inr true
         else ebind (py_getitem (shape waypoints) 1)
                (fun cols => inr (negb (cols =? 9)%nat))) (fun bad =>
  if (bad : bool) then
    inl (ValueError motion_msg)
  else
  let ini_pos_n :=
    np_times_D2R "[1]" (np_times_D2R "[0]" (np_getitem "[0, 0:3]" waypoints)) in
  let ini_vel_b := np_getitem "[0, 3:6]" waypoints in
  let ini_att := np_getitem "[0, 6:9]" waypoints in
  let motion_def :=
    np_times_D2R "[:, 1:4]" (np_getitem "[1:, [0, 1, 2, 3, 4, 7]]" waypoints) in
  let fs_data := data (attr0 Attr.fs) in
  ebind (if imu_gps imu then
           ebind (py_getitem fs 1) (fun fs1 =>
             inr [(1, fs_data); (1, PVal fs1)])
         else inr [(1, fs_data); (-1, fs_data)]) (fun output_def =>
  ebind (match mode with
         | AStr _ => inr high_mobility
         | AArr m => inr m
         | AOther =>
             inl (TypeError "mode should be a string or a numpy array of size (3,)")
         end) (fun mobility =>
  ebind (match env with
         | AStr _ => inr tt
         | AArr _ => inr tt
         | AOther =>
             inl (TypeError "env should be a string or a numpy array of size (n,2)")
         end) (fun _ =>
  let self :=
    {| sim_complete := false; sim_count := 1; imu := imu; attr := attr0;
       supported_in_constant := sic; supported_in_varying := siv;
       supported_out := so; res := ∅; supported_plot := ∅;
       ini_pos_n := ini_pos_n; ini_vel_b := ini_vel_b; ini_att := ini_att;
       motion_def := motion_def; output_def := output_def;
       mobility := mobility; vib_def := None; algo := algorithm;
       algo_in_expr := []; algo_out_expr := [] |} in
  match algorithm with
  | None => inr self
  | Some a =>
      let n_in := length (input a) in
      let n_out := length (output a) in
      if ((n_in <? 1) || (n_out <? 1))%nat then inl (ValueError check_msg)
      else
        let '(self', ok) := parse_algo_in_out self in
        if ok then inr self' else inl (ValueError check_msg)
  end)))))).

(** ** The state of a call and the monad of the methods *)

(** What a method leaves on the console and on the screen. *)
Inductive event : Type :=
  (** ['sim_idx[%s] = %s exceeds max simulation count: %s.'] *)
  | Print_idx (i : nat) (v : Z) (count : Z)
  (** ['Unsupported plot: %s.'] *)
  | Print_unsupported (i : string)
  (** [print(x.shape)] *)
  | Print_shape (sh : list nat)
  (** [plt.figure(title)]: the name of the container and, for a dict, the
      key after ['_'] *)
  | Figure (title : string) (key : option Z)
  (** the lines drawn on the axis, the legend and the grid *)
  | Lines (x : payload) (y : value) (logx logy : bool)
          (legend : option (list string)) (grid : bool)
  | Show.

Record machine : Type := {
  self : Sim;
  ext : world;
  console : list event
}.

(** A method: from the state before the call to what it returns or raises
    and the state after it. *)
Definition M (A : Type) : Type := machine -> (exn + A) * machine.

#[global] Instance M_ret : MRet M := fun A a m => (inr a, m).

#[global] Instance M_bind : MBind M := fun A B k c m =>
  match c m with
  | (inl e, m') => (inl e, m')
  | (inr a, m') => k a m'
  end.

Definition raise {A : Type} (e : exn) : M A := fun m => (inl e, m).

Definition lift {A : Type} (r : exn + A) : M A := fun m => (r, m).

Definition get_self : M Sim := fun m => (inr (self m), m).

Definition modify (f : Sim -> Sim) : M unit := fun m =>
  (inr tt, {| self := f (self m); ext := ext m; console := console m |}).

(** A call of a collaborator. *)
Definition call {A : Type} (f : world -> (exn + A) * world) : M A := fun m =>
  let '(r, w) := f (ext m) in
  (r, {| self := self m; ext := w; console := console m |}).

Definition emit (e : event) : M unit := fun m =>
  (inr tt, {| self := self m; ext := ext m; console := console m ++ [e] |}).

(** [for x in l: body] *)
Fixpoint for_each {A : Type} (l : list A) (body : A -> M unit) : M unit :=
  match l with
  | [] => mret tt
  | x :: rest => body x ≫= fun _ => for_each rest body
  end.

(** [range(0, n)] *)
Definition range (n : Z) : list Z := List.map Z.of_nat (List.seq 0 (Z.to_nat n)).

(** Assignments to the attributes that change after [__init__]. *)
Definition set_sim_complete (b : bool) (s : Sim) : Sim :=
  {| sim_complete := b; sim_count := sim_count s; imu := imu s;
     attr := attr s;
     supported_in_constant := supported_in_constant s;
     supported_in_varying := supported_in_varying s;
     supported_out := supported_out s;
     res := res s; supported_plot := supported_plot s;
     ini_pos_n := ini_pos_n s; ini_vel_b := ini_vel_b s; ini_att := ini_att s;
     motion_def := motion_def s; output_def := output_def s;
     mobility := mobility s; vib_def := vib_def s; algo := algo s;
     algo_in_expr := algo_in_expr s; algo_out_expr := algo_out_expr s |}.

Definition set_sim_count (n : Z) (s : Sim) : Sim :=
  {| sim_complete := sim_complete s; sim_count := n; imu := imu s;
     attr := attr s;
     supported_in_constant := supported_in_constant s;
     supported_in_varying := supported_in_varying s;
     supported_out := supported_out s;
     res := res s; supported_plot := supported_plot s;
     ini_pos_n := ini_pos_n s; ini_vel_b := ini_vel_b s; ini_att := ini_att s;
     motion_def := motion_def s; output_def := output_def s;
     mobility := mobility s; vib_def := vib_def s; algo := algo s;
     algo_in_expr := algo_in_expr s; algo_out_expr := algo_out_expr s |}.

Definition set_attr (f : Attr.t -> Sim_data) (s : Sim) : Sim :=
  {| sim_complete := sim_complete s; sim_count := sim_count s; imu := imu s;
     attr := f;
     supported_in_constant := supported_in_constant s;
     supported_in_varying := supported_in_varying s;
     supported_out := supported_out s;
     res := res s; supported_plot := supported_plot s;
     ini_pos_n := ini_pos_n s; ini_vel_b := ini_vel_b s; ini_att := ini_att s;
     motion_def := motion_def s; output_def := output_def s;
     mobility := mobility s; vib_def := vib_def s; algo := algo s;
     algo_in_expr := algo_in_expr s; algo_out_expr := algo_out_expr s |}.

Definition set_res (d : gmap key string) (s : Sim) : Sim :=
  {| sim_complete := sim_complete s; sim_count := sim_count s; imu := imu s;
     attr := attr s;
     supported_in_constant := supported_in_constant s;
     supported_in_varying := supported_in_varying s;
     supported_out := supported_out s;
     res := d; supported_plot := supported_plot s;
     ini_pos_n := ini_pos_n s; ini_vel_b := ini_vel_b s; ini_att := ini_att s;
     motion_def := motion_def s; output_def := output_def s;
     mobility := mobility s; vib_def := vib_def s; algo := algo s;
     algo_in_expr := algo_in_expr s; algo_out_expr := algo_out_expr s |}.

Definition set_supported_plot (d : gmap key string) (s : Sim) : Sim :=
  {| sim_complete := sim_complete s; sim_count := sim_count s; imu := imu s;
     attr := attr s;
     supported_in_constant := supported_in_constant s;
     supported_in_varying := supported_in_varying s;
     supported_out := supported_out s;
     res := res s; supported_plot := d;
     ini_pos_n := ini_pos_n s; ini_vel_b := ini_vel_b s; ini_att := ini_att s;
     motion_def := motion_def s; output_def := output_def s;
     mobility := mobility s; vib_def := vib_def s; algo := algo s;
     algo_in_expr := algo_in_expr s; algo_out_expr := algo_out_expr s |}.

(** [self.<a>.data = p] *)
Definition assign_data (a : Attr.t) (p : payload) : M unit :=
  modify (fun s => set_attr (attr_set_data a p (attr s)) s).

(** [self.<a>.data[i] = v].  The containers assigned by index keep the
    dict of [Sim_data.__init__]; an integer in its place has no item
    assignment. *)
Definition assign_item (a : Attr.t) (i : Z) (v : value) : M unit :=
  s ← get_self;
  match data (attr s a) with
  | PDict d => assign_data a (PDict (<[i := v]> d))
  | PVal _ => raise (TypeError "object does not support item assignment")
  end.

(** ['self.' + i]: the attribute of that identifier. *)
Definition getattr (i : string) : M Attr.t :=
  match Attr.of_ident i with
  | Some a => mret a
  | None => raise AttributeError
  end.

(** ** run *)

(** One element of [eval(algo_in_expr.replace('NO_OF_SIM', i_str))]. *)
Definition eval_in_term (i : Z) (t : in_term) : M payload :=
  match t with
  | TConst n =>
      a ← getattr n;
      s ← get_self;
      mret (data (attr s a))
  | TVary n =>
      a ← getattr n;
      s ← get_self;
      match data (attr s a) with
      | PDict d => v ← lift (dict_getitem d i); mret (PVal v)
      | PVal _ => raise IndexError
      end
  end.

Fixpoint eval_in_expr (i : Z) (e : list in_term) : M (list payload) :=
  match e with
  | [] => mret []
  | t :: rest =>
      p ← eval_in_term i t;
      ps ← eval_in_expr i rest;
      mret (p :: ps)
  end.

(** The targets of the unpacked assignment, from left to right. *)
Fixpoint assign_targets (i : Z) (targets : list string) (vals : list value)
    : M unit :=
  match targets, vals with
  | n :: targets', v :: vals' =>
      a ← getattr n;
      assign_item a i v;;
      assign_targets i targets' vals'
  | _, _ => mret tt
  end.

(** What CPython (up to 3.13) says when a list of [got] values is unpacked
    into [expected] targets. *)
Definition unpack_msg (expected got : nat) : string :=
  let n := NilEmpty.string_of_uint (Nat.to_uint expected) in
  if (got <? expected)%nat then
    "not enough values to unpack (expected " ++ n ++ ", got "
    ++ NilEmpty.string_of_uint (Nat.to_uint got) ++ ")"
  else "too many values to unpack (expected " ++ n ++ ")".

(** [exec(algo_out_expr.replace('NO_OF_SIM', i_str) + ' = self.algo.get_results()')]:
    the values are counted before the first target is assigned. *)
Definition exec_out_expr (i : Z) (targets : list string) (vals : list value)
    : M unit :=
  if decide (length vals = length targets) then assign_targets i targets vals
  else raise (ValueError (unpack_msg (length targets) (length vals))).

(** Lines 247 and 248. *)
Definition gen_accel (i : Z) : M unit :=
  s ← get_self;
  v ← call (acc_gen (data (attr s Attr.fs)) (data (attr s Attr.ref_accel))
                    (accel_err (imu s)) (vib_def s));
  assign_item Attr.accel i v.

(** Lines 250 and 251. *)
Definition gen_gyro (i : Z) : M unit :=
  s ← get_self;
  v ← call (gyro_gen (data (attr s Attr.fs)) (data (attr s Attr.ref_gyro))
                     (gyro_err (imu s)));
  assign_item Attr.gyro i v.

(** Lines 253 to 255. *)
Definition gen_gps (i : Z) : M unit :=
  s ← get_self;
  if imu_gps (imu s) then
    v ← call (gps_gen (data (attr s Attr.ref_gps)) (gps_err (imu s))
                      (data (attr s Attr.ref_frame)));
    assign_item Attr.gps i v
  else mret tt.

(** Lines 257 and 258. *)
Definition gen_mag (i : Z) : M unit :=
  s ← get_self;
  if imu_magnetometer (imu s) then
    v ← call (mag_gen (data (attr s Attr.ref_mag)) (mag_err (imu s)));
    assign_item Attr.mag i v
  else mret tt.

(** Lines 261 to 263. *)
Definition run_algo (i : Z) : M unit :=
  s ← get_self;
  match algo s with
  | None => mret tt
  | Some a =>
      args ← eval_in_expr i (algo_in_expr s);
      call (algo_run a args);;
      vals ← call (get_results a);
      s ← get_self;
      exec_out_expr i (algo_out_expr s) vals
  end.

(** The body of the loop of [run] (lines 245 to 263). *)
Definition trial (i : Z) : M unit :=
  gen_accel i;;
  gen_gyro i;;
  gen_gps i;;
  gen_mag i;;
  run_algo i.

(** [self.<a>.data = rtn[k][ix]] *)
Definition save_ref (a : Attr.t) (rtn : gmap string array) (k ix : string)
    : M unit :=
  r ← lift (dict_getitem rtn k);
  assign_data a (PVal (VArr (np_getitem ix r))).

(** Lines 224 to 226. *)
Definition set_count (num_times : num) : M unit :=
  n ← lift (py_int num_times);
  modify (set_sim_count n);;
  s ← get_self;
  if sim_count s <? 1 then modify (set_sim_count 1) else mret tt.

(** Lines 228 to 242. *)
Definition gen_reference : M unit :=
  s ← get_self;
  rtn ← call (path_gen (np_hstack [ini_pos_n s; ini_vel_b s; ini_att s])
                       (motion_def s) (output_def s) (mobility s)
                       (data (attr s Attr.ref_frame))
                       (imu_magnetometer (imu s)));
  save_ref Attr.time rtn "nav" "[:, 0]";;
  save_ref Attr.ref_pos rtn "nav" "[:, 1:4]";;
  save_ref Attr.ref_vel rtn "nav" "[:, 4:7]";;
  save_ref Attr.ref_att rtn "nav" "[:, 7:10]";;
  save_ref Attr.ref_accel rtn "imu" "[:, 1:4]";;
  save_ref Attr.ref_gyro rtn "imu" "[:, 4:7]";;
  s ← get_self;
  (if imu_gps (imu s) then
     save_ref Attr.gps_time rtn "gps" "[:, 0]";;
     save_ref Attr.ref_gps rtn "gps" "[:, 1:7]"
   else mret tt);;
  s ← get_self;
  if imu_magnetometer (imu s) then save_ref Attr.ref_mag rtn "mag" "[:, 1:4]"
  else mret tt.

(** Lines 244 to 263. *)
Definition simulate : M unit :=
  s ← get_self;
  for_each (range (sim_count s)) trial.

(** [Sim.run] *)
Definition run (num_times : num) : M unit :=
  set_count num_times;;
  gen_reference;;
  simulate;;
  modify (set_sim_complete true).

(** ** results *)

(** [self.res[i] = self.supported_out[i]] *)
Definition add_output (i : string) : M unit :=
  s ← get_self;
  d ← lift (dict_getitem (supported_out s) (KStr i));
  modify (fun s => set_res (<[KStr i := d]> (res s)) s).

(** [d.pop(k)] on [supported_plot] *)
Definition pop_supported_plot (k : key) : M unit :=
  s ← get_self;
  _ ← lift (dict_getitem (supported_plot s) k);
  modify (fun s => set_supported_plot (delete k (supported_plot s)) s).

(** [Sim.results] *)
Definition results : M (gmap key string) :=
  s ← get_self;
  (if sim_complete s then
     modify (fun s => set_res (supported_in_constant s) s);;
     modify (fun s => set_res (supported_in_varying s ∪ res s) s);;
     s ← get_self;
     match algo s with
     | None => mret tt
     | Some a => for_each (output a) add_output
     end;;
     modify (fun s => set_supported_plot (res s) s);;
     pop_supported_plot (KStr "fs");;
     pop_supported_plot (KStr "ref_frame")
   else mret tt);;
  s ← get_self;
  mret (res s).

(** ** Plotting *)

(** [x.shape] *)
Definition shape_of (p : payload) : exn + list nat :=
  match p with
  | PVal (VArr a) => inr (shape a)
  | _ => inl AttributeError
  end.

(** The [try] block of lines 453 to 477 returns: [y] has the attribute
    [ndim], it is 1 or 2, and matplotlib draws the lines. *)
Definition drawn (x y : payload) (logx logy : bool) : option value :=
  match y with
  | PVal v =>
      if bool_decide (ndim v = Some 1%nat ∨ ndim v = Some 2%nat)
         && lines_drawn x v logx logy
      then Some v else None
  | PDict _ => None
  end.

(** [plot_in_one_figure].  The figure is created first.  Whatever is
    raised in the [try] block (by [y.ndim], by the drawing, or the
    [ValueError] of line 477) is caught at line 478: the shapes of [x] and
    of [y] are printed, where they have one, and line 481 raises; the
    lines a drawing has left on the axis before it raised are not
    recorded.  [plt.figure], [plt.legend] and [plt.grid] are taken to
    return. *)
Definition plot_in_one_figure (x y : payload) (logx logy : bool)
    (title : string) (key : option Z) (grid : string)
    (legend : option (list string)) : M unit :=
  emit (Figure title key);;
  match drawn x y logx logy with
  | Some v =>
      emit (Lines x v logx logy legend (negb (String.eqb (lower grid) "off")))
  | None =>
      sx ← lift (shape_of x);
      emit (Print_shape sx);;
      sy ← lift (shape_of y);
      emit (Print_shape sy);;
      raise (ValueError "Check input data y.")
  end.

(** [Sim_data.plot_dict] of the container held by [a] *)
Definition plot_dict (a : Attr.t) (x : payload) (key : option (list Z)) : M unit :=
  match key with
  | None => raise (TypeError "'NoneType' object is not iterable")
  | Some keys =>
      for_each keys (fun i =>
        s ← get_self;
        let c := attr s a in
        match data c with
        | PDict d =>
            v ← lift (dict_getitem d i);
            let y := match pre_func c with Some f => f v | None => v end in
            plot_in_one_figure x (PVal y) (logx c) (logy c) (name c) (Some i)
                               (grid c) (legend c)
        | PVal _ => raise IndexError
        end)
  end.

(** [Sim_data.plot_array] *)
Definition plot_array (a : Attr.t) (x : payload) : M unit :=
  s ← get_self;
  let c := attr s a in
  plot_in_one_figure x (data c) (logx c) (logy c) (name c) None (grid c) (legend c).

(** [Sim_data.plot] *)
Definition Sim_data_plot (a : Attr.t) (x : payload) (key : option (list Z))
    : M unit :=
  s ← get_self;
  if plottable (attr s a) then
    match data (attr s a) with
    | PDict _ => plot_dict a x key
    | PVal _ => plot_array a x
    end
  else mret tt.

(** The argument [sim_idx] of [plot]: by the docstring an integer, or a
    list or tuple; the code also takes a [float]. *)
Inductive selector : Type :=
  | SNum (n : num)
  | SList (l : list num)
  | STuple (l : list num).

(** Lines 300 to 305: the items of the sequence the rest of the method
    works on, a list unless the caller has passed a tuple. *)
Definition selector_list (sim_idx : option selector) : M (list num) :=
  match sim_idx with
  | None => s ← get_self; mret (List.map NInt (range (sim_count s)))
  | Some (SNum (NInt z)) => mret [NInt z]
  | Some (SNum (NFloat f)) => z ← lift (py_int (NFloat f)); mret [NInt z]
  | Some (SList l) => mret l
  | Some (STuple l) => mret l
  end.

Definition is_tuple (sim_idx : option selector) : bool :=
  match sim_idx with
  | Some (STuple _) => true
  | _ => false
  end.

(** The loop of lines 307 to 312 from position [i] on: the elements
    converted by [int], and [invalid_idx].  Line 308 assigns the item in
    place, which a tuple ([mutable] false) does not support; the right
    hand side is evaluated first. *)
Fixpoint check_idx (mutable : bool) (i : nat) (sim_idx : list num)
    : M (list Z * list Z) :=
  match sim_idx with
  | [] => mret ([], [])
  | x :: rest =>
      v ← lift (py_int x);
      (if mutable then mret tt
       else raise (TypeError "'tuple' object does not support item assignment"));;
      s ← get_self;
      let bad := (sim_count s <=? v) || (v <? 0) in
      (if bad then emit (Print_idx i v (sim_count s)) else mret tt);;
      '(vs, invalid) ← check_idx mutable (S i) rest;
      mret (v :: vs, if bad then v :: invalid else invalid)
  end.

(** [l.remove(x)]: the first element equal to [x] goes. *)
Fixpoint py_remove (x : Z) (l : list Z) : exn + list Z :=
  match l with
  | [] => inl (ValueError "list.remove(x): x not in list")
  | y :: rest =>
      if decide (y = x) then inr rest
      else ebind (py_remove x rest) (fun rest' => inr (y :: rest'))
  end.

(** Lines 313 and 314. *)
Fixpoint remove_invalid (invalid : list Z) (sim_idx : list Z) : exn + list Z :=
  match invalid with
  | [] => inr sim_idx
  | i :: rest => ebind (py_remove i sim_idx) (remove_invalid rest)
  end.

(** Lines 299 to 314. *)
Definition resolve_sim_idx (sim_idx : option selector) : M (list Z) :=
  l ← selector_list sim_idx;
  '(vs, invalid) ← check_idx (negb (is_tuple sim_idx)) 0 l;
  lift (remove_invalid invalid vs).

(** The body of the loop of lines 316 to 331. *)
Definition plot_one (sim_idx : list Z) (i : string) : M unit :=
  s ← get_self;
  let x_axis := data (attr s Attr.time) in
  if str_in i (supported_plot s) then
    if str_in i (supported_in_constant s) then
      let x_axis :=
        if String.eqb i (name (attr s Attr.ref_gps))
           || String.eqb i (name (attr s Attr.gps_time))
        then data (attr s Attr.gps_time) else x_axis in
      a ← getattr i;
      Sim_data_plot a x_axis None
    else
      x_axis ←
        (if String.eqb i (name (attr s Attr.av_gyro))
            || String.eqb i (name (attr s Attr.av_accel))
            || String.eqb i (name (attr s Attr.av_t))
         then
           match data (attr s Attr.av_t) with
           | PDict d => v ← lift (dict_getitem d 0); mret (PVal v)
           | PVal _ => raise IndexError
           end
         else if String.eqb i (name (attr s Attr.gps))
         then mret (data (attr s Attr.gps_time))
         else mret x_axis);
      a ← getattr i;
      Sim_data_plot a x_axis (Some sim_idx)
  else emit (Print_unsupported i).

(** [Sim.plot] *)
Definition plot (what_to_plot : list string) (sim_idx : option selector)
    : M unit :=
  idx ← resolve_sim_idx sim_idx;
  for_each what_to_plot (plot_one idx);;
  emit Show.

(** ** Observations of the state *)

(** [self.<a>.data[i]], where the payload is the dict. *)
Definition slot (s : Sim) (a : Attr.t) (i : Z) : option value :=
  match data (attr s a) with
  | PDict d => d !! i
  | PVal _ => None
  end.

(** The containers of the sensor data and of the algorithm outputs: the
    ones written by index in [run]. *)
Definition per_trial : list Attr.t :=
  [Attr.gyro; Attr.accel; Attr.gps; Attr.mag;
   Attr.pos; Attr.vel; Attr.att_quat; Attr.att_euler;
   Attr.wb; Attr.ab; Attr.av_t; Attr.av_gyro; Attr.av_accel].

(** What no method assigns after [__init__]. *)
Definition config (s : Sim) :=
  (imu s, supported_in_constant s, supported_in_varying s, supported_out s,
   (ini_pos_n s, ini_vel_b s, ini_att s, motion_def s, output_def s, mobility s),
   vib_def s, algo s, algo_in_expr s, algo_out_expr s).

(** A relation between the state before and the state after that a
    computation may keep: a preorder that does not look at the world or
    at the console. *)
Class Frame (R : machine -> machine -> Prop) : Prop := {
  frame_refl : forall m, R m m;
  frame_trans : forall m1 m2 m3, R m1 m2 -> R m2 m3 -> R m1 m3;
  frame_ext : forall m w c, R m {| self := self m; ext := w; console := c |}
}.

Definition keeps (R : machine -> machine -> Prop) {A : Type} (c : M A) : Prop :=
  forall m, R m (snd (c m)).

(** The relations used below. *)
Definition same_config : machine -> machine -> Prop :=
  fun m m' => config (self m') = config (self m).

Definition same_progress : machine -> machine -> Prop :=
  fun m m' => sim_complete (self m') = sim_complete (self m)
              /\ sim_count (self m') = sim_count (self m).

Definition same_flag : machine -> machine -> Prop :=
  fun m m' => sim_complete (self m') = sim_complete (self m).

Definition same_slot (a : Attr.t) (i : Z) : machine -> machine -> Prop :=
  fun m m' => slot (self m') a i = slot (self m) a i.

Definition slots_grow : machine -> machine -> Prop :=
  fun m m' => forall a i, a ∈ per_trial ->
    is_Some (slot (self m) a i) -> is_Some (slot (self m') a i).

(** The sensor data a trial has generated, in the state [s]. *)
Definition filled (s : Sim) (i : Z) : Prop :=
  is_Some (slot s Attr.accel i)
  /\ is_Some (slot s Attr.gyro i)
  /\ (imu_gps (imu s) = true -> is_Some (slot s Attr.gps i))
  /\ (imu_magnetometer (imu s) = true -> is_Some (slot s Attr.mag i)).

(** The names of the containers in [supported_out]. *)
Definition out_names : list string :=
  ["pos"; "vel"; "att_quat"; "att_euler"; "wb"; "ab"; "av_t"; "av_gyro"; "av_accel"].

(** The state after the engine has gone from [s] to [f s]. *)
Definition upd (f : Sim -> Sim) (m : machine) : machine :=
  {| self := f (self m); ext := ext m; console := console m |}.

(** The dictionary [results] builds in a completed engine: the two
    dictionaries of inputs, and the entry of [supported_out] for each
    name in [outputs] that has one. *)
Definition add_out (so d : gmap key string) (i : string) : gmap key string :=
  match so !! KStr i with
  | Some x => <[KStr i := x]> d
  | None => d
  end.

Definition results_dict (s : Sim) : gmap key string :=
  foldl (add_out (supported_out s))
        (supported_in_varying s ∪ supported_in_constant s)
        (match algo s with Some a => output a | None => [] end).

(** [0 <= v < count] *)
Definition in_range (count v : Z) : bool := (0 <=? v) && (v <? count).

(** The lines [plot] prints for the indices [vs], the first of them at
    position [i] of the list. *)
Fixpoint warnings (count : Z) (i : nat) (vs : list Z) : list event :=
  match vs with
  | [] => []
  | v :: rest =>
      (if in_range count v then [] else [Print_idx i v count])
      ++ warnings count (S i) rest
  end.

(** [int] of each element. *)
Fixpoint ints_of (l : list num) : exn + list Z :=
  match l with
  | [] => inr []
  | x :: rest =>
      ebind (py_int x) (fun v => ebind (ints_of rest) (fun vs => inr (v :: vs)))
  end.

(** The integers a selector stands for in an engine of [count] trials. *)
Definition selected (count : Z) (sim_idx : option selector) : exn + list Z :=
  match sim_idx with
  | None => inr (range count)
  | Some (SNum n) => ebind (py_int n) (fun v => inr [v])
  | Some (SList l) => ints_of l
  | Some (STuple l) => ints_of l
  end.

(** What [plot_dict] draws of the container [c] for the keys [keys]: a
    figure and its lines for each key. *)
Definition figures (c : Sim_data) (x : payload) (d : gmap Z value)
    (keys : list Z) : list event :=
  List.flat_map (fun i =>
    match d !! i with
    | Some v =>
        let y := match pre_func c with Some f => f v | None => v end in
        [Figure (name c) (Some i);
         Lines x y (logx c) (logy c) (legend c)
               (negb (String.eqb (lower (grid c)) "off"))]
    | None => []
    end) keys.

(** The double nearest to 0.9: 8106479329266893 / 2^53. *)
Definition float_0_9 : spec_float := S754_finite false 8106479329266893 (-53).

(** The properties of a container that [Sim_data.__init__] sets and no
    method assigns afterwards. *)
Definition props (c : Sim_data) :=
  (name c, description c, plottable c, logx c, logy c, grid c, legend c,
   pre_func c).

Definition same_props : machine -> machine -> Prop :=
  fun m m' => forall a, props (attr (self m') a) = props (attr (self m) a).

Definition same_engine : machine -> machine -> Prop :=
  fun m m' => self m' = self m.

(** The two dictionaries [results] builds. *)
Definition same_results : machine -> machine -> Prop :=
  fun m m' => res (self m') = res (self m)
              /\ supported_plot (self m') = supported_plot (self m).

Definition same_data (a : Attr.t) : machine -> machine -> Prop :=
  fun m m' => data (attr (self m') a) = data (attr (self m) a).

(** Everything but the two dictionaries [results] builds. *)
Definition same_but_results : machine -> machine -> Prop :=
  fun m m' => config (self m') = config (self m)
              /\ attr (self m') = attr (self m)
              /\ sim_complete (self m') = sim_complete (self m)
              /\ sim_count (self m') = sim_count (self m).

(** The element of [algo_in_expr] that [parse_algo_in_out] writes for an
    input it accepts. *)
Definition in_term_of (sic : gmap key string) (i : string) : in_term :=
  if str_in i sic then TConst i else TVary i.

(** The per-trial containers hold the dict of [Sim_data.__init__]. *)
Definition dicts (s : Sim) : Prop :=
  forall a, a ∈ per_trial -> exists d, data (attr s a) = PDict d.

(** The reference containers [run] assigns from the result [rtn] of
    [path_gen]: the attribute, the key of [rtn] and the index. *)
Definition ref_slices (gps magnetometer : bool)
    : list (Attr.t * string * string) :=
  [(Attr.time, "nav", "[:, 0]"); (Attr.ref_pos, "nav", "[:, 1:4]");
   (Attr.ref_vel, "nav", "[:, 4:7]"); (Attr.ref_att, "nav", "[:, 7:10]");
   (Attr.ref_accel, "imu", "[:, 1:4]"); (Attr.ref_gyro, "imu", "[:, 4:7]")]
  ++ (if gps then [(Attr.gps_time, "gps", "[:, 0]");
                    (Attr.ref_gps, "gps", "[:, 1:7]")] else [])
  ++ (if magnetometer then [(Attr.ref_mag, "mag", "[:, 1:4]")] else []).

(** The containers [run] assigns in the engine [s]: the reference data,
    the sensor data, and the targets of [algo_out_expr]. *)
Definition written (s : Sim) : list Attr.t :=
  (List.map (fun x => fst (fst x))
            (ref_slices (imu_gps (imu s)) (imu_magnetometer (imu s)))
   ++ [Attr.accel; Attr.gyro]
   ++ (if imu_gps (imu s) then [Attr.gps] else [])
   ++ (if imu_magnetometer (imu s) then [Attr.mag] else [])
   ++ omap Attr.of_ident (algo_out_expr s))%list.

Definition dicts_stay : machine -> machine -> Prop :=
  fun m m' => dicts (self m) -> dicts (self m').

(** The container [a] holds the value [x] and goes on holding it. *)
Definition holds_val (a : Attr.t) (x : value) : machine -> machine -> Prop :=
  fun m m' => data (attr (self m) a) = PVal x -> data (attr (self m') a) = PVal x.

(** A relation kept by a computation in the states of the engine
    configured as [s0]. *)
Definition keeps_in (s0 : Sim) (R : machine -> machine -> Prop) {A : Type}
    (c : M A) : Prop :=
  forall m, config (self m) = config s0 -> R m (snd (c m)).

(** The states the methods take the engine [s0] of the constructor to:
    the configuration and the properties of the containers are those of
    [s0], and the per-trial containers hold their dict. *)
Definition state_of (s0 s : Sim) : Prop :=
  config s = config s0
  /\ (forall a, props (attr s a) = props (attr s0 a))
  /\ dicts s.

(** The argument the algorithm is given for its input [n] in trial [i]:
    the data of the container, or its entry for the trial. *)
Definition algo_arg (s : Sim) (i : Z) (n : string) : option payload :=
  match Attr.of_ident n with
  | Some a =>
      if str_in n (supported_in_constant s) then Some (data (attr s a))
      else match slot s a i with
           | Some v => Some (PVal v)
           | None => None
           end
  | None => None
  end.

(** The first part of the body of the loop of [run], lines 245 to 259:
    the generation of the sensor data of trial [i]. *)
Definition sensors (i : Z) : M unit :=
  gen_accel i;;
  gen_gyro i;;
  gen_gps i;;
  gen_mag i.

(** A computation that calls no collaborator and prints nothing. *)
Definition quiet {A : Type} (c : M A) : Prop :=
  forall m, ext (snd (c m)) = ext m /\ console (snd (c m)) = console m.

(** The console after the events [es]. *)
Definition printed(es : list event) (m : machine) : machine :=
  {| self := self m; ext := ext m; console := console m ++ es |}.

(** What a step of a trial leaves of the state [m] it starts in, when it
    assigns at most the entry [i] of the container [a]. *)
Definition step_of (a : Attr.t) (i : Z) (m m' : machine) : Prop :=
  console m' = console m
  /\ config (self m') = config (self m)
  /\ (forall b, b <> a -> data (attr (self m') b) = data (attr (self m) b))
  /\ (forall b j, b <> a \/ j <> i -> slot (self m') b j = slot (self m) b j).

(** A computation that only prints and draws: the state after it is the
    state before with events added to the console. *)
Definition appends {A : Type} (c : M A) : Prop :=
  forall m, exists es, snd (c m) = printed es m.

End Engine.

Arguments value : clear implicits.
Arguments payload : clear implicits.
Arguments pyarg : clear implicits.
Arguments imu_cfg : clear implicits.
Arguments algorithm : clear implicits.
Arguments External : clear implicits.
Arguments Sim_data : clear implicits.
Arguments Sim : clear implicits.
Arguments machine : clear implicits.
Arguments event : clear implicits.
Arguments init_supported_in_constant : simpl never.
Arguments init_supported_in_varying : simpl never.
Arguments init_supported_out : simpl never.
Arguments init_attr : simpl never.
Arguments new_attr : simpl never.

(** The collaborators [E], with an [acc_gen] that is never given a
    vibration model. *)
Definition without_vib {array world : Type} (E : External array world)
    : External array world :=
  {| shape := shape; np_getitem := np_getitem; np_times_D2R := np_times_D2R;
     np_hstack := np_hstack; np_sqrt := np_sqrt; ndim := ndim;
     lines_drawn := lines_drawn;
     high_mobility := high_mobility; path_gen := path_gen;
     acc_gen := fun fs ref err _ => acc_gen fs ref err None;
     gyro_gen := gyro_gen; gps_gen := gps_gen; mag_gen := mag_gen |}.

(** ** A small set of collaborators, to run the engine on

    An array is a number: below 100 the number of entries of an array of
    one dimension, otherwise a hundred times the number of rows plus the
    number of columns.  Matplotlib draws over an [x] that is an array and
    over no other.  The world counts the calls of [acc_gen]; the
    accelerometer data of a trial are the count at the call, and the
    algorithm [plugin k] raises when it is run at count [k]. *)
Module Demo.

#[global] Instance collaborators : External Z Z := {|
  shape := fun a =>
    if a <? 100 then [Z.to_nat a]
    else [Z.to_nat (a / 100); Z.to_nat (a mod 100)];
  np_getitem := fun _ a => a;
  np_times_D2R := fun _ a => a;
  np_hstack := fun _ => 0;
  np_sqrt := fun v => v;
  ndim := fun v =>
    match v with
    | VArr a => Some (if a <? 100 then 1%nat else 2%nat)
    | VInt _ => None
    end;
  lines_drawn := fun x _ _ _ =>
    match x with PVal (VArr _) => true | _ => false end;
  high_mobility := 0;
  path_gen := fun _ _ _ _ _ _ w =>
    (inr (<["nav" := 1]> (<["imu" := 2]> (<["gps" := 3]> (<["mag" := 4]> ∅)))), w);
  acc_gen := fun _ _ _ _ w => (inr (VArr w), w + 1);
  gyro_gen := fun _ _ _ w => (inr (VArr (100 + w)), w);
  gps_gen := fun _ _ _ w => (inr (VArr (200 + w)), w);
  mag_gen := fun _ _ w => (inr (VArr (300 + w)), w)
|}.

Definition imu_of (gps magnetometer : bool) : imu_cfg Z :=
  {| imu_gps := gps; imu_magnetometer := magnetometer;
     accel_err := 0; gyro_err := 0; gps_err := 0; mag_err := 0 |}.

Definition plugin (k : Z) : algorithm Z Z :=
  {| input := ["fs"; "gyro"; "accel"];
     output := ["att_euler"];
     algo_run := fun _ w =>
       if w =? k then (inl (Raised "algorithm"), w) else (inr tt, w);
     get_results := fun w => (inr [VArr (1000 + w)], w) |}.

(** A table of two rows and nine columns. *)
Definition waypoints : Z := 209.

Definition fs : list (value Z) := [VInt 100; VInt 10; VInt 0].

(** The state in which a method of the engine [s] is first called. *)
Definition start (s : Sim Z Z) : machine Z Z :=
  {| self := s; ext := 0; console := [] |}.

(** The engine [Sim(fs, imu, path, algorithm=a)] at its first call,
    if the constructor returns. *)
Definition engine (gps magnetometer : bool) (a : option (algorithm Z Z))
    : option (machine Z Z) :=
  match Sim_init fs (imu_of gps magnetometer) waypoints (AStr "flight")
                 (AStr "2g_random") a with
  | inr s => Some (start s)
  | inl _ => None
  end.

(** An engine to stand where the constructor has raised. *)
Definition blank : Sim Z Z :=
  {| sim_complete := false; sim_count := 1; imu := imu_of false false;
     attr := new_attr;
     supported_in_constant := ∅; supported_in_varying := ∅;
     supported_out := ∅; res := ∅; supported_plot := ∅;
     ini_pos_n := 0; ini_vel_b := 0; ini_att := 0; motion_def := 0;
     output_def := []; mobility := 0; vib_def := None; algo := None;
     algo_in_expr := []; algo_out_expr := [] |}.

(** The same engine as a state. *)
Definition boot (gps magnetometer : bool) (a : option (algorithm Z Z))
    : machine Z Z :=
  match engine gps magnetometer a with
  | Some m => m
  | None => start blank
  end.

(** The state after the call [c]. *)
Definition after {A : Type} (c : M A) (m : machine Z Z) : machine Z Z :=
  snd (c m).

(** An algorithm that asks for a sensor the engine does not have. *)
Definition bad_plugin : algorithm Z Z :=
  {| input := ["unknown_sensor"];
     output := ["att_euler"];
     algo_run := fun _ w => (inr tt, w);
     get_results := fun w => (inr [VArr (1000 + w)], w) |}.

(** An engine with GPS, without magnetometer, with the algorithm that
    raises at count 5: at its first call, after [run(3)], and after
    [run(3)] and [results()]. *)
Definition m0 : machine Z Z := boot true false (Some (plugin 5)).

Definition sim0 : Sim Z Z := self m0.

Definition m3 : machine Z Z := after (run (NInt 3)) m0.

Definition ready : machine Z Z := after results m3.

(** An array of one dimension and nine entries. *)
Definition nine_entries : Z := 9.

(** -0.5 *)
Definition minus_half : spec_float := S754_finite true 1 (-1).

(** The same collaborators with a [path_gen] that raises. *)
Definition failing : External Z Z :=
  {| shape := shape; np_getitem := np_getitem; np_times_D2R := np_times_D2R;
     np_hstack := np_hstack; np_sqrt := np_sqrt; ndim := ndim;
     lines_drawn := lines_drawn;
     high_mobility := high_mobility;
     path_gen := fun _ _ _ _ _ _ w => (inl (Raised "path_gen"), w);
     acc_gen := acc_gen; gyro_gen := gyro_gen; gps_gen := gps_gen;
     mag_gen := mag_gen |}.

(** An algorithm of Allan variance that does not output its time base. *)
Definition allan_plugin : algorithm Z Z :=
  {| input := ["gyro"];
     output := ["av_gyro"];
     algo_run := fun _ w => (inr tt, w);
     get_results := fun w => (inr [VArr (2000 + w)], w) |}.

(** An engine whose algorithm raises in its first trial. *)
Definition m01 : machine Z Z := boot true false (Some (plugin 1)).

(** The engine of Allan variance at its first call, after [run(1)], and
    after [run(1)] and [results()]. *)
Definition a0 : machine Z Z :=
  {| self := self (boot true false (Some allan_plugin)); ext := 0; console := [] |}.

Definition a1 : machine Z Z := after (run (NInt 1)) a0.

Definition a2 : machine Z Z := after results a1.

End Demo.


(** * Properties *)

Lemma Attr_of_ident_ident (a : Attr.t) : Attr.of_ident (Attr.ident a) = Some a.
Proof. destruct a; reflexivity. Qed.

Lemma Attr_of_ident_Some (s : string) (a : Attr.t) :
  Attr.of_ident s = Some a -> s = Attr.ident a.
Proof.
  unfold Attr.of_ident. intros Hf. apply List.find_some in Hf as [_ He].
  apply String.eqb_eq in He. congruence.
Qed.

Section Properties.

Context {array world : Type} `{E : External array world}.

#[local] Abbreviation machine := (machine array world).
#[local] Abbreviation Sim := (Sim array world).
#[local] Abbreviation same_config := (@same_config array world).
#[local] Abbreviation same_progress := (@same_progress array world).
#[local] Abbreviation same_flag := (@same_flag array world).
#[local] Abbreviation same_slot := (@same_slot array world).
#[local] Abbreviation slots_grow := (@slots_grow array world).

(** ** Running a computation step by step *)

Lemma bind_eq {A B : Type} (c : M A) (k : A -> M B) (m : machine) :
  (c ≫= k) m =
  match c m with
  | (inl e, m') => (inl e, m')
  | (inr a, m') => k a m'
  end.
Proof. reflexivity. Qed.

Lemma bind_inr {A B : Type} (c : M A) (k : A -> M B) (m m' : machine) (a : A) :
  c m = (inr a, m') -> (c ≫= k) m = k a m'.
Proof. intros Hc. rewrite bind_eq, Hc. reflexivity. Qed.

Lemma bind_inl {A B : Type} (c : M A) (k : A -> M B) (m m' : machine) (e : exn) :
  c m = (inl e, m') -> (c ≫= k) m = (inl e, m').
Proof. intros Hc. rewrite bind_eq, Hc. reflexivity. Qed.

Lemma bind_inv {A B : Type} (c : M A) (k : A -> M B) (m m' : machine)
    (r : exn + B) :
  (c ≫= k) m = (r, m') ->
  (exists e, c m = (inl e, m') /\ r = inl e) \/
  (exists a m1, c m = (inr a, m1) /\ k a m1 = (r, m')).
Proof.
  rewrite bind_eq. destruct (c m) as [[e | a] m1]; intros Hk.
  - left. exists e. split; congruence.
  - right. exists a, m1. split; [reflexivity | exact Hk].
Qed.

Lemma bind_inv_inr {A B : Type} (c : M A) (k : A -> M B) (m m' : machine)
    (b : B) :
  (c ≫= k) m = (inr b, m') ->
  exists a m1, c m = (inr a, m1) /\ k a m1 = (inr b, m').
Proof.
  intros Hb. apply bind_inv in Hb as [(e & _ & He) | Hb]; [discriminate | exact Hb].
Qed.

Lemma bind_assoc {A B C : Type} (c : M A) (k : A -> M B) (k' : B -> M C)
    (m : machine) :
  ((c ≫= k) ≫= k') m = (c ≫= fun a => k a ≫= k') m.
Proof.
  rewrite (bind_eq (c ≫= k)), (bind_eq c k), (bind_eq c).
  destruct (c m) as [[e | a] m1]; [reflexivity |]. rewrite bind_eq. reflexivity.
Qed.

(** ** Relations kept by a computation *)

Section Keeps.

Context (R : machine -> machine -> Prop) `{!Frame R}.

Lemma keeps_ret {A : Type} (a : A) : keeps R (mret a).
Proof. intros m. apply frame_refl. Qed.

Lemma keeps_raise {A : Type} (e : exn) : keeps R (raise (A := A) e).
Proof. intros m. apply frame_refl. Qed.

Lemma keeps_lift {A : Type} (r : exn + A) : keeps R (lift r).
Proof. intros m. apply frame_refl. Qed.

Lemma keeps_get_self : keeps R get_self.
Proof. intros m. apply frame_refl. Qed.

Lemma keeps_call {A : Type} (f : world -> (exn + A) * world) : keeps R (call f).
Proof.
  intros m. unfold call. destruct (f (ext m)) as [r w]. apply frame_ext.
Qed.

Lemma keeps_emit (e : event array) : keeps R (emit e).
Proof. intros m. apply frame_ext. Qed.

Lemma keeps_bind {A B : Type} (c : M A) (k : A -> M B) :
  keeps R c -> (forall a, keeps R (k a)) -> keeps R (c ≫= k).
Proof.
  intros Hc Hk m. rewrite bind_eq. specialize (Hc m).
  destruct (c m) as [[e | a] m1]; simpl in *; [exact Hc |].
  eapply frame_trans; [exact Hc | apply Hk].
Qed.

Lemma keeps_for_each {A : Type} (l : list A) (body : A -> M unit) :
  (forall x, x ∈ l -> keeps R (body x)) -> keeps R (for_each l body).
Proof.
  intros Hb. induction l as [| x l IH]; simpl.
  - apply keeps_ret.
  - apply keeps_bind; [apply Hb; left | intros _; apply IH].
    intros y Hy. apply Hb. right. exact Hy.
Qed.

Lemma keeps_getattr (i : string) : keeps R (getattr i).
Proof.
  unfold getattr. destruct (Attr.of_ident i); [apply keeps_ret | apply keeps_raise].
Qed.

End Keeps.

Ltac keeps_step :=
  match goal with
  | |- keeps _ (mbind _ _) => refine (keeps_bind _ _ _ _ _); [| intros ?]
  | |- keeps _ (mret _) => refine (keeps_ret _ _)
  | |- keeps _ (raise _) => refine (keeps_raise _ _)
  | |- keeps _ (lift _) => refine (keeps_lift _ _)
  | |- keeps _ get_self => refine (keeps_get_self _)
  | |- keeps _ (call _) => refine (keeps_call _ _)
  | |- keeps _ (emit _) => refine (keeps_emit _ _)
  | |- keeps _ (for_each _ _) => refine (keeps_for_each _ _ _ _); intros ? ?
  | |- keeps _ (getattr _) => refine (keeps_getattr _ _)
  | |- keeps _ (if ?b then _ else _) => destruct b
  | |- keeps _ (match ?x with _ => _ end) => destruct x
  end.

Create HintDb keeps.

Ltac keeps_auto := repeat keeps_step; try solve [auto with keeps].

#[local] Instance same_config_frame : Frame same_config.
Proof.
  unfold same_config. split; intros; simpl; congruence.
Qed.

#[local] Instance same_progress_frame : Frame same_progress.
Proof.
  unfold same_progress. split; intros; simpl; intuition congruence.
Qed.

#[local] Instance same_flag_frame : Frame same_flag.
Proof.
  unfold same_flag. split; intros; simpl; congruence.
Qed.

#[local] Instance same_slot_frame (a : Attr.t) (i : Z) :
  Frame (same_slot a i).
Proof.
  unfold same_slot. split; intros; simpl; congruence.
Qed.

#[local] Instance slots_grow_frame : Frame slots_grow.
Proof.
  unfold slots_grow. split; intros; simpl; auto.
Qed.

(** ** What the parts of [run] keep, from what their assignments keep *)

Section Run_keeps.

Context (R : machine -> machine -> Prop) `{!Frame R}.

Lemma eval_in_expr_keeps (i : Z) (e : list in_term) : keeps R (eval_in_expr i e).
Proof.
  induction e as [| t e IH]; simpl; [keeps_step |].
  keeps_step; [unfold eval_in_term; keeps_auto |].
  keeps_step; [exact IH | keeps_step].
Qed.

Lemma assign_targets_keeps (i : Z) (targets : list string) (vals : list (value array)) :
  (forall a v, keeps R (assign_item a i v)) ->
  keeps R (assign_targets i targets vals).
Proof.
  intros Hi. revert vals.
  induction targets as [| n targets IH]; intros [| v vals]; simpl;
    keeps_auto.
Qed.

Lemma gen_accel_keeps (i : Z) :
  (forall v, keeps R (assign_item Attr.accel i v)) -> keeps R (gen_accel i).
Proof. intros Hi. unfold gen_accel. keeps_auto. Qed.

Lemma gen_gyro_keeps (i : Z) :
  (forall v, keeps R (assign_item Attr.gyro i v)) -> keeps R (gen_gyro i).
Proof. intros Hi. unfold gen_gyro. keeps_auto. Qed.

Lemma gen_gps_keeps (i : Z) :
  (forall v, keeps R (assign_item Attr.gps i v)) -> keeps R (gen_gps i).
Proof. intros Hi. unfold gen_gps. keeps_auto. Qed.

Lemma gen_mag_keeps (i : Z) :
  (forall v, keeps R (assign_item Attr.mag i v)) -> keeps R (gen_mag i).
Proof. intros Hi. unfold gen_mag. keeps_auto. Qed.

Lemma run_algo_keeps (i : Z) :
  (forall a v, keeps R (assign_item a i v)) -> keeps R (run_algo i).
Proof.
  intros Hi. unfold run_algo, exec_out_expr. keeps_auto.
  - apply eval_in_expr_keeps.
  - apply assign_targets_keeps; exact Hi.
Qed.

Lemma trial_keeps (i : Z) :
  (forall a v, keeps R (assign_item a i v)) -> keeps R (trial i).
Proof.
  intros Hi. unfold trial. keeps_auto.
  - apply gen_accel_keeps; intros; apply Hi.
  - apply gen_gyro_keeps; intros; apply Hi.
  - apply gen_gps_keeps; intros; apply Hi.
  - apply gen_mag_keeps; intros; apply Hi.
  - apply run_algo_keeps; exact Hi.
Qed.

Lemma save_ref_keeps (a : Attr.t) (rtn : gmap string array) (k ix : string) :
  (forall p, keeps R (assign_data a p)) -> keeps R (save_ref a rtn k ix).
Proof. intros Ha. unfold save_ref. keeps_auto. Qed.

Lemma gen_reference_keeps :
  (forall a p, a ∉ per_trial -> keeps R (assign_data a p)) ->
  keeps R gen_reference.
Proof.
  intros Ha. unfold gen_reference.
  keeps_auto; apply save_ref_keeps; intros p; apply Ha;
    unfold per_trial; intros Hin; repeat (apply elem_of_cons in Hin as [Hin | Hin];
      [discriminate |]); inversion Hin.
Qed.

Lemma set_count_keeps (num_times : num) :
  (forall n, keeps R (modify (set_sim_count n))) -> keeps R (set_count num_times).
Proof. intros Hn. unfold set_count. keeps_auto. Qed.

Lemma simulate_keeps :
  (forall i a v, 0 <= i -> keeps R (assign_item a i v)) -> keeps R simulate.
Proof.
  intros Hi. unfold simulate. keeps_step; [keeps_step |].
  apply keeps_for_each; [exact _ |]. intros i Hin.
  apply trial_keeps. intros b v. apply Hi.
  unfold range in Hin. apply list_elem_of_fmap in Hin as (n & -> & _). lia.
Qed.

Lemma run_keeps (num_times : num) :
  (forall n, keeps R (modify (set_sim_count n))) ->
  (forall b, keeps R (modify (set_sim_complete b))) ->
  (forall a p, a ∉ per_trial -> keeps R (assign_data a p)) ->
  (forall i a v, 0 <= i -> keeps R (assign_item a i v)) ->
  keeps R (run num_times).
Proof.
  intros Hn Hb Ha Hi. unfold run. keeps_auto.
  - apply set_count_keeps; exact Hn.
  - apply gen_reference_keeps; exact Ha.
  - apply simulate_keeps; exact Hi.
Qed.

End Run_keeps.

(** ** The assignments and the four relations *)

Lemma slot_attr_set_data (s : Sim) (a b : Attr.t) (p : payload array) (i : Z) :
  slot (set_attr (attr_set_data a p (attr s)) s) b i =
  if decide (b = a) then match p with PDict d => d !! i | PVal _ => None end
  else slot s b i.
Proof.
  unfold slot, attr_set_data. simpl. destruct (decide (b = a)); reflexivity.
Qed.

Lemma assign_data_config (a : Attr.t) (p : payload array) :
  keeps same_config (assign_data a p).
Proof. intros m. reflexivity. Qed.

Lemma assign_data_progress (a : Attr.t) (p : payload array) :
  keeps same_progress (assign_data a p).
Proof. intros m. split; reflexivity. Qed.

Lemma assign_data_slot (a b : Attr.t) (p : payload array) (i : Z) :
  b <> a -> keeps (same_slot b i) (assign_data a p).
Proof.
  intros Hne m. unfold same_slot, assign_data, modify. simpl.
  rewrite slot_attr_set_data. destruct (decide (b = a)); [contradiction | reflexivity].
Qed.

Lemma assign_data_grow (a : Attr.t) (p : payload array) :
  a ∉ per_trial -> keeps slots_grow (assign_data a p).
Proof.
  intros Ha m b i Hb. unfold assign_data, modify. simpl.
  rewrite slot_attr_set_data. destruct (decide (b = a)) as [-> | _]; [contradiction | auto].
Qed.

Lemma assign_item_eq (a : Attr.t) (i : Z) (v : value array) (m : machine) :
  assign_item a i v m =
  match data (attr (self m) a) with
  | PDict d => assign_data a (PDict (<[i := v]> d)) m
  | PVal _ => (inl (TypeError "object does not support item assignment"), m)
  end.
Proof.
  unfold assign_item. rewrite bind_eq. simpl.
  destruct (data (attr (self m) a)); reflexivity.
Qed.

Lemma assign_item_config (a : Attr.t) (i : Z) (v : value array) :
  keeps same_config (assign_item a i v).
Proof.
  intros m. rewrite assign_item_eq.
  destruct (data (attr (self m) a)); reflexivity.
Qed.

Lemma assign_item_progress (a : Attr.t) (i : Z) (v : value array) :
  keeps same_progress (assign_item a i v).
Proof.
  intros m. rewrite assign_item_eq.
  destruct (data (attr (self m) a)); split; reflexivity.
Qed.

Lemma assign_item_slot (a b : Attr.t) (i j : Z) (v : value array) :
  b <> a \/ j <> i -> keeps (same_slot b j) (assign_item a i v).
Proof.
  intros Hne m. unfold same_slot. rewrite assign_item_eq.
  destruct (data (attr (self m) a)) as [d | w] eqn:Hd; [| reflexivity].
  unfold assign_data, modify. simpl. rewrite slot_attr_set_data.
  destruct (decide (b = a)) as [-> | _]; [| reflexivity].
  destruct Hne as [Hne | Hne]; [contradiction |].
  unfold slot. rewrite Hd. apply lookup_insert_ne. congruence.
Qed.

Lemma assign_item_grow (a : Attr.t) (i : Z) (v : value array) :
  keeps slots_grow (assign_item a i v).
Proof.
  intros m b j _ Hs. rewrite assign_item_eq.
  destruct (data (attr (self m) a)) as [d | w] eqn:Hd; [| exact Hs].
  unfold assign_data, modify. simpl. rewrite slot_attr_set_data.
  destruct (decide (b = a)) as [-> | _]; [| exact Hs].
  unfold slot in Hs. rewrite Hd in Hs.
  destruct (decide (i = j)) as [-> | Hne].
  - rewrite lookup_insert_eq. eauto.
  - rewrite lookup_insert_ne by exact Hne. exact Hs.
Qed.

Lemma assign_item_inr (a : Attr.t) (i : Z) (v : value array) (m m' : machine) :
  assign_item a i v m = (inr tt, m') -> slot (self m') a i = Some v.
Proof.
  rewrite assign_item_eq.
  destruct (data (attr (self m) a)) as [d | w] eqn:Hd; [| discriminate].
  unfold assign_data, modify. intros [= <-]. simpl.
  rewrite slot_attr_set_data. destruct (decide (a = a)); [| contradiction].
  apply lookup_insert_eq.
Qed.

Lemma set_sim_count_config (n : Z) : keeps same_config (modify (set_sim_count n)).
Proof. intros m. reflexivity. Qed.

Lemma set_sim_count_slot (a : Attr.t) (i n : Z) :
  keeps (same_slot a i) (modify (set_sim_count n)).
Proof. intros m. reflexivity. Qed.

Lemma set_sim_count_grow (n : Z) : keeps slots_grow (modify (set_sim_count n)).
Proof. intros m a i _ Hs. exact Hs. Qed.

Lemma set_sim_complete_config (b : bool) :
  keeps same_config (modify (set_sim_complete b)).
Proof. intros m. reflexivity. Qed.

Lemma set_sim_complete_slot (a : Attr.t) (i : Z) (b : bool) :
  keeps (same_slot a i) (modify (set_sim_complete b)).
Proof. intros m. reflexivity. Qed.

Lemma set_sim_complete_grow (b : bool) : keeps slots_grow (modify (set_sim_complete b)).
Proof. intros m a i _ Hs. exact Hs. Qed.

(** [run] never assigns what [__init__] has configured. *)
Lemma run_config (num_times : num) : keeps same_config (run num_times).
Proof.
  apply run_keeps; [exact _ | | | |]; intros.
  - apply set_sim_count_config.
  - apply set_sim_complete_config.
  - apply assign_data_config.
  - apply assign_item_config.
Qed.

(** A slot of a per-trial container, once filled, stays filled. *)
Lemma run_grow (num_times : num) : keeps slots_grow (run num_times).
Proof.
  apply run_keeps; [exact _ | | | |]; intros.
  - apply set_sim_count_grow.
  - apply set_sim_complete_grow.
  - apply assign_data_grow; assumption.
  - apply assign_item_grow.
Qed.

Lemma trial_config (i : Z) : keeps same_config (trial i).
Proof. apply trial_keeps; [exact _ |]. intros; apply assign_item_config. Qed.

Lemma trial_progress (i : Z) : keeps same_progress (trial i).
Proof. apply trial_keeps; [exact _ |]. intros; apply assign_item_progress. Qed.

Lemma trial_slot (i j : Z) (a : Attr.t) : j <> i -> keeps (same_slot a j) (trial i).
Proof.
  intros Hne. apply trial_keeps; [exact _ |].
  intros b v. apply assign_item_slot. right. exact Hne.
Qed.

Lemma trial_grow (i : Z) : keeps slots_grow (trial i).
Proof. apply trial_keeps; [exact _ |]. intros; apply assign_item_grow. Qed.

Lemma simulate_progress : keeps same_progress simulate.
Proof. apply simulate_keeps; [exact _ |]. intros; apply assign_item_progress. Qed.

Lemma gen_reference_progress : keeps same_progress gen_reference.
Proof. apply gen_reference_keeps; [exact _ |]. intros; apply assign_data_progress. Qed.

Lemma gen_reference_config : keeps same_config gen_reference.
Proof. apply gen_reference_keeps; [exact _ |]. intros; apply assign_data_config. Qed.

Lemma gen_reference_slot (a : Attr.t) (i : Z) :
  a ∈ per_trial -> keeps (same_slot a i) gen_reference.
Proof.
  intros Ha. apply gen_reference_keeps; [exact _ |].
  intros b p Hb. apply assign_data_slot. congruence.
Qed.

Lemma set_count_slot (a : Attr.t) (i : Z) (num_times : num) :
  keeps (same_slot a i) (set_count num_times).
Proof. apply set_count_keeps; [exact _ |]. intros; apply set_sim_count_slot. Qed.

Lemma set_count_config (num_times : num) : keeps same_config (set_count num_times).
Proof. apply set_count_keeps; [exact _ |]. intros; apply set_sim_count_config. Qed.

(** ** Loops over [range] *)

Lemma range_S (n : nat) :
  range (Z.of_nat (S n)) = (range (Z.of_nat n) ++ [Z.of_nat n])%list.
Proof.
  unfold range. rewrite !Nat2Z.id, seq_S, List.map_app. reflexivity.
Qed.

Lemma elem_of_range (n x : Z) : x ∈ range n <-> 0 <= x < n.
Proof.
  unfold range. rewrite list_elem_of_fmap. split.
  - intros (k & -> & Hk). apply list_elem_of_In, in_seq in Hk. lia.
  - intros Hx. exists (Z.to_nat x). split; [lia |].
    apply list_elem_of_In, in_seq. lia.
Qed.

Lemma range_split (n k : Z) :
  0 <= k < n ->
  exists rest, range n = (range k ++ k :: rest)%list /\ forall j, j ∈ rest -> k < j.
Proof.
  intros Hk. unfold range.
  replace (Z.to_nat n) with (Z.to_nat k + S (Z.to_nat n - S (Z.to_nat k)))%nat by lia.
  rewrite seq_app, List.map_app. simpl.
  exists (List.map Z.of_nat (seq (S (Z.to_nat k)) (Z.to_nat n - S (Z.to_nat k)))).
  split.
  - rewrite Z2Nat.id by lia. reflexivity.
  - intros j Hj. apply list_elem_of_fmap in Hj as (x & -> & Hx).
    apply list_elem_of_In, in_seq in Hx. lia.
Qed.

Lemma for_each_app {A : Type} (l1 l2 : list A) (body : A -> M unit) (m : machine) :
  for_each (l1 ++ l2)%list body m
  = (for_each l1 body ≫= fun _ => for_each l2 body) m.
Proof.
  revert m. induction l1 as [| x l1 IH]; intros m; simpl.
  - reflexivity.
  - rewrite !bind_eq. destruct (body x m) as [[e | []] m1]; [reflexivity |].
    rewrite IH. reflexivity.
Qed.

(** A loop that raises has run a prefix of its trials to the end and has
    raised in the next one. *)
Lemma for_each_range_inl (body : Z -> M unit) (n : nat) (m m' : machine) (e : exn) :
  for_each (range (Z.of_nat n)) body m = (inl e, m') ->
  exists k mk, 0 <= k < Z.of_nat n
    /\ for_each (range k) body m = (inr tt, mk)
    /\ body k mk = (inl e, m').
Proof.
  induction n as [| n IH].
  - discriminate.
  - rewrite range_S, for_each_app, bind_eq.
    destruct (for_each (range (Z.of_nat n)) body m) as [[e1 | []] m1] eqn:Hpre.
    + intros [= <- <-]. destruct (IH eq_refl) as (k & mk & Hk & Hrun & Hbody).
      exists k, mk. split; [lia | auto].
    + simpl. rewrite bind_eq.
      destruct (body (Z.of_nat n) m1) as [[e1 | []] m2] eqn:Hb; [| discriminate].
      intros [= <- <-]. exists (Z.of_nat n), m1. split; [lia | auto].
Qed.

(** A loop that returns has run each of its trials to the end. *)
Lemma for_each_range_inr (body : Z -> M unit) (n k : Z) (m m' : machine) :
  for_each (range n) body m = (inr tt, m') ->
  0 <= k < n ->
  exists rest mk mk',
    (forall j, j ∈ rest -> k < j)
    /\ for_each (range k) body m = (inr tt, mk)
    /\ body k mk = (inr tt, mk')
    /\ for_each rest body mk' = (inr tt, m').
Proof.
  intros Hrun Hk. destruct (range_split n k Hk) as (rest & Heq & Hrest).
  rewrite Heq, for_each_app in Hrun.
  apply bind_inv_inr in Hrun as ([] & mk & Hpre & Hrun). simpl in Hrun.
  apply bind_inv_inr in Hrun as ([] & mk' & Hb & Hrun).
  exists rest, mk, mk'. auto.
Qed.

(** ** What a trial that returns has filled *)

Lemma gen_accel_inr (i : Z) (m m' : machine) :
  gen_accel i m = (inr tt, m') ->
  exists v w,
    acc_gen (data (attr (self m) Attr.fs)) (data (attr (self m) Attr.ref_accel))
            (accel_err (imu (self m))) (vib_def (self m)) (ext m) = (inr v, w)
    /\ slot (self m') Attr.accel i = Some v.
Proof.
  unfold gen_accel. rewrite bind_eq. cbn [get_self]. rewrite bind_eq.
  unfold call.
  destruct (acc_gen _ _ _ _ (ext m)) as [[e | v] w] eqn:Hgen; [discriminate |].
  intros Ha. apply assign_item_inr in Ha. eauto.
Qed.

Lemma gen_gyro_inr (i : Z) (m m' : machine) :
  gen_gyro i m = (inr tt, m') ->
  exists v w,
    gyro_gen (data (attr (self m) Attr.fs)) (data (attr (self m) Attr.ref_gyro))
             (gyro_err (imu (self m))) (ext m) = (inr v, w)
    /\ slot (self m') Attr.gyro i = Some v.
Proof.
  unfold gen_gyro. rewrite bind_eq. cbn [get_self]. rewrite bind_eq.
  unfold call.
  destruct (gyro_gen _ _ _ (ext m)) as [[e | v] w] eqn:Hgen; [discriminate |].
  intros Ha. apply assign_item_inr in Ha. eauto.
Qed.

Lemma gen_gps_inr (i : Z) (m m' : machine) :
  gen_gps i m = (inr tt, m') ->
  imu_gps (imu (self m)) = true ->
  is_Some (slot (self m') Attr.gps i).
Proof.
  unfold gen_gps. rewrite bind_eq. cbn [get_self]. intros Hrun Hgps.
  rewrite Hgps, bind_eq in Hrun. unfold call in Hrun.
  destruct (gps_gen _ _ _ (ext m)) as [[e | v] w] eqn:Hgen; [discriminate |].
  apply assign_item_inr in Hrun. eauto.
Qed.

Lemma gen_mag_inr (i : Z) (m m' : machine) :
  gen_mag i m = (inr tt, m') ->
  imu_magnetometer (imu (self m)) = true ->
  is_Some (slot (self m') Attr.mag i).
Proof.
  unfold gen_mag. rewrite bind_eq. cbn [get_self]. intros Hrun Hmag.
  rewrite Hmag, bind_eq in Hrun. unfold call in Hrun.
  destruct (mag_gen _ _ (ext m)) as [[e | v] w] eqn:Hgen; [discriminate |].
  apply assign_item_inr in Hrun. eauto.
Qed.

Lemma keeps_inv (R : machine -> machine -> Prop) {A : Type} (c : M A)
    (m m' : machine) (r : exn + A) :
  keeps R c -> c m = (r, m') -> R m m'.
Proof. intros Hk Hc. specialize (Hk m). rewrite Hc in Hk. exact Hk. Qed.

Lemma config_imu (s s' : Sim) : config s' = config s -> imu s' = imu s.
Proof. unfold config. intros [= ]. assumption. Qed.

Lemma config_algo (s s' : Sim) : config s' = config s -> algo s' = algo s.
Proof. unfold config. intros [= ]. assumption. Qed.

Lemma config_vib_def (s s' : Sim) : config s' = config s -> vib_def s' = vib_def s.
Proof. unfold config. intros [= ]. assumption. Qed.

Lemma per_trial_sensors :
  Attr.accel ∈ per_trial /\ Attr.gyro ∈ per_trial
  /\ Attr.gps ∈ per_trial /\ Attr.mag ∈ per_trial.
Proof. unfold per_trial. repeat split; set_solver. Qed.

Lemma filled_grow (m m' : machine) (i : Z) :
  slots_grow m m' -> same_config m m' -> filled (self m) i -> filled (self m') i.
Proof.
  intros Hg Hc (Ha & Hy & Hp & Hm). apply config_imu in Hc.
  destruct per_trial_sensors as (Pa & Py & Pp & Pm).
  unfold filled. rewrite Hc. split; [| split; [| split]]; auto.
Qed.

Lemma trial_fills (i : Z) (m m' : machine) :
  trial i m = (inr tt, m') -> filled (self m') i.
Proof.
  unfold trial. intros Hrun.
  apply bind_inv_inr in Hrun as ([] & m1 & Hacc & Hrun).
  apply bind_inv_inr in Hrun as ([] & m2 & Hgyr & Hrun).
  apply bind_inv_inr in Hrun as ([] & m3 & Hgps & Hrun).
  apply bind_inv_inr in Hrun as ([] & m4 & Hmag & Hrun).
  destruct per_trial_sensors as (Pa & Py & Pp & Pm).
  assert (Hgrow : forall j, keeps slots_grow (gen_gyro j) /\ keeps slots_grow (gen_gps j)
                    /\ keeps slots_grow (gen_mag j) /\ keeps slots_grow (run_algo j)).
  { intros j. split; [| split; [| split]];
      [apply gen_gyro_keeps | apply gen_gps_keeps | apply gen_mag_keeps
       | apply run_algo_keeps]; try exact _; intros; apply assign_item_grow. }
  assert (Hcfg : forall j, keeps same_config (gen_gyro j) /\ keeps same_config (gen_gps j)
                    /\ keeps same_config (gen_mag j) /\ keeps same_config (run_algo j)).
  { intros j. split; [| split; [| split]];
      [apply gen_gyro_keeps | apply gen_gps_keeps | apply gen_mag_keeps
       | apply run_algo_keeps]; try exact _; intros; apply assign_item_config. }
  destruct (Hgrow i) as (G2 & G3 & G4 & G5). destruct (Hcfg i) as (C2 & C3 & C4 & C5).
  pose proof (keeps_inv _ _ _ _ _ G2 Hgyr) as g2.
  pose proof (keeps_inv _ _ _ _ _ G3 Hgps) as g3.
  pose proof (keeps_inv _ _ _ _ _ G4 Hmag) as g4.
  pose proof (keeps_inv _ _ _ _ _ G5 Hrun) as g5.
  pose proof (config_imu _ _ (keeps_inv _ _ _ _ _ C3 Hgps)) as c3.
  pose proof (config_imu _ _ (keeps_inv _ _ _ _ _ C4 Hmag)) as c4.
  pose proof (config_imu _ _ (keeps_inv _ _ _ _ _ C5 Hrun)) as c5.
  apply gen_accel_inr in Hacc as (va & wa & _ & Hacc).
  apply gen_gyro_inr in Hgyr as (vy & wy & _ & Hgyr).
  unfold filled. split; [| split; [| split]].
  - apply g5, g4, g3, g2; eauto.
  - apply g5, g4, g3; eauto.
  - intros Hp. apply g5, g4; [exact Pp | exact Pp |].
    eapply gen_gps_inr; [exact Hgps |]. congruence.
  - intros Hm. apply g5; [exact Pm |]. eapply gen_mag_inr; [exact Hmag |]. congruence.
Qed.

(** ** The completion flag *)

Lemma run_eq (num_times : num) (m : machine) :
  run num_times m =
  match (set_count num_times ≫= fun _ => gen_reference ≫= fun _ => simulate) m with
  | (inl e, m') => (inl e, m')
  | (inr _, m') => modify (set_sim_complete true) m'
  end.
Proof.
  unfold run. rewrite !bind_eq.
  destruct (set_count num_times m) as [[e | []] m1]; [reflexivity |].
  rewrite !bind_eq.
  destruct (gen_reference m1) as [[e | []] m2]; [reflexivity |].
  rewrite !bind_eq.
  destruct (simulate m2) as [[e | []] m3]; reflexivity.
Qed.

Lemma set_count_flag (num_times : num) : keeps same_flag (set_count num_times).
Proof. apply set_count_keeps; [exact _ |]. intros n m. reflexivity. Qed.

Lemma before_flag_is_set (num_times : num) :
  keeps same_flag (set_count num_times ≫= fun _ => gen_reference ≫= fun _ => simulate).
Proof.
  keeps_step; [apply set_count_flag |].
  keeps_step; intros m.
  - apply (gen_reference_progress m).
  - apply (simulate_progress m).
Qed.

Lemma run_inr_flag (num_times : num) (m m' : machine) :
  run num_times m = (inr tt, m') -> sim_complete (self m') = true.
Proof.
  rewrite run_eq.
  destruct ((set_count num_times ≫= _) m) as [[e | []] m3]; [discriminate |].
  unfold modify. intros [= <-]. reflexivity.
Qed.

(** C5.  The flag and the trials.  [run] sets [sim_complete] in its last
    statement (line 265) and nowhere clears it.  Once the trial count is
    set and the reference data are generated, the call returns and sets
    the flag when every trial returns; when trial [k] is the first to
    raise, the call raises the same exception in the state that trial has
    left, the trials before [k] have run to their end and their slots are
    as they were when trial [k] began, with the sensor data in them, and
    the flag is what it was before the call.  One of the two happens.  So
    in an engine whose flag is set, by an earlier call that returned, the
    flag stays set after a call in which a trial has raised. *)
Theorem run_flag_and_earlier_trials (num_times : num) (m : machine) :
  (forall r m', run num_times m = (r, m') ->
     (r = inr tt -> sim_complete (self m') = true)
     /\ (forall e, r = inl e -> sim_complete (self m') = sim_complete (self m))
     /\ (sim_complete (self m) = true -> sim_complete (self m') = true))
  /\ (forall m1,
        (set_count num_times ≫= fun _ => gen_reference) m = (inr tt, m1) ->
        let n := sim_count (self m1) in
        (forall m2, for_each (range n) trial m1 = (inr tt, m2) ->
           run num_times m = (inr tt, upd (set_sim_complete true) m2))
        /\ (forall k mk e m',
              0 <= k < n ->
              for_each (range k) trial m1 = (inr tt, mk) ->
              trial k mk = (inl e, m') ->
              run num_times m = (inl e, m')
              /\ sim_complete (self m') = sim_complete (self m)
              /\ forall i, 0 <= i < k ->
                   filled (self m') i
                   /\ forall a, slot (self m') a i = slot (self mk) a i)
        /\ ((exists m2, for_each (range n) trial m1 = (inr tt, m2))
            \/ exists k mk e m',
                 0 <= k < n
                 /\ for_each (range k) trial m1 = (inr tt, mk)
                 /\ trial k mk = (inl e, m'))).
Proof.
  assert (Hflag : forall r m', run num_times m = (r, m') ->
     (r = inr tt -> sim_complete (self m') = true)
     /\ (forall e, r = inl e -> sim_complete (self m') = sim_complete (self m))).
  { intros r m' Hrun. split.
    - intros ->. apply (run_inr_flag _ _ _ Hrun).
    - intros e ->. rewrite run_eq in Hrun.
      pose proof (before_flag_is_set num_times m) as Hflag.
      destruct ((set_count num_times ≫= _) m) as [[e1 | []] m3]; [| discriminate].
      injection Hrun as _ <-. exact Hflag. }
  split.
  { intros r m' Hrun. destruct (Hflag r m' Hrun) as [Hok Hfail].
    split; [exact Hok |]. split; [exact Hfail |].
    intros Hset. destruct r as [e | []]; [| apply Hok; reflexivity].
    rewrite (Hfail e eq_refl). exact Hset. }
  intros m1 Hpre n.
  apply bind_inv_inr in Hpre as ([] & m0 & Hcount & Hgen).
  assert (Hrun : run num_times m
                 = (for_each (range n) trial ≫= fun _ => modify (set_sim_complete true)) m1).
  { unfold run. rewrite (bind_inr _ _ _ _ _ Hcount), (bind_inr _ _ _ _ _ Hgen).
    unfold simulate. rewrite bind_assoc, bind_eq. reflexivity. }
  split; [| split].
  - intros m2 Hall. rewrite Hrun, (bind_inr _ _ _ _ _ Hall). reflexivity.
  - intros k mk e m' Hk Hbefore Hk'.
    assert (Hraise : run num_times m = (inl e, m')).
    { rewrite Hrun. apply bind_inl.
      destruct (range_split n k Hk) as (rest & -> & _).
      rewrite for_each_app, (bind_inr _ _ _ _ _ Hbefore). cbn [for_each].
      apply bind_inl. exact Hk'. }
    split; [exact Hraise |].
    split; [apply (proj2 (Hflag _ _ Hraise) e eq_refl) |].
    intros i Hi.
    assert (Hsame : forall a, slot (self m') a i = slot (self mk) a i).
    { intros a. apply (keeps_inv _ _ _ _ _ (trial_slot k i a ltac:(lia)) Hk'). }
    split; [| exact Hsame].
    destruct (for_each_range_inr trial k i m1 mk Hbefore Hi)
      as (rest & mi & mi' & Hrest & _ & Hi' & Htail).
    apply trial_fills in Hi'.
    assert (Hgrow : slots_grow mi' mk /\ same_config mi' mk).
    { split.
      - apply (keeps_inv _ _ _ _ _ (keeps_for_each _ rest trial
                 (fun j _ => trial_grow j)) Htail).
      - apply (keeps_inv _ _ _ _ _ (keeps_for_each _ rest trial
                 (fun j _ => trial_config j)) Htail). }
    destruct Hgrow as [Hg Hcf].
    pose proof (filled_grow _ _ i Hg Hcf Hi') as Hmk.
    pose proof (config_imu _ _ (keeps_inv _ _ _ _ _ (trial_config k) Hk')) as Himu.
    destruct Hmk as (Ha & Hy & Hp & Hm).
    unfold filled. rewrite Himu, !Hsame. auto.
  - destruct (for_each (range n) trial m1) as [[e | []] m2] eqn:Hsim; [| eauto].
    right.
    assert (Hc : n = Z.of_nat (Z.to_nat n) \/ n < 0) by lia.
    destruct Hc as [Hc | Hc].
    + rewrite Hc in Hsim.
      apply for_each_range_inl in Hsim as (k & mk & Hk & Hbefore & Hk').
      exists k, mk, e, m2. split; [lia |]. split; assumption.
    + unfold range in Hsim. replace (Z.to_nat n) with 0%nat in Hsim by lia.
      discriminate.
Qed.

(** ** The constructor *)

Lemma parse_out_Some (so : gmap key string) (names acc oe : list string) :
  parse_out so names acc = Some oe ->
  oe = (acc ++ names)%list /\ forall n, n ∈ names -> str_in n so = true.
Proof.
  revert acc. induction names as [| n names IH]; intros acc; simpl.
  - intros [= <-]. rewrite app_nil_r. split; [reflexivity |]. intros n Hn. inversion Hn.
  - destruct (str_in n so) eqn:Hn; [| discriminate].
    intros Hp. apply IH in Hp as [-> Hall]. rewrite <- app_assoc. split; [reflexivity |].
    intros x Hx. apply elem_of_cons in Hx as [-> | Hx]; auto.
Qed.

Lemma parse_out_None (so : gmap key string) (names acc : list string) (n : string) :
  n ∈ names -> str_in n so = false -> parse_out so names acc = None.
Proof.
  intros Hin Hn. destruct (parse_out so names acc) as [oe |] eqn:Hp; [| reflexivity].
  apply parse_out_Some in Hp as [_ Hall]. rewrite (Hall n Hin) in Hn. discriminate.
Qed.

Lemma parse_in_Some (sic siv : gmap key string) (names : list string)
    (acc ie : list in_term) :
  parse_in sic siv names acc = Some ie ->
  forall n, n ∈ names -> str_in n sic = true \/ str_in n siv = true.
Proof.
  revert acc. induction names as [| n names IH]; intros acc; simpl.
  - intros _ n Hn. inversion Hn.
  - intros Hp x Hx. apply elem_of_cons in Hx as [-> | Hx].
    + destruct (str_in n sic); [left; reflexivity |].
      destruct (str_in n siv); [right; reflexivity | discriminate].
    + destruct (str_in n sic); [eapply IH; eassumption |].
      destruct (str_in n siv); [eapply IH; eassumption | discriminate].
Qed.

Lemma parse_in_None (sic siv : gmap key string) (names : list string)
    (acc : list in_term) (n : string) :
  n ∈ names -> str_in n sic = false -> str_in n siv = false ->
  parse_in sic siv names acc = None.
Proof.
  intros Hin Hc Hv. destruct (parse_in sic siv names acc) as [ie |] eqn:Hp; [| reflexivity].
  destruct (parse_in_Some _ _ _ _ _ Hp n Hin); congruence.
Qed.

Lemma parse_in_total (sic siv : gmap key string) (names : list string)
    (acc : list in_term) :
  (forall n, n ∈ names -> str_in n sic = true \/ str_in n siv = true) ->
  is_Some (parse_in sic siv names acc).
Proof.
  revert acc. induction names as [| n names IH]; intros acc Hall; simpl; [eauto |].
  assert (Hrest : forall x, x ∈ names -> str_in x sic = true \/ str_in x siv = true)
    by (intros x Hx; apply Hall; right; exact Hx).
  destruct (Hall n) as [Hn | Hn]; [left | |].
  - rewrite Hn. apply IH, Hrest.
  - destruct (str_in n sic); [apply IH, Hrest |]. rewrite Hn. apply IH, Hrest.
Qed.

Lemma parse_out_total (so : gmap key string) (names acc : list string) :
  (forall n, n ∈ names -> str_in n so = true) -> is_Some (parse_out so names acc).
Proof.
  revert acc. induction names as [| n names IH]; intros acc Hall; simpl; [eauto |].
  rewrite (Hall n) by left. apply IH. intros x Hx. apply Hall. right. exact Hx.
Qed.

(** What the constructor has done when it returns. *)
Lemma Sim_init_inr (fs : list (value array)) (imu_ : imu_cfg array) (waypoints : array)
    (mode env : pyarg array) (alg : option (algorithm array world)) (s : Sim) :
  Sim_init fs imu_ waypoints mode env alg = inr s ->
  exists fs0,
    fs !! 0%nat = Some fs0
    /\ sim_complete s = false /\ sim_count s = 1 /\ imu s = imu_
    /\ attr s = init_attr fs0
    /\ supported_in_constant s = init_supported_in_constant (init_attr fs0) imu_
    /\ supported_in_varying s = init_supported_in_varying (init_attr fs0) imu_
    /\ supported_out s = init_supported_out (init_attr fs0)
    /\ res s = ∅ /\ supported_plot s = ∅
    /\ vib_def s = None /\ algo s = alg
    /\ match alg with
       | None => algo_in_expr s = [] /\ algo_out_expr s = []
       | Some a =>
           is_Some (parse_in (supported_in_constant s) (supported_in_varying s)
                             (input a) [])
           /\ parse_out (supported_out s) (output a) [] = Some (algo_out_expr s)
       end.
Proof.
  unfold Sim_init. intros Hinit.
  destruct (py_getitem fs 0) as [e | fs0] eqn:Hfs; [discriminate |].
  exists fs0. split.
  { unfold py_getitem in Hfs. destruct (fs !! 0%nat); congruence. }
  cbn [ebind] in Hinit.
  destruct (py_getitem (shape waypoints) 0) as [e | rows]; [discriminate |].
  cbn [ebind] in Hinit.
  match type of Hinit with ebind ?x _ = _ => destruct x as [e | bad] end;
    [discriminate |].
  cbn [ebind] in Hinit. destruct bad; [discriminate |].
  match type of Hinit with ebind ?x _ = _ => destruct x as [e | od] end;
    [discriminate |].
  cbn [ebind] in Hinit.
  match type of Hinit with ebind ?x _ = _ => destruct x as [e | mob] end;
    [discriminate |].
  cbn [ebind] in Hinit.
  match type of Hinit with ebind ?x _ = _ => destruct x as [e | []] end;
    [discriminate |].
  cbn [ebind] in Hinit.
  destruct alg as [a |].
  - destruct ((length (input a) <? 1)%nat || (length (output a) <? 1)%nat);
      [discriminate |].
    unfold parse_algo_in_out in Hinit.
    cbn [algo supported_in_constant supported_in_varying supported_out
         algo_in_expr algo_out_expr] in Hinit.
    destruct (parse_in _ _ (input a) []) as [ie |] eqn:Hin; [| discriminate].
    destruct (parse_out _ (output a) []) as [oe |] eqn:Hout; [| discriminate].
    injection Hinit as <-. cbn.
    rewrite Hin. repeat split; eauto.
  - injection Hinit as <-. cbn. repeat split; reflexivity.
Qed.

Lemma init_registry_data (fs0 : value array) (imu_ : imu_cfg array) :
  init_supported_in_constant (init_attr fs0) imu_ = init_supported_in_constant new_attr imu_
  /\ init_supported_in_varying (init_attr fs0) imu_ = init_supported_in_varying new_attr imu_
  /\ init_supported_out (init_attr fs0) = init_supported_out (array := array) new_attr.
Proof. repeat split; reflexivity. Qed.


(** ** The three dictionaries *)

Lemma supported_out_keys (k : key) :
  is_Some (init_supported_out (array := array) new_attr !! k) ->
  exists n, k = KStr n /\ n ∈ out_names.
Proof.
  unfold init_supported_out. rewrite !lookup_insert_is_Some', lookup_empty.
  intros Hk. repeat destruct Hk as [<- | Hk];
    try (eexists; split; [reflexivity |]; apply list_elem_of_In; vm_compute; tauto).
  destruct Hk as [x Hx]. discriminate.
Qed.

Lemma supported_in_varying_keys (imu_ : imu_cfg array) (k : key) :
  is_Some (init_supported_in_varying new_attr imu_ !! k) ->
  exists n, k = KStr n /\ n ∈ ["gyro"; "accel"; "gps"; "mag"].
Proof.
  unfold init_supported_in_varying.
  destruct (imu_gps imu_), (imu_magnetometer imu_);
    rewrite !lookup_insert_is_Some', lookup_empty;
    intros Hk; repeat destruct Hk as [<- | Hk];
    try (eexists; split; [reflexivity |]; apply list_elem_of_In; vm_compute; tauto);
    destruct Hk as [x Hx]; discriminate.
Qed.

Lemma constant_not_output (imu_ : imu_cfg array) (n : string) :
  n ∈ out_names ->
  init_supported_in_constant new_attr imu_ !! KStr n = None
  /\ init_supported_in_varying new_attr imu_ !! KStr n = None.
Proof.
  unfold init_supported_in_constant, init_supported_in_varying, out_names.
  intros Hn. repeat (apply elem_of_cons in Hn as [-> | Hn]); [.. | inversion Hn];
    destruct (imu_gps imu_), (imu_magnetometer imu_); split; vm_compute; reflexivity.
Qed.

Lemma constant_not_varying (imu_ : imu_cfg array) (n : string) :
  n ∈ ["gyro"; "accel"; "gps"; "mag"] ->
  init_supported_in_constant new_attr imu_ !! KStr n = None.
Proof.
  unfold init_supported_in_constant.
  intros Hn. repeat (apply elem_of_cons in Hn as [-> | Hn]); [.. | inversion Hn];
    destruct (imu_gps imu_), (imu_magnetometer imu_); vm_compute; reflexivity.
Qed.

Lemma constant_has_fs (imu_ : imu_cfg array) :
  init_supported_in_constant new_attr imu_ !! KStr "fs" = Some "sample frequency of imu"
  /\ init_supported_in_constant new_attr imu_ !! KStr "ref_frame" = Some "reference frame"
  /\ init_supported_in_varying new_attr imu_ !! KStr "fs" = None
  /\ init_supported_in_varying new_attr imu_ !! KStr "ref_frame" = None.
Proof.
  unfold init_supported_in_constant, init_supported_in_varying.
  destruct (imu_gps imu_), (imu_magnetometer imu_); repeat split; vm_compute; reflexivity.
Qed.

(** ** results *)

Lemma modify_bind {B : Type} (f : Sim -> Sim) (k : unit -> M B) (m : machine) :
  (modify f ≫= k) m = k tt (upd f m).
Proof. reflexivity. Qed.

Lemma get_self_bind {B : Type} (k : Sim -> M B) (m : machine) :
  (get_self ≫= k) m = k (self m) m.
Proof. reflexivity. Qed.

Lemma ret_bind {A B : Type} (a : A) (k : A -> M B) (m : machine) :
  (mret a ≫= k) m = k a m.
Proof. reflexivity. Qed.

Lemma add_output_inr (i x : string) (m : machine) :
  supported_out (self m) !! KStr i = Some x ->
  add_output i m = (inr tt, upd (fun s => set_res (<[KStr i := x]> (res s)) s) m).
Proof.
  intros Hx. unfold add_output. rewrite get_self_bind.
  unfold dict_getitem. rewrite Hx. reflexivity.
Qed.

Lemma for_each_add_output (l : list string) (m : machine) :
  (forall i, i ∈ l -> is_Some (supported_out (self m) !! KStr i)) ->
  exists m',
    for_each l add_output m = (inr tt, m')
    /\ res (self m') = foldl (add_out (supported_out (self m))) (res (self m)) l
    /\ supported_out (self m') = supported_out (self m).
Proof.
  revert m. induction l as [| i l IH]; intros m Hall.
  - exists m. auto.
  - destruct (Hall i) as [x Hx]; [left |].
    destruct (IH (upd (fun s => set_res (<[KStr i := x]> (res s)) s) m))
      as (m' & Hrun & Hres & Hso).
    { intros j Hj. apply Hall. right. exact Hj. }
    exists m'. cbn [for_each]. rewrite (bind_inr _ _ _ _ _ (add_output_inr i x m Hx)).
    rewrite Hrun, Hres, Hso. cbn [upd self supported_out res set_res foldl].
    split; [reflexivity |]. split; [| reflexivity].
    f_equal. unfold add_out. rewrite Hx. reflexivity.
Qed.

Lemma add_out_lookup (so d : gmap key string) (l : list string) (k : key) :
  (forall i, i ∈ l -> is_Some (so !! KStr i)) ->
  foldl (add_out so) d l !! k =
  if decide (k ∈ KStr <$> l) then so !! k else d !! k.
Proof.
  revert d. induction l as [| i l IH]; intros d Hall.
  - cbn. destruct (decide (k ∈ [])) as [Hin | _]; [inversion Hin | reflexivity].
  - destruct (Hall i) as [x Hx]; [left |].
    cbn [foldl]. rewrite IH by (intros j Hj; apply Hall; right; exact Hj).
    unfold add_out. rewrite Hx. rewrite fmap_cons.
    destruct (decide (k ∈ KStr <$> l)) as [Hin | Hnin].
    + destruct (decide (k ∈ KStr i :: (KStr <$> l))) as [_ | Hn]; [reflexivity |].
      exfalso. apply Hn. right. exact Hin.
    + destruct (decide (k = KStr i)) as [-> | Hne].
      * rewrite lookup_insert_eq.
        destruct (decide (KStr i ∈ KStr i :: (KStr <$> l))) as [_ | Hn];
          [congruence | exfalso; apply Hn; left].
      * rewrite lookup_insert_ne by congruence.
        destruct (decide (k ∈ KStr i :: (KStr <$> l))) as [Hin | _]; [| reflexivity].
        apply elem_of_cons in Hin as [-> | Hin]; contradiction.
Qed.

Lemma pop_supported_plot_inr (k : key) (m : machine) :
  is_Some (supported_plot (self m) !! k) ->
  pop_supported_plot k m =
  (inr tt, upd (fun s => set_supported_plot (delete k (supported_plot s)) s) m).
Proof.
  intros [x Hx]. unfold pop_supported_plot.
  rewrite get_self_bind. unfold dict_getitem. rewrite Hx. reflexivity.
Qed.

(** In a completed engine [results] returns [results_dict], if the
    declared outputs are supported and ['fs'] and ['ref_frame'] are inputs. *)
Lemma results_complete (m : machine) :
  sim_complete (self m) = true ->
  (forall i, i ∈ match algo (self m) with Some a => output a | None => [] end ->
             is_Some (supported_out (self m) !! KStr i)) ->
  is_Some ((supported_in_varying (self m) ∪ supported_in_constant (self m)) !! KStr "fs") ->
  is_Some ((supported_in_varying (self m) ∪ supported_in_constant (self m))
             !! KStr "ref_frame") ->
  exists m', results m = (inr (results_dict (self m)), m').
Proof.
  intros Hc Hout Hfs Hrf. unfold results.
  rewrite get_self_bind, Hc.
  set (m2 := upd (fun s => set_res (supported_in_varying s ∪ res s) s)
                 (upd (fun s => set_res (supported_in_constant s) s) m)).
  assert (Hloop : exists m3,
    match algo (self m2) with
    | Some a => for_each (output a) add_output
    | None => mret tt
    end m2 = (inr tt, m3)
    /\ res (self m3) = results_dict (self m)).
  { unfold results_dict. cbn [m2 upd self algo set_res].
    destruct (algo (self m)) as [a |].
    - destruct (for_each_add_output (output a) m2 Hout) as (m3 & Hrun & Hres & _).
      exists m3. split; [exact Hrun |]. rewrite Hres. reflexivity.
    - exists m2. split; reflexivity. }
  destruct Hloop as (m3 & Hloop & Hres).
  assert (Hall : forall k, is_Some ((supported_in_varying (self m)
                    ∪ supported_in_constant (self m)) !! k) ->
                    is_Some (results_dict (self m) !! k)).
  { intros k Hk. unfold results_dict. rewrite add_out_lookup by exact Hout.
    destruct (decide _) as [Hin | _]; [| exact Hk].
    apply list_elem_of_fmap in Hin as (i & -> & Hi). apply Hout, Hi. }
  rewrite bind_eq, !modify_bind. fold m2.
  rewrite get_self_bind, bind_eq, Hloop, modify_bind.
  rewrite bind_eq, pop_supported_plot_inr
    by (cbn [upd self supported_plot set_supported_plot]; rewrite Hres; apply Hall, Hfs).
  rewrite pop_supported_plot_inr.
  - rewrite get_self_bind. cbn [upd self res set_supported_plot]. rewrite Hres.
    eexists. reflexivity.
  - cbn [upd self supported_plot set_supported_plot]. rewrite Hres.
    rewrite lookup_delete_ne by discriminate. apply Hall, Hrf.
Qed.

Lemma config_registry (s s' : Sim) :
  config s' = config s ->
  supported_in_constant s' = supported_in_constant s
  /\ supported_in_varying s' = supported_in_varying s
  /\ supported_out s' = supported_out s.
Proof. unfold config. intros [= ]. auto. Qed.

Lemma config_exprs (s s' : Sim) :
  config s' = config s ->
  algo_in_expr s' = algo_in_expr s /\ algo_out_expr s' = algo_out_expr s.
Proof. unfold config. intros [= ]. auto. Qed.

Lemma str_in_true (i : string) (d : gmap key string) :
  str_in i d = true <-> is_Some (d !! KStr i).
Proof. unfold str_in. apply bool_decide_eq_true. Qed.

(** The inputs of the constructed engine are disjoint, and none is an output. *)
Lemma inputs_union (imu_ : imu_cfg array) (k : key) (v : string) :
  (init_supported_in_varying new_attr imu_ ∪ init_supported_in_constant new_attr imu_)
    !! k = Some v
  <-> init_supported_in_constant new_attr imu_ !! k = Some v
      \/ init_supported_in_varying new_attr imu_ !! k = Some v.
Proof.
  rewrite lookup_union_Some_raw. split.
  - intros [Hv | [_ Hc]]; auto.
  - intros [Hc | Hv]; [right | left; exact Hv]. split; [| exact Hc].
    destruct (init_supported_in_varying new_attr imu_ !! k) as [x |] eqn:Hx;
      [| reflexivity].
    destruct (supported_in_varying_keys imu_ k) as (n & -> & Hn); [eauto |].
    rewrite (constant_not_varying imu_ n Hn) in Hc. discriminate.
Qed.

Lemma output_not_input (imu_ : imu_cfg array) (k : key) :
  is_Some (init_supported_out (array := array) new_attr !! k) ->
  init_supported_in_constant new_attr imu_ !! k = None
  /\ init_supported_in_varying new_attr imu_ !! k = None.
Proof.
  intros Hk. apply supported_out_keys in Hk as (n & -> & Hn).
  apply constant_not_output, Hn.
Qed.

(** C3.  In the engine the constructor returns, [results] before any
    [run] returns the empty dictionary and raises nothing.  After a [run]
    that has returned, from any state of that engine, [results] returns a
    dictionary whose entries are exactly the entries of
    [supported_in_constant], those of [supported_in_varying], and the
    entries of [supported_out] under the names the algorithm declares as
    outputs. *)
Theorem results_before_and_after_run (fs : list (value array))
    (imu_ : imu_cfg array) (waypoints : array) (mode env : pyarg array)
    (alg : option (algorithm array world)) (s0 : Sim) :
  Sim_init fs imu_ waypoints mode env alg = inr s0 ->
  (forall w c,
     results {| self := s0; ext := w; console := c |}
     = (inr ∅, {| self := s0; ext := w; console := c |}))
  /\ (forall (m m1 : machine) (num_times : num),
        config (self m) = config s0 ->
        run num_times m = (inr tt, m1) ->
        exists d m2,
          results m1 = (inr d, m2)
          /\ forall k v,
               d !! k = Some v <->
               supported_in_constant s0 !! k = Some v
               \/ supported_in_varying s0 !! k = Some v
               \/ exists a i, alg = Some a /\ i ∈ output a /\ k = KStr i
                              /\ supported_out s0 !! k = Some v).
Proof.
  intros Hinit.
  destruct (Sim_init_inr _ _ _ _ _ _ _ Hinit)
    as (fs0 & _ & Hflag & _ & _ & _ & Hsic & Hsiv & Hso & Hres & _ & _ & Halg & Hparse).
  destruct (init_registry_data fs0 imu_) as (Dc & Dv & Do).
  rewrite Dc in Hsic. rewrite Dv in Hsiv. rewrite Do in Hso.
  split.
  { intros w c. unfold results. rewrite get_self_bind. cbn [self]. rewrite Hflag.
    rewrite ret_bind, get_self_bind. cbn [self]. rewrite Hres. reflexivity. }
  intros m m1 num_times Hcfg Hrun.
  assert (Hcfg1 : config (self m1) = config s0).
  { rewrite <- Hcfg. apply (keeps_inv _ _ _ _ _ (run_config num_times) Hrun). }
  assert (Hdone : sim_complete (self m1) = true).
  { apply (run_inr_flag _ _ _ Hrun). }
  destruct (config_registry _ _ Hcfg1) as (Rc & Rv & Ro).
  pose proof (config_algo _ _ Hcfg1) as Ra. rewrite Halg in Ra.
  assert (Hout : forall i,
    i ∈ match algo (self m1) with Some a => output a | None => [] end ->
    is_Some (supported_out (self m1) !! KStr i)).
  { intros i Hi. rewrite Ra in Hi. rewrite Ro. destruct alg as [a |]; [| inversion Hi].
    destruct Hparse as [_ Hpo]. apply parse_out_Some in Hpo as [_ Hall].
    apply str_in_true, Hall, Hi. }
  destruct (constant_has_fs imu_) as (Hfs & Hrf & _ & _).
  destruct (results_complete m1 Hdone Hout) as [m2 Hresults].
  { rewrite Rc, Rv, Hsic, Hsiv. exists "sample frequency of imu".
    apply inputs_union. left. exact Hfs. }
  { rewrite Rc, Rv, Hsic, Hsiv. exists "reference frame".
    apply inputs_union. left. exact Hrf. }
  exists (results_dict (self m1)), m2. split; [exact Hresults |].
  intros k v. unfold results_dict. rewrite add_out_lookup by exact Hout.
  rewrite Ra, Rc, Rv, Ro, Hsic, Hsiv, Hso.
  destruct (decide _) as [Hin | Hnin].
  - apply list_elem_of_fmap in Hin as (i & -> & Hi).
    destruct alg as [a |]; [| inversion Hi].
    split.
    + intros Hv. right. right. exists a, i. auto.
    + intros [Hc | [Hv | (a' & i' & _ & _ & _ & Hv)]]; [| | exact Hv].
      * destruct (output_not_input imu_ (KStr i)) as [Hn _]; [| congruence].
        rewrite <- Hso, <- Ro. apply Hout. rewrite Ra. exact Hi.
      * destruct (output_not_input imu_ (KStr i)) as [_ Hn]; [| congruence].
        rewrite <- Hso, <- Ro. apply Hout. rewrite Ra. exact Hi.
  - rewrite inputs_union. split.
    + intros [Hc | Hv]; auto.
    + intros [Hc | [Hv | (a & i & -> & Hi & -> & _)]]; auto.
      exfalso. apply Hnin. apply list_elem_of_fmap. exists i. auto.
Qed.

(** ** Construction with an algorithm *)

Lemma str_in_false (i : string) (d : gmap key string) :
  str_in i d = false <-> d !! KStr i = None.
Proof.
  unfold str_in. rewrite bool_decide_eq_false, <- eq_None_not_Some. reflexivity.
Qed.

(** The engine before the algorithm is checked determines the result. *)
Lemma Sim_init_algorithm (fs : list (value array)) (imu_ : imu_cfg array)
    (waypoints : array) (mode env : pyarg array) (a : algorithm array world) :
  match Sim_init fs imu_ waypoints mode env None with
  | inl e => Sim_init fs imu_ waypoints mode env (Some a) = inl e
  | inr s0 =>
      Sim_init fs imu_ waypoints mode env (Some a) =
      if ((length (input a) <? 1)%nat || (length (output a) <? 1)%nat)
      then inl (ValueError check_msg)
      else
        match parse_in (supported_in_constant s0) (supported_in_varying s0)
                       (input a) [],
              parse_out (supported_out s0) (output a) [] with
        | Some ie, Some oe =>
            inr {| sim_complete := sim_complete s0; sim_count := sim_count s0;
                   imu := imu s0; attr := attr s0;
                   supported_in_constant := supported_in_constant s0;
                   supported_in_varying := supported_in_varying s0;
                   supported_out := supported_out s0;
                   res := res s0; supported_plot := supported_plot s0;
                   ini_pos_n := ini_pos_n s0; ini_vel_b := ini_vel_b s0;
                   ini_att := ini_att s0; motion_def := motion_def s0;
                   output_def := output_def s0; mobility := mobility s0;
                   vib_def := vib_def s0; algo := Some a;
                   algo_in_expr := ie; algo_out_expr := oe |}
        | _, _ => inl (ValueError check_msg)
        end
  end.
Proof.
  unfold Sim_init.
  repeat match goal with
         | |- context [ebind ?x _] => destruct x as [? | ?]; cbn [ebind]; [reflexivity |]
         | |- context [if ?b then inl (ValueError motion_msg) else _] =>
             destruct b; [reflexivity |]
         end.
  destruct ((length (input a) <? 1)%nat || (length (output a) <? 1)%nat);
    [reflexivity |].
  unfold parse_algo_in_out.
  cbn [algo supported_in_constant supported_in_varying supported_out
       algo_in_expr algo_out_expr].
  destruct (parse_in _ _ (input a) []) as [ie |]; [| reflexivity].
  destruct (parse_out _ (output a) []) as [oe |]; reflexivity.
Qed.

(** C1.  An algorithm that declares an input that is a key of neither
    dictionary of inputs, or an output that is no key of
    [supported_out], makes the constructor raise: no engine is returned,
    so nothing is bound and there is no object to call [run] on.  Where
    the other arguments are accepted the exception is the [ValueError] of
    line 214. *)
Theorem unknown_name_fails_construction (fs : list (value array))
    (imu_ : imu_cfg array) (waypoints : array) (mode env : pyarg array)
    (a : algorithm array world) :
  (exists n, n ∈ input a
     /\ init_supported_in_constant new_attr imu_ !! KStr n = None
     /\ init_supported_in_varying new_attr imu_ !! KStr n = None)
  \/ (exists n, n ∈ output a
        /\ init_supported_out (array := array) new_attr !! KStr n = None) ->
  (exists e, Sim_init fs imu_ waypoints mode env (Some a) = inl e)
  /\ (forall s0, Sim_init fs imu_ waypoints mode env None = inr s0 ->
        Sim_init fs imu_ waypoints mode env (Some a) = inl (ValueError check_msg)).
Proof.
  intros Hbad.
  pose proof (Sim_init_algorithm fs imu_ waypoints mode env a) as Heq.
  destruct (Sim_init fs imu_ waypoints mode env None) as [e | s0] eqn:Hnone.
  { split; [eauto | intros s1 [=]]. }
  assert (Hfail : Sim_init fs imu_ waypoints mode env (Some a)
                  = inl (ValueError check_msg)).
  { rewrite Heq. clear Heq.
    destruct ((length (input a) <? 1)%nat || (length (output a) <? 1)%nat);
      [reflexivity |].
    destruct (Sim_init_inr _ _ _ _ _ _ _ Hnone)
      as (fs0 & _ & _ & _ & _ & _ & Hsic & Hsiv & Hso & _).
    destruct (init_registry_data fs0 imu_) as (Dc & Dv & Do).
    rewrite Hsic, Hsiv, Hso, Dc, Dv, Do.
    destruct Hbad as [(n & Hn & Hc & Hv) | (n & Hn & Ho)].
    - rewrite (parse_in_None _ _ _ [] n Hn) by (apply str_in_false; assumption).
      reflexivity.
    - rewrite (parse_out_None _ _ [] n Hn) by (apply str_in_false; assumption).
      destruct (parse_in _ _ _ _); reflexivity. }
  split; [eauto |]. intros s1 _. exact Hfail.
Qed.

(** ** The trajectory table *)

Lemma py_getitem_inl {A : Type} (l : list A) : 
  (exists e, py_getitem l 0 = inl e) -> l = [].
Proof. destruct l; [reflexivity |]. intros [e He]. discriminate. Qed.

(** C7.  The table is a file of [rows] lines of [cols] numbers, and
    [waypoints] the array [np.genfromtxt] makes of it.  With fewer than
    two rows or a number of columns other than nine the constructor
    raises.  What it raises, once [fs[0]] exists, is the [ValueError] of
    line 163 for an empty file and for a table of at least two rows and
    two columns; for a table of one row (nine columns or not) and for a
    table of one column it is the [IndexError] of [waypoints.shape[1]] or
    [waypoints.shape[0]] in the test of line 162, which never reaches line
    163.  With at least two rows and nine columns the constructor returns
    an engine, when [fs] has the entries the code reads, [mode] and [env]
    are strings or arrays, and the algorithm, if any, declares at least
    one input and one output, all of them supported. *)
Theorem trajectory_table_shape (fs : list (value array)) (imu_ : imu_cfg array)
    (waypoints : array) (mode env : pyarg array)
    (alg : option (algorithm array world)) (rows cols : nat) :
  (1 <= cols)%nat ->
  shape waypoints = genfromtxt_shape rows cols ->
  ((rows < 2 \/ cols <> 9)%nat ->
     exists e, Sim_init fs imu_ waypoints mode env alg = inl e)
  /\ (fs <> [] ->
      (rows = 0 \/ (2 <= rows /\ 2 <= cols /\ cols <> 9))%nat ->
      Sim_init fs imu_ waypoints mode env alg = inl (ValueError motion_msg))
  /\ (fs <> [] ->
      (rows = 1 \/ (2 <= rows /\ cols = 1))%nat ->
      Sim_init fs imu_ waypoints mode env alg = inl IndexError)
  /\ ((2 <= rows /\ cols = 9)%nat ->
      fs <> [] -> (imu_gps imu_ = true -> (2 <= length fs)%nat) ->
      mode <> AOther -> env <> AOther ->
      match alg with
      | None => True
      | Some a =>
          input a <> [] /\ output a <> []
          /\ (forall n, n ∈ input a ->
                is_Some (init_supported_in_constant new_attr imu_ !! KStr n)
                \/ is_Some (init_supported_in_varying new_attr imu_ !! KStr n))
          /\ (forall n, n ∈ output a ->
                is_Some (init_supported_out (array := array) new_attr !! KStr n))
      end ->
      exists s, Sim_init fs imu_ waypoints mode env alg = inr s).
Proof.
  intros Hcols Hshape.
  assert (Hvalue : fs <> [] ->
            (rows = 0 \/ (2 <= rows /\ 2 <= cols /\ cols <> 9))%nat ->
            Sim_init fs imu_ waypoints mode env alg = inl (ValueError motion_msg)).
  { intros Hfs Hbad. destruct fs as [| fs0 fs']; [contradiction |].
    unfold Sim_init. rewrite Hshape. unfold genfromtxt_shape.
    destruct Hbad as [-> | (Hr & Hc & Hne)]; [reflexivity |].
    destruct rows as [| [| rows]]; [lia | lia |].
    destruct cols as [| [| cols]]; [lia | lia |].
    cbn [Nat.eqb List.filter negb]. unfold py_getitem.
    cbn [lookup list_lookup ebind Nat.ltb Nat.leb].
    destruct (S (S cols) =? 9)%nat eqn:Hc9; [| reflexivity].
    apply Nat.eqb_eq in Hc9. contradiction. }
  assert (Hindex : fs <> [] ->
            (rows = 1 \/ (2 <= rows /\ cols = 1))%nat ->
            Sim_init fs imu_ waypoints mode env alg = inl IndexError).
  { intros Hfs Hbad. destruct fs as [| fs0 fs']; [contradiction |].
    unfold Sim_init. rewrite Hshape. unfold genfromtxt_shape.
    destruct Hbad as [-> | (Hr & ->)].
    - destruct cols as [| [| cols]]; [lia | reflexivity |]. reflexivity.
    - destruct rows as [| [| rows]]; [lia | lia |]. reflexivity. }
  split; [| split; [exact Hvalue | split; [exact Hindex |]]].
  - intros Hbad. destruct fs as [| fs0 fs'] eqn:Hfs; [eexists; reflexivity |].
    assert (Hne : fs0 :: fs' <> []) by discriminate.
    assert (Hcase : (rows = 0 \/ (2 <= rows /\ 2 <= cols /\ cols <> 9))%nat
                    \/ (rows = 1 \/ (2 <= rows /\ cols = 1))%nat) by lia.
    destruct Hcase as [Hv | Hi]; eauto.
  - intros [Hrows ->] Hfs Hfs1 Hmode Henv Halg.
    assert (Hshape' : shape waypoints = [rows; 9%nat]).
    { rewrite Hshape. unfold genfromtxt_shape.
      destruct rows as [| [| rows]]; [lia | lia | reflexivity]. }
    assert (Hnone : exists s0, Sim_init fs imu_ waypoints mode env None = inr s0).
    { unfold Sim_init. destruct fs as [| fs0 fs']; [contradiction |].
      rewrite Hshape'. unfold py_getitem. cbn [lookup list_lookup ebind].
      apply Nat.ltb_ge in Hrows. rewrite Hrows. cbn [ebind Nat.eqb negb].
      destruct (imu_gps imu_).
      - destruct fs' as [| fs1 fs'']; [cbn in Hfs1; specialize (Hfs1 eq_refl); lia |].
        cbn [lookup list_lookup ebind].
        destruct mode; [| | contradiction]; destruct env; [| | contradiction | |
          | contradiction]; cbn [ebind]; eauto.
      - cbn [ebind].
        destruct mode; [| | contradiction]; destruct env; [| | contradiction | |
          | contradiction]; cbn [ebind]; eauto. }
    destruct Hnone as [s0 Hnone]. destruct alg as [a |]; [| eauto].
    destruct Halg as (Hin & Hout & Hins & Houts).
    pose proof (Sim_init_algorithm fs imu_ waypoints mode env a) as Heq.
    rewrite Hnone in Heq. rewrite Heq. clear Heq.
    destruct (input a) as [| i0 ins] eqn:Hia; [contradiction |].
    destruct (output a) as [| o0 outs] eqn:Hoa; [contradiction |].
    cbn [length Nat.ltb Nat.leb orb].
    destruct (Sim_init_inr _ _ _ _ _ _ _ Hnone)
      as (fs0 & _ & _ & _ & _ & _ & Hsic & Hsiv & Hso & _).
    destruct (init_registry_data fs0 imu_) as (Dc & Dv & Do).
    rewrite Hsic, Hsiv, Hso, Dc, Dv, Do.
    destruct (parse_in_total (init_supported_in_constant new_attr imu_)
                (init_supported_in_varying new_attr imu_) (i0 :: ins) []) as [ie Hie].
    { intros n Hn. rewrite !str_in_true. apply Hins, Hn. }
    destruct (parse_out_total (init_supported_out (array := array) new_attr)
                (o0 :: outs) []) as [oe Hoe].
    { intros n Hn. rewrite str_in_true. apply Houts, Hn. }
    rewrite Hie, Hoe. eauto.
Qed.

(** X2.  An array of one dimension reaches line 162 without a second
    entry in its shape: with at least two entries the second test raises
    [IndexError], with fewer the first test raises the [ValueError]. *)
Theorem one_dimensional_table (fs : list (value array)) (imu_ : imu_cfg array)
    (waypoints : array) (mode env : pyarg array)
    (alg : option (algorithm array world)) (n : nat) :
  shape waypoints = [n] ->
  fs <> [] ->
  ((2 <= n)%nat -> Sim_init fs imu_ waypoints mode env alg = inl IndexError)
  /\ ((n < 2)%nat ->
      Sim_init fs imu_ waypoints mode env alg = inl (ValueError motion_msg)).
Proof.
  intros Hshape Hfs. destruct fs as [| fs0 fs']; [contradiction |].
  unfold Sim_init. rewrite Hshape. unfold py_getitem.
  cbn [lookup list_lookup ebind]. split; intros Hn.
  - apply Nat.ltb_ge in Hn. rewrite Hn. reflexivity.
  - apply Nat.ltb_lt in Hn. rewrite Hn. reflexivity.
Qed.

(** ** The vibration model *)

Lemma Sim_init_env (fs : list (value array)) (imu_ : imu_cfg array)
    (waypoints : array) (mode env env' : pyarg array)
    (alg : option (algorithm array world)) :
  env <> AOther -> env' <> AOther ->
  Sim_init fs imu_ waypoints mode env alg = Sim_init fs imu_ waypoints mode env' alg.
Proof.
  intros He He'. unfold Sim_init.
  destruct env; [| | contradiction]; destruct env'; [| | contradiction | |
    | contradiction]; reflexivity.
Qed.

Lemma Sim_init_inr_env (fs : list (value array)) (imu_ : imu_cfg array)
    (waypoints : array) (mode env : pyarg array)
    (alg : option (algorithm array world)) (s : Sim) :
  Sim_init fs imu_ waypoints mode env alg = inr s -> env <> AOther.
Proof.
  intros Hinit ->. unfold Sim_init in Hinit.
  destruct (py_getitem fs 0) as [e | fs0]; [discriminate |].
  cbn [ebind] in Hinit.
  destruct (py_getitem (shape waypoints) 0) as [e | rows]; [discriminate |].
  cbn [ebind] in Hinit.
  match type of Hinit with ebind ?x _ = _ => destruct x as [e | bad] end;
    [discriminate |].
  cbn [ebind] in Hinit. destruct bad; [discriminate |].
  match type of Hinit with ebind ?x _ = _ => destruct x as [e | od] end;
    [discriminate |].
  cbn [ebind] in Hinit.
  match type of Hinit with ebind ?x _ = _ => destruct x as [e | mob] end;
    [discriminate |].
  cbn [ebind] in Hinit. discriminate.
Qed.

Lemma gen_accel_without_vib (i : Z) (m : machine) :
  vib_def (self m) = None ->
  @gen_accel _ _ (without_vib E) i m = gen_accel i m.
Proof.
  intros Hvib. unfold gen_accel. rewrite !get_self_bind, Hvib. reflexivity.
Qed.

Lemma trial_without_vib (i : Z) (m : machine) :
  vib_def (self m) = None ->
  @trial _ _ (without_vib E) i m = trial i m.
Proof.
  intros Hvib. unfold trial. rewrite !(bind_eq (gen_accel i)).
  rewrite gen_accel_without_vib by exact Hvib. reflexivity.
Qed.

Lemma for_each_trial_without_vib (l : list Z) (m : machine) :
  vib_def (self m) = None ->
  for_each l (@trial _ _ (without_vib E)) m = for_each l trial m.
Proof.
  revert m. induction l as [| i l IH]; intros m Hvib; [reflexivity |].
  cbn [for_each]. rewrite !bind_eq, trial_without_vib by exact Hvib.
  destruct (trial i m) as [[e | []] m1] eqn:Hi; [reflexivity |].
  apply IH. rewrite <- Hvib.
  apply config_vib_def, (keeps_inv _ _ _ _ _ (trial_config i) Hi).
Qed.

Lemma run_without_vib (num_times : num) (m : machine) :
  vib_def (self m) = None ->
  @run _ _ (without_vib E) num_times m = run num_times m.
Proof.
  intros Hvib. unfold run.
  change (@gen_reference _ _ (without_vib E)) with gen_reference.
  rewrite !(bind_eq (set_count num_times)).
  destruct (set_count num_times m) as [[e | []] m1] eqn:Hc; [reflexivity |].
  rewrite !(bind_eq gen_reference).
  destruct (gen_reference m1) as [[e | []] m2] eqn:Hg; [reflexivity |].
  assert (Hvib2 : vib_def (self m2) = None).
  { rewrite <- Hvib.
    rewrite (config_vib_def _ _ (keeps_inv _ _ _ _ _ gen_reference_config Hg)).
    apply config_vib_def, (keeps_inv _ _ _ _ _ (set_count_config num_times) Hc). }
  rewrite !bind_eq. unfold simulate. rewrite !get_self_bind.
  rewrite for_each_trial_without_vib by exact Hvib2. reflexivity.
Qed.

(** C9.  The engine the constructor returns has no vibration model,
    whatever string or array [env] is, and the constructor does the same
    for any two such arguments.  In every state of that engine [run] is
    the [run] of an engine whose [acc_gen] is never given a vibration
    model: each trial calls [acc_gen] with [None]. *)
Theorem vib_def_is_always_None (fs : list (value array)) (imu_ : imu_cfg array)
    (waypoints : array) (mode env : pyarg array)
    (alg : option (algorithm array world)) (s : Sim) :
  Sim_init fs imu_ waypoints mode env alg = inr s ->
  vib_def s = None
  /\ (forall env', env' <> AOther ->
        Sim_init fs imu_ waypoints mode env' alg = inr s)
  /\ (forall (m : machine) (num_times : num),
        config (self m) = config s ->
        vib_def (self (snd (run num_times m))) = None
        /\ run num_times m = @run _ _ (without_vib E) num_times m
        /\ forall i, gen_accel i m =
             (call (acc_gen (data (attr (self m) Attr.fs))
                            (data (attr (self m) Attr.ref_accel))
                            (accel_err (imu (self m))) None)
                ≫= assign_item Attr.accel i) m).
Proof.
  intros Hinit.
  destruct (Sim_init_inr _ _ _ _ _ _ _ Hinit)
    as (fs0 & _ & _ & _ & _ & _ & _ & _ & _ & _ & _ & Hvib & _).
  split; [exact Hvib |]. split.
  - intros env' He'. rewrite <- Hinit. apply Sim_init_env; [exact He' |].
    apply (Sim_init_inr_env _ _ _ _ _ _ _ Hinit).
  - intros m num_times Hcfg.
    assert (Hm : vib_def (self m) = None)
      by (rewrite (config_vib_def _ _ Hcfg); exact Hvib).
    split; [| split].
    + rewrite <- Hm. apply config_vib_def, (run_config num_times m).
    + symmetry. apply run_without_vib, Hm.
    + intros i. unfold gen_accel. rewrite get_self_bind, Hm. reflexivity.
Qed.

(** ** The number of trials *)

Lemma py_int_lt_1 (n : num) :
  num_finite n -> num_lt_1 n -> exists z, py_int n = inr z /\ z < 1.
Proof.
  destruct n as [z | [s | s | | s p e]]; simpl; intros Hfin Hlt; try contradiction.
  - eauto.
  - exists 0. split; [reflexivity | lia].
  - eexists. split; [reflexivity |].
    destruct s.
    + assert (0 <= (if 0 <=? e then Z.pos p * 2 ^ e else Z.pos p / 2 ^ (- e))).
      { destruct (0 <=? e) eqn:He.
        - apply Z.leb_le in He. apply Z.mul_nonneg_nonneg; [lia |].
          apply Z.pow_nonneg. lia.
        - apply Z.leb_gt in He. apply Z.div_pos; [lia |].
          apply Z.pow_pos_nonneg; lia. }
      simpl. lia.
    + destruct (0 <=? e); [contradiction |]. simpl.
      rewrite Z.div_small by lia. lia.
Qed.

Lemma py_int_finite (n : num) : num_finite n -> exists z, py_int n = inr z.
Proof.
  destruct n as [z | [s | s | | s p e]]; simpl; intros Hfin; try contradiction; eauto.
Qed.

Lemma set_count_eq (n : num) (z : Z) (m : machine) :
  py_int n = inr z ->
  set_count n m = (inr tt, upd (set_sim_count (if z <? 1 then 1 else z)) m).
Proof.
  intros Hz. unfold set_count. rewrite Hz.
  unfold lift. rewrite bind_eq, modify_bind, get_self_bind.
  cbn [upd self set_sim_count sim_count].
  destruct (z <? 1); reflexivity.
Qed.

(** C4, as amended.  For a finite argument (an [int], or a [float] that
    is neither an infinity nor a NaN) lines 224 to 226 raise nothing and
    leave a trial count of at least one, the integer part of the argument
    or [1] if that is less; and for every finite argument less than one
    the count is [1] and [run] does what [run(1)] does. *)
Theorem run_clamps_small_counts (n : num) (m : machine) :
  num_finite n ->
  (exists z m',
     py_int n = inr z
     /\ set_count n m = (inr tt, m')
     /\ sim_count (self m') = Z.max 1 z
     /\ 1 <= sim_count (self m'))
  /\ (num_lt_1 n ->
      set_count n m = (inr tt, upd (set_sim_count 1) m)
      /\ set_count n m = set_count (NInt 1) m
      /\ run n m = run (NInt 1) m).
Proof.
  intros Hfin. split.
  - destruct (py_int_finite n Hfin) as [z Hz].
    exists z, (upd (set_sim_count (if z <? 1 then 1 else z)) m).
    split; [exact Hz |]. split; [apply set_count_eq, Hz |].
    cbn [upd self set_sim_count sim_count].
    destruct (z <? 1) eqn:Hlt; [apply Z.ltb_lt in Hlt | apply Z.ltb_ge in Hlt]; lia.
  - intros Hlt. destruct (py_int_lt_1 n Hfin Hlt) as (z & Hz & Hz1).
    assert (Hn : set_count n m = (inr tt, upd (set_sim_count 1) m)).
    { rewrite (set_count_eq n z m Hz).
      apply Z.ltb_lt in Hz1. rewrite Hz1. reflexivity. }
    assert (H1 : set_count (NInt 1) m = (inr tt, upd (set_sim_count 1) m)).
    { rewrite (set_count_eq (NInt 1) 1 m eq_refl). reflexivity. }
    split; [exact Hn |]. split; [congruence |].
    unfold run. rewrite !(bind_eq (set_count _)), Hn, H1. reflexivity.
Qed.

(** ** The keys of the dictionaries *)

(** C2, at a configuration with GPS.  The key under which line 138 stores
    the description of the GPS time base is the container itself: the
    name ['gps_time'] is a key of none of the three dictionaries, whereas
    ['ref_gps'] and ['gps'], stored under the names, are keys. *)
Theorem gps_time_key_is_the_container (fs : list (value array))
    (imu_ : imu_cfg array) (waypoints : array) (mode env : pyarg array)
    (alg : option (algorithm array world)) (s : Sim) :
  Sim_init fs imu_ waypoints mode env alg = inr s ->
  imu_gps imu_ = true ->
  supported_in_constant s !! KObj Attr.gps_time = Some "GPS sample time"
  /\ supported_in_constant s !! KStr "gps_time" = None
  /\ supported_in_varying s !! KStr "gps_time" = None
  /\ supported_out s !! KStr "gps_time" = None
  /\ supported_in_constant s !! KStr "ref_gps" = Some "true GPS pos/vel"
  /\ supported_in_varying s !! KStr "gps" = Some "GPS measurements".
Proof.
  intros Hinit Hgps.
  destruct (Sim_init_inr _ _ _ _ _ _ _ Hinit)
    as (fs0 & _ & _ & _ & _ & _ & Hsic & Hsiv & Hso & _).
  destruct (init_registry_data fs0 imu_) as (Dc & Dv & Do).
  rewrite Hsic, Hsiv, Hso, Dc, Dv, Do.
  unfold init_supported_in_constant, init_supported_in_varying. rewrite Hgps.
  destruct (imu_magnetometer imu_); repeat split; vm_compute; reflexivity.
Qed.

(** ** The indices of [plot] *)

Lemma printed_nil (m : machine) : printed [] m = m.
Proof. destruct m. unfold printed. simpl. rewrite app_nil_r. reflexivity. Qed.

Lemma printed_app (es1 es2 : list (event array)) (m : machine) :
  printed es2 (printed es1 m) = printed (es1 ++ es2) m.
Proof. unfold printed. simpl. rewrite app_assoc. reflexivity. Qed.

Lemma ints_of_cons (x : num) (l : list num) (vs : list Z) :
  ints_of (x :: l) = inr vs ->
  exists v vs', vs = v :: vs' /\ py_int x = inr v /\ ints_of l = inr vs'.
Proof.
  simpl. destruct (py_int x) as [e | v]; [discriminate |]. simpl.
  destruct (ints_of l) as [e | vs']; [discriminate |]. simpl.
  intros [= <-]. eauto.
Qed.

Lemma ints_of_NInt (zs : list Z) : ints_of (List.map NInt zs) = inr zs.
Proof. induction zs as [| z zs IH]; simpl; [| rewrite IH]; reflexivity. Qed.

(** The loop of lines 307 to 312 on a list that [int] accepts. *)
Lemma check_idx_ok (l : list num) (vs : list Z) (i : nat) (m : machine) :
  ints_of l = inr vs ->
  check_idx true i l m =
  (inr (vs, List.filter (fun v => negb (in_range (sim_count (self m)) v)) vs),
   printed (warnings (sim_count (self m)) i vs) m).
Proof.
  revert vs i m. induction l as [| x l IH]; intros vs i m Hvs.
  - injection Hvs as <-. simpl. rewrite printed_nil. reflexivity.
  - apply ints_of_cons in Hvs as (v & vs' & -> & Hv & Hvs').
    cbn [check_idx]. rewrite Hv. unfold lift at 1.
    rewrite bind_eq, ret_bind, get_self_bind.
    assert (Hbad : (sim_count (self m) <=? v) || (v <? 0)
                   = negb (in_range (sim_count (self m)) v)).
    { unfold in_range. destruct (sim_count (self m) <=? v) eqn:H1,
        (v <? 0) eqn:H2, (0 <=? v) eqn:H3, (v <? sim_count (self m)) eqn:H4;
        try reflexivity; lia. }
    rewrite Hbad. cbn [warnings List.filter].
    destruct (in_range (sim_count (self m)) v); cbn [negb].
    + rewrite ret_bind, bind_eq, (IH vs' (S i) m Hvs'). reflexivity.
    + rewrite bind_eq. unfold emit at 1. fold (printed [Print_idx i v (sim_count (self m))] m).
      rewrite bind_eq, (IH vs' (S i) _ Hvs'). cbn [printed self].
      rewrite printed_app. reflexivity.
Qed.

Lemma remove_invalid_cons_ne (v : Z) (invalid l : list Z) :
  Forall (fun x => x <> v) invalid ->
  remove_invalid invalid (v :: l) =
  ebind (remove_invalid invalid l) (fun r => inr (v :: r)).
Proof.
  revert l. induction invalid as [| x invalid IH]; intros l Hne; [reflexivity |].
  apply Forall_cons in Hne as [Hx Hne]. cbn [remove_invalid py_remove].
  destruct (decide (v = x)) as [-> | _]; [contradiction |].
  destruct (py_remove x l) as [e | l']; [reflexivity |].
  cbn [ebind]. apply IH, Hne.
Qed.

(** Lines 313 and 314 remove exactly the elements out of range, and never
    fail to find the element to remove. *)
Lemma remove_invalid_filter (count : Z) (vs : list Z) :
  remove_invalid (List.filter (fun v => negb (in_range count v)) vs) vs
  = inr (List.filter (in_range count) vs).
Proof.
  induction vs as [| v vs IH]; [reflexivity |].
  cbn [List.filter]. destruct (in_range count v) eqn:Hv; cbn [negb].
  - rewrite remove_invalid_cons_ne, IH; [reflexivity |].
    apply List.Forall_forall. intros x Hx ->.
    apply List.filter_In in Hx as [_ Hx]. rewrite Hv in Hx. discriminate.
  - cbn [remove_invalid py_remove]. destruct (decide (v = v)); [| contradiction].
    cbn [ebind]. exact IH.
Qed.

Lemma check_then_remove (l : list num) (vs : list Z) (m : machine) :
  ints_of l = inr vs ->
  (check_idx true 0 l ≫= fun '(vs, invalid) => lift (remove_invalid invalid vs)) m =
  (inr (List.filter (in_range (sim_count (self m))) vs),
   printed (warnings (sim_count (self m)) 0 vs) m).
Proof.
  intros Hvs. rewrite bind_eq, (check_idx_ok l vs 0 m Hvs).
  unfold lift. rewrite remove_invalid_filter. reflexivity.
Qed.

Lemma filter_range (count : Z) :
  List.filter (in_range count) (range count) = range count
  /\ forall i, warnings (array := array) count i (range count) = [].
Proof.
  assert (Hall : forall l, (forall v, v ∈ l -> in_range count v = true) ->
            List.filter (in_range count) l = l
            /\ forall i, warnings (array := array) count i l = []).
  { induction l as [| v l IH]; intros Hl; [split; reflexivity |].
    cbn [List.filter warnings]. rewrite (Hl v) by left.
    destruct IH as [IH1 IH2]; [intros x Hx; apply Hl; right; exact Hx |].
    rewrite IH1. split; [reflexivity |]. intros i. apply IH2. }
  apply Hall. intros v Hv. apply elem_of_range in Hv. unfold in_range.
  apply andb_true_intro. split; [apply Z.leb_le | apply Z.ltb_lt]; lia.
Qed.

(** Lines 299 to 314, for a selector that is no tuple and whose elements
    [int] accepts. *)
Lemma resolve_sim_idx_ok (sim_idx : option selector) (vs : list Z) (m : machine) :
  is_tuple sim_idx = false ->
  selected (sim_count (self m)) sim_idx = inr vs ->
  resolve_sim_idx sim_idx m =
  (inr (List.filter (in_range (sim_count (self m))) vs),
   printed (warnings (sim_count (self m)) 0 vs) m).
Proof.
  unfold resolve_sim_idx, selected.
  destruct sim_idx as [[n | l | l] |]; intros Htuple; [| | discriminate |];
    cbn [is_tuple negb].
  - destruct n as [z | f]; cbn [selector_list].
    + cbn [py_int ebind]. intros [= <-]. rewrite ret_bind.
      apply (check_then_remove [NInt z]). reflexivity.
    + destruct (py_int (NFloat f)) as [e | z] eqn:Hf; [discriminate |].
      cbn [ebind]. intros [= <-]. rewrite (bind_inr _ _ m m [NInt z]) by reflexivity.
      apply (check_then_remove [NInt z]). reflexivity.
  - intros Hl. cbn [selector_list]. rewrite ret_bind.
    apply check_then_remove, Hl.
  - intros [= <-]. cbn [selector_list].
    rewrite (bind_inr _ _ m m (List.map NInt (range (sim_count (self m)))))
      by reflexivity.
    apply (check_then_remove (List.map NInt (range (sim_count (self m))))).
    apply ints_of_NInt.
Qed.

Lemma warnings_spec (count : Z) (vs : list Z) (i : nat) (v : Z) (j : nat) :
  Print_idx (array := array) i v count ∈ warnings count j vs <->
  (j <= i)%nat /\ vs !! (i - j)%nat = Some v /\ in_range count v = false.
Proof.
  revert j. induction vs as [| x vs IH]; intros j; cbn [warnings].
  - split; [intros Hin; inversion Hin | intros (_ & Hl & _); discriminate].
  - rewrite elem_of_app, IH. split.
    + intros [Hx | (Hj & Hl & Hv)].
      * destruct (in_range count x) eqn:Hr; [inversion Hx |].
        apply list_elem_of_singleton in Hx. injection Hx as Hi Hx. subst.
        rewrite Nat.sub_diag. auto.
      * split; [lia |]. split; [| exact Hv].
        replace (i - j)%nat with (S (i - S j)) by lia. exact Hl.
    + intros (Hj & Hl & Hv). destruct (decide (i = j)) as [-> | Hne].
      * left. rewrite Nat.sub_diag in Hl. injection Hl as ->. rewrite Hv.
        apply list_elem_of_singleton. reflexivity.
      * right. split; [lia |]. split; [| exact Hv].
        replace (i - j)%nat with (S (i - S j)) in Hl by lia. exact Hl.
Qed.

(** ** What [plot] draws *)

Lemma drawn_Some (x : payload array) (y : value array) (lx ly : bool) :
  ndim y = Some 1%nat \/ ndim y = Some 2%nat ->
  lines_drawn x y lx ly = true ->
  drawn x (PVal y) lx ly = Some y.
Proof.
  intros Hy Hl. unfold drawn.
  rewrite bool_decide_eq_true_2 by exact Hy. rewrite Hl. reflexivity.
Qed.

Lemma drawn_None (x : payload array) (y : value array) (lx ly : bool) :
  ~ (ndim y = Some 1%nat \/ ndim y = Some 2%nat) \/ lines_drawn x y lx ly = false ->
  drawn x (PVal y) lx ly = None.
Proof.
  intros [Hy | Hl]; unfold drawn.
  - rewrite bool_decide_eq_false_2 by exact Hy. reflexivity.
  - rewrite Hl, andb_false_r. reflexivity.
Qed.

(** The figure of a [y] of one or two dimensions that matplotlib draws. *)
Lemma plot_in_one_figure_ok (x : payload array) (y : value array) (lx ly : bool)
    (title : string) (k : option Z) (g : string) (lg : option (list string))
    (m : machine) :
  ndim y = Some 1%nat \/ ndim y = Some 2%nat ->
  lines_drawn x y lx ly = true ->
  plot_in_one_figure x (PVal y) lx ly title k g lg m =
  (inr tt, printed [Figure title k; Lines x y lx ly lg (negb (String.eqb (lower g) "off"))] m).
Proof.
  intros Hy Hl. unfold plot_in_one_figure.
  rewrite bind_eq. cbn [emit]. rewrite (drawn_Some x y lx ly Hy Hl).
  unfold emit. unfold printed. cbn [self ext console].
  rewrite <- app_assoc. reflexivity.
Qed.

(** The figure of arrays that the [try] block does not draw: the shapes
    are printed and line 481 raises. *)
Lemma plot_in_one_figure_fails (x y : array) (lx ly : bool)
    (title : string) (k : option Z) (g : string) (lg : option (list string))
    (m : machine) :
  ~ (ndim (VArr y) = Some 1%nat \/ ndim (VArr y) = Some 2%nat)
  \/ lines_drawn (PVal (VArr x)) (VArr y) lx ly = false ->
  plot_in_one_figure (PVal (VArr x)) (PVal (VArr y)) lx ly title k g lg m =
  (inl (ValueError "Check input data y."),
   printed [Figure title k; Print_shape (shape x); Print_shape (shape y)] m).
Proof.
  intros Hbad. unfold plot_in_one_figure.
  rewrite bind_eq. cbn [emit]. rewrite (drawn_None _ _ _ _ Hbad).
  unfold mbind, M_bind, lift, emit, raise, printed.
  cbn [shape_of self ext console]. rewrite <- !app_assoc. reflexivity.
Qed.

(** [plot_dict] draws one figure for each key, in the order of the keys. *)
Lemma plot_dict_ok (a : Attr.t) (x : payload array) (keys : list Z)
    (d : gmap Z (value array)) (m : machine) :
  data (attr (self m) a) = PDict d ->
  (forall i, i ∈ keys -> exists v, d !! i = Some v
     /\ let y := match pre_func (attr (self m) a) with Some f => f v | None => v end in
        (ndim y = Some 1%nat \/ ndim y = Some 2%nat)
        /\ lines_drawn x y (logx (attr (self m) a)) (logy (attr (self m) a)) = true) ->
  plot_dict a x (Some keys) m =
  (inr tt, printed (figures (attr (self m) a) x d keys) m).
Proof.
  unfold plot_dict. revert m. induction keys as [| i keys IH]; intros m Hd Hall.
  - cbn [for_each figures List.flat_map]. rewrite printed_nil. reflexivity.
  - destruct (Hall i) as (v & Hv & Hy & Hl); [left |].
    cbn [for_each]. rewrite bind_eq, get_self_bind, Hd.
    unfold dict_getitem. rewrite Hv. unfold lift at 1. rewrite bind_eq.
    cbn [M_bind]. rewrite plot_in_one_figure_ok by assumption.
    rewrite IH; cbn [printed self].
    + rewrite printed_app. cbn [figures List.flat_map]. rewrite Hv. reflexivity.
    + exact Hd.
    + intros j Hj. apply Hall. right. exact Hj.
Qed.

Lemma Sim_data_plot_dict (a : Attr.t) (x : payload array) (keys : list Z)
    (d : gmap Z (value array)) (m : machine) :
  plottable (attr (self m) a) = true ->
  data (attr (self m) a) = PDict d ->
  Sim_data_plot a x (Some keys) m = plot_dict a x (Some keys) m.
Proof.
  intros Hp Hd. unfold Sim_data_plot. rewrite get_self_bind, Hp, Hd. reflexivity.
Qed.

Lemma plot_resolved (what : list string) (sim_idx : option selector)
    (vs : list Z) (m : machine) :
  is_tuple sim_idx = false ->
  selected (sim_count (self m)) sim_idx = inr vs ->
  plot what sim_idx m =
  (for_each what (plot_one (List.filter (in_range (sim_count (self m))) vs))
     ≫= fun _ => emit Show)
    (printed (warnings (sim_count (self m)) 0 vs) m).
Proof.
  intros Htuple Hsel. unfold plot.
  rewrite (bind_inr _ _ _ _ _ (resolve_sim_idx_ok sim_idx vs m Htuple Hsel)).
  reflexivity.
Qed.

Lemma filter_in_range (count : Z) (vs : list Z) (v : Z) :
  v ∈ List.filter (in_range count) vs <-> v ∈ vs /\ 0 <= v < count.
Proof.
  rewrite !list_elem_of_In, List.filter_In. unfold in_range.
  rewrite andb_true_iff, Z.leb_le, Z.ltb_lt. reflexivity.
Qed.


Lemma trunc_spec (p : positive) (e : Z) :
  e < 0 ->
  let t := Z.pos p / 2 ^ (- e) in
  0 <= t /\ t * 2 ^ (- e) <= Z.pos p < (t + 1) * 2 ^ (- e).
Proof.
  intros He t. assert (Hpow : 0 < 2 ^ (- e)) by (apply Z.pow_pos_nonneg; lia).
  split; [apply Z.div_pos; lia |].
  pose proof (Z.div_mod (Z.pos p) (2 ^ (- e)) ltac:(lia)) as Hdm.
  pose proof (Z.mod_pos_bound (Z.pos p) (2 ^ (- e)) Hpow) as Hm.
  unfold t. nia.
Qed.

(** C6, on a tuple.  The docstring of [plot] allows a tuple as selector.
    Line 308 assigns to its first item, which a tuple does not support:
    whatever the indices are, in range or not, [plot] raises [TypeError]
    before anything is printed or drawn. *)
Theorem plot_of_a_tuple_raises (what : list string) (x : num) (l : list num)
    (z : Z) (m : machine) :
  py_int x = inr z ->
  selector_list (Some (STuple (x :: l))) m = (inr (x :: l), m)
  /\ resolve_sim_idx (Some (STuple (x :: l))) m
     = (inl (TypeError "'tuple' object does not support item assignment"), m)
  /\ plot what (Some (STuple (x :: l))) m
     = (inl (TypeError "'tuple' object does not support item assignment"), m).
Proof.
  intros Hz.
  assert (Hres : resolve_sim_idx (Some (STuple (x :: l))) m
     = (inl (TypeError "'tuple' object does not support item assignment"), m)).
  { unfold resolve_sim_idx. cbn [selector_list is_tuple negb].
    rewrite ret_bind. cbn [check_idx]. rewrite Hz. reflexivity. }
  split; [reflexivity |]. split; [exact Hres |].
  unfold plot. rewrite (bind_inl _ _ _ _ _ Hres). reflexivity.
Qed.

(** C10.  A [float] given as selector is replaced by the list of its
    [int], and the elements of a list are replaced by their [int] before
    they are compared with the number of trials: whenever [int] accepts
    the values, the indices kept are the integer parts in range.  [int]
    of a finite [float] is its integer part, towards zero.  For 0.9 that
    is 0, so [plot] draws trial 0. *)
Theorem plot_truncates_float_indices (what : list string) (m : machine) :
  let count := sim_count (self m) in
  (forall f z, py_int (NFloat f) = inr z ->
     selector_list (Some (SNum (NFloat f))) m = (inr [NInt z], m))
  /\ (forall sim_idx zs,
        is_tuple sim_idx = false ->
        selected count sim_idx = inr zs ->
        resolve_sim_idx sim_idx m =
          (inr (List.filter (in_range count) zs), printed (warnings count 0 zs) m)
        /\ plot what sim_idx m =
           (for_each what (plot_one (List.filter (in_range count) zs))
              ≫= fun _ => emit Show) (printed (warnings count 0 zs) m))
  /\ (forall s p e,
        exists t, py_int (NFloat (S754_finite s p e)) = inr (cond_Zopp s t)
          /\ 0 <= t
          /\ (0 <= e -> t = Z.pos p * 2 ^ e)
          /\ (e < 0 -> t * 2 ^ (- e) <= Z.pos p < (t + 1) * 2 ^ (- e)))
  /\ py_int (NFloat float_0_9) = inr 0
  /\ (1 <= count ->
      resolve_sim_idx (Some (SNum (NFloat float_0_9))) m = (inr [0], m)
      /\ plot what (Some (SNum (NFloat float_0_9))) m =
         (for_each what (plot_one [0]) ≫= fun _ => emit Show) m).
Proof.
  intros count. split.
  { intros f z Hz. cbn [selector_list]. rewrite Hz. reflexivity. }
  split.
  { intros sim_idx zs Htuple Hzs.
    split; [apply resolve_sim_idx_ok | apply plot_resolved]; assumption. }
  split.
  { intros s p e. cbn [py_int]. eexists. split; [reflexivity |].
    destruct (0 <=? e) eqn:He.
    - apply Z.leb_le in He. split; [| split; [reflexivity | lia]].
      apply Z.mul_nonneg_nonneg; [lia | apply Z.pow_nonneg; lia].
    - apply Z.leb_gt in He. destruct (trunc_spec p e He) as [H0 Hb].
      split; [exact H0 |]. split; [lia | intros _; exact Hb]. }
  split; [reflexivity |].
  intros Hcount.
  assert (Hsel : selected count (Some (SNum (NFloat float_0_9))) = inr [0])
    by reflexivity.
  assert (Hin : in_range count 0 = true).
  { unfold in_range. apply andb_true_intro.
    split; [apply Z.leb_le | apply Z.ltb_lt]; lia. }
  pose proof (resolve_sim_idx_ok (Some (SNum (NFloat float_0_9))) _ m eq_refl Hsel)
    as Hres.
  pose proof (plot_resolved what (Some (SNum (NFloat float_0_9))) _ m eq_refl Hsel)
    as Hplot.
  fold count in Hres, Hplot. cbn [List.filter warnings] in Hres, Hplot.
  rewrite Hin in Hres, Hplot. cbn [app] in Hres, Hplot.
  rewrite printed_nil in Hres, Hplot. split; assumption.
Qed.

(** ** The outputs and the sensor data *)

Lemma out_name_attr (n : string) (a : Attr.t) :
  n ∈ out_names -> Attr.of_ident n = Some a ->
  a ∈ per_trial /\ a <> Attr.accel /\ a <> Attr.gyro /\ a <> Attr.gps /\ a <> Attr.mag.
Proof.
  unfold out_names. intros Hn.
  repeat (apply elem_of_cons in Hn as [-> | Hn]); [.. | inversion Hn];
    intros [= <-]; (split; [unfold per_trial; set_solver | repeat split; discriminate]).
Qed.

Lemma sensor_not_output (a b : Attr.t) (n : string) :
  a ∈ [Attr.accel; Attr.gyro; Attr.gps; Attr.mag] ->
  n ∈ out_names -> Attr.of_ident n = Some b -> b <> a.
Proof.
  intros Ha Hn Hb. destruct (out_name_attr n b Hn Hb) as (_ & H1 & H2 & H3 & H4).
  repeat (apply elem_of_cons in Ha as [-> | Ha]); [assumption .. | inversion Ha].
Qed.

Lemma keeps_ret_bind (R : machine -> machine -> Prop) {A B : Type} (a : A)
    (k : A -> M B) :
  keeps R (k a) -> keeps R (mret a ≫= k).
Proof. intros Hk m. apply Hk. Qed.

(** The assignment of the outputs leaves the sensor data alone. *)
Lemma assign_targets_sensor_slot (a : Attr.t) (i j : Z) (targets : list string)
    (vals : list (value array)) :
  (forall n, n ∈ targets -> n ∈ out_names) ->
  a ∈ [Attr.accel; Attr.gyro; Attr.gps; Attr.mag] ->
  keeps (same_slot a j) (assign_targets i targets vals).
Proof.
  intros Hall Ha. revert vals.
  induction targets as [| n targets IH]; intros [| v vals]; cbn [assign_targets];
    try apply (keeps_ret _).
  unfold getattr. destruct (Attr.of_ident n) as [b |] eqn:Hb.
  - apply keeps_ret_bind. keeps_step.
    + apply assign_item_slot. left.
      intros ->. eapply (sensor_not_output b b n); eauto. apply Hall. left.
    + apply IH. intros x Hx. apply Hall. right. exact Hx.
  - intros m. reflexivity.
Qed.

Lemma run_algo_sensor_slot (a : Attr.t) (i j : Z) (m : machine) :
  (forall n, n ∈ algo_out_expr (self m) -> n ∈ out_names) ->
  a ∈ [Attr.accel; Attr.gyro; Attr.gps; Attr.mag] ->
  same_slot a j m (snd (run_algo i m)).
Proof.
  intros Hall Ha. unfold run_algo. rewrite get_self_bind.
  destruct (algo (self m)) as [al |]; [| reflexivity].
  rewrite bind_eq.
  destruct (eval_in_expr i (algo_in_expr (self m)) m) as [[e | args] m1] eqn:H1.
  { apply (keeps_inv _ _ _ _ _ (eval_in_expr_keeps _ i _) H1). }
  pose proof (keeps_inv _ _ _ _ _ (eval_in_expr_keeps (same_slot a j) i _) H1) as S1.
  pose proof (keeps_inv _ _ _ _ _ (eval_in_expr_keeps same_config i _) H1) as C1.
  rewrite bind_eq.
  destruct (call (algo_run al args) m1) as [[e | []] m2] eqn:H2.
  { unfold same_slot in *. cbn [snd].
    rewrite (keeps_inv _ _ _ _ _ (keeps_call (same_slot a j) _) H2). exact S1. }
  pose proof (keeps_inv _ _ _ _ _ (keeps_call (same_slot a j) _) H2) as S2.
  pose proof (keeps_inv _ _ _ _ _ (keeps_call same_config _) H2) as C2.
  rewrite bind_eq.
  destruct (call (get_results al) m2) as [[e | vals] m3] eqn:H3.
  { unfold same_slot in *. cbn [snd].
    rewrite (keeps_inv _ _ _ _ _ (keeps_call (same_slot a j) _) H3). congruence. }
  pose proof (keeps_inv _ _ _ _ _ (keeps_call (same_slot a j) _) H3) as S3.
  pose proof (keeps_inv _ _ _ _ _ (keeps_call same_config _) H3) as C3.
  rewrite get_self_bind. unfold exec_out_expr.
  assert (Hout : algo_out_expr (self m3) = algo_out_expr (self m)).
  { unfold same_config in *. apply config_exprs. congruence. }
  unfold same_slot in *.
  destruct (decide _) as [_ | _]; [| cbn [raise snd]; congruence].
  rewrite (assign_targets_sensor_slot a i j (algo_out_expr (self m3)) vals) by
    (rewrite ?Hout; assumption).
  congruence.
Qed.

Lemma run_inr_inv (num_times : num) (m m' : machine) :
  run num_times m = (inr tt, m') ->
  exists m0 m1 m2,
    set_count num_times m = (inr tt, m0)
    /\ gen_reference m0 = (inr tt, m1)
    /\ simulate m1 = (inr tt, m2)
    /\ m' = upd (set_sim_complete true) m2.
Proof.
  unfold run. intros Hrun.
  apply bind_inv_inr in Hrun as ([] & m0 & H0 & Hrun).
  apply bind_inv_inr in Hrun as ([] & m1 & H1 & Hrun).
  apply bind_inv_inr in Hrun as ([] & m2 & H2 & Hrun).
  unfold modify in Hrun. injection Hrun as <-. exists m0, m1, m2. auto.
Qed.

Lemma set_count_ge_1 (num_times : num) (m m0 : machine) :
  set_count num_times m = (inr tt, m0) -> 1 <= sim_count (self m0).
Proof.
  destruct (py_int num_times) as [e | z] eqn:Hz.
  - unfold set_count. rewrite Hz. discriminate.
  - rewrite (set_count_eq _ _ m Hz). intros [= <-].
    cbn [upd self set_sim_count sim_count].
    destruct (z <? 1) eqn:Hlt; [lia | apply Z.ltb_ge in Hlt; lia].
Qed.

(** ** The arguments of the constructor *)

(** The engine is made from [fs[0]] and, with GPS, [fs[1]]. *)
Lemma Sim_init_fs (fs fs' : list (value array)) (imu_ : imu_cfg array)
    (waypoints : array) (mode env : pyarg array)
    (alg : option (algorithm array world)) :
  fs !! 0%nat = fs' !! 0%nat ->
  (imu_gps imu_ = true -> fs !! 1%nat = fs' !! 1%nat) ->
  Sim_init fs imu_ waypoints mode env alg = Sim_init fs' imu_ waypoints mode env alg.
Proof.
  intros H0 H1. unfold Sim_init, py_getitem. rewrite <- H0.
  destruct (fs !! 0%nat) as [fs0 |]; [| reflexivity]. cbn [ebind].
  destruct (imu_gps imu_); [| reflexivity].
  rewrite <- (H1 eq_refl). reflexivity.
Qed.

(** X3.  The sample rates: the constructor reads [fs[0]] and, only when
    GPS is enabled, [fs[1]]; it never reads [fs[2]].  Two lists that agree
    on these entries give the same result.  An empty list raises
    [IndexError] (line 57) whatever the other arguments are, and with GPS
    enabled a list of one entry raises [IndexError] (line 178) once the
    table has been accepted. *)
Theorem only_fs_0_and_fs_1_are_read (fs fs' : list (value array))
    (imu_ : imu_cfg array) (waypoints : array) (mode env : pyarg array)
    (alg : option (algorithm array world)) :
  (fs !! 0%nat = fs' !! 0%nat ->
   (imu_gps imu_ = true -> fs !! 1%nat = fs' !! 1%nat) ->
   Sim_init fs imu_ waypoints mode env alg
   = Sim_init fs' imu_ waypoints mode env alg)
  /\ Sim_init [] imu_ waypoints mode env alg = inl IndexError
  /\ (forall fs0 rows,
        imu_gps imu_ = true -> shape waypoints = [rows; 9%nat] -> (2 <= rows)%nat ->
        Sim_init [fs0] imu_ waypoints mode env alg = inl IndexError)
  /\ (forall fs0 rest,
        imu_gps imu_ = false ->
        Sim_init (fs0 :: rest) imu_ waypoints mode env alg
        = Sim_init [fs0] imu_ waypoints mode env alg).
Proof.
  split; [apply Sim_init_fs |]. split; [reflexivity |]. split.
  - intros fs0 rows Hgps Hshape Hrows. unfold Sim_init, py_getitem.
    rewrite Hshape, Hgps. cbn [lookup list_lookup ebind].
    apply Nat.ltb_ge in Hrows. rewrite Hrows. reflexivity.
  - intros fs0 rest Hgps. apply Sim_init_fs; [reflexivity |].
    rewrite Hgps. discriminate.
Qed.

(** X4.  With a table of nine columns and at least two rows and the
    sample rates the code reads, a [mode] that is neither a string nor an
    array raises the [TypeError] of line 188, whatever [env] and the
    algorithm are; with an accepted [mode], an [env] that is neither
    raises the [TypeError] of line 196, whatever the algorithm is. *)
Theorem mode_and_env_are_type_checked (fs : list (value array))
    (imu_ : imu_cfg array) (waypoints : array) (mode env : pyarg array)
    (alg : option (algorithm array world)) (rows : nat) :
  fs <> [] ->
  (imu_gps imu_ = true -> (2 <= length fs)%nat) ->
  shape waypoints = [rows; 9%nat] -> (2 <= rows)%nat ->
  (mode = AOther ->
     Sim_init fs imu_ waypoints mode env alg
     = inl (TypeError "mode should be a string or a numpy array of size (3,)"))
  /\ (mode <> AOther -> env = AOther ->
      Sim_init fs imu_ waypoints mode env alg
      = inl (TypeError "env should be a string or a numpy array of size (n,2)")).
Proof.
  intros Hfs Hfs1 Hshape Hrows.
  destruct fs as [| fs0 fs']; [contradiction |].
  apply Nat.ltb_ge in Hrows.
  assert (Hod : exists od,
    (if imu_gps imu_
     then ebind (py_getitem (fs0 :: fs') 1) (fun fs1 =>
            inr [(1, data (init_attr fs0 Attr.fs)); (1, PVal fs1)])
     else inr [(1, data (init_attr fs0 Attr.fs)); (-1, data (init_attr fs0 Attr.fs))])
    = inr od).
  { destruct (imu_gps imu_); [| eauto].
    destruct fs' as [| fs1 fs'']; [cbn in Hfs1; specialize (Hfs1 eq_refl); lia |].
    eexists. reflexivity. }
  destruct Hod as [od Hod].
  split; intros Hmode; [| intros Henv];
    unfold Sim_init; rewrite Hshape; unfold py_getitem at 1 2 3;
    cbn [lookup list_lookup ebind]; rewrite Hrows; cbn [ebind Nat.eqb negb];
    rewrite Hod; cbn [ebind].
  - rewrite Hmode. reflexivity.
  - rewrite Henv. destruct mode; [| | contradiction]; reflexivity.
Qed.

(** ** The check of the algorithm *)

Lemma parse_in_spec (sic siv : gmap key string) (names : list string)
    (acc : list in_term) :
  parse_in sic siv names acc =
  if forallb (fun n => str_in n sic || str_in n siv) names
  then Some (acc ++ List.map (in_term_of sic) names)%list
  else None.
Proof.
  revert acc. induction names as [| n names IH]; intros acc; cbn [parse_in forallb List.map].
  - rewrite app_nil_r. reflexivity.
  - unfold in_term_of at 1. destruct (str_in n sic) eqn:Hc; cbn [orb andb].
    + rewrite IH, <- app_assoc. reflexivity.
    + destruct (str_in n siv) eqn:Hv; cbn [andb]; [| reflexivity].
      rewrite IH, <- app_assoc. reflexivity.
Qed.

Lemma parse_out_spec (so : gmap key string) (names acc : list string) :
  parse_out so names acc =
  if forallb (fun n => str_in n so) names then Some (acc ++ names)%list else None.
Proof.
  revert acc. induction names as [| n names IH]; intros acc; cbn [parse_out forallb].
  - rewrite app_nil_r. reflexivity.
  - destruct (str_in n so); cbn [andb]; [| reflexivity].
    rewrite IH, <- app_assoc. reflexivity.
Qed.

Lemma forallb_elem_of {A : Type} (f : A -> bool) (l : list A) :
  forallb f l = true <-> forall x, x ∈ l -> f x = true.
Proof.
  rewrite forallb_forall. split; intros Hall x Hx; apply Hall, list_elem_of_In, Hx.
Qed.

(** X5.  The check of lines 203 to 216, for arguments the constructor
    accepts without an algorithm (the engine [s0]).  With an algorithm
    [a] it returns an engine exactly when [a] declares at least one input
    and one output, every input is a key of one of the two dictionaries
    of inputs and every output a key of [supported_out]; otherwise it
    raises the [ValueError] of line 214.  The engine returned has the
    containers and the dictionaries of [s0]; [algo_out_expr] lists the
    outputs in the order declared, [algo_in_expr] the inputs in the order
    declared, an input of [supported_in_constant] as ['self.<i>.data'] and
    any other as ['self.<i>.data[NO_OF_SIM]']. *)
Theorem algorithm_check (fs : list (value array)) (imu_ : imu_cfg array)
    (waypoints : array) (mode env : pyarg array) (a : algorithm array world)
    (s0 : Sim) :
  Sim_init fs imu_ waypoints mode env None = inr s0 ->
  let accepted :=
    input a <> [] /\ output a <> []
    /\ (forall n, n ∈ input a ->
          is_Some (supported_in_constant s0 !! KStr n)
          \/ is_Some (supported_in_varying s0 !! KStr n))
    /\ (forall n, n ∈ output a -> is_Some (supported_out s0 !! KStr n)) in
  (accepted ->
     exists s,
       Sim_init fs imu_ waypoints mode env (Some a) = inr s
       /\ algo s = Some a
       /\ algo_in_expr s = List.map (in_term_of (supported_in_constant s0)) (input a)
       /\ algo_out_expr s = output a
       /\ attr s = attr s0
       /\ supported_in_constant s = supported_in_constant s0
       /\ supported_in_varying s = supported_in_varying s0
       /\ supported_out s = supported_out s0)
  /\ (~ accepted ->
      Sim_init fs imu_ waypoints mode env (Some a) = inl (ValueError check_msg)).
Proof.
  intros Hnone accepted.
  pose proof (Sim_init_algorithm fs imu_ waypoints mode env a) as Heq.
  rewrite Hnone in Heq. rewrite Heq. clear Heq.
  rewrite parse_in_spec, parse_out_spec.
  split.
  - intros (Hin & Hout & Hins & Houts).
    destruct (input a) as [| i0 ins] eqn:Hia; [contradiction |].
    destruct (output a) as [| o0 outs] eqn:Hoa; [contradiction |].
    cbn [length Nat.ltb Nat.leb orb].
    rewrite (proj2 (forallb_elem_of _ (i0 :: ins))).
    2:{ intros n Hn. apply orb_true_iff. rewrite !str_in_true. apply Hins, Hn. }
    rewrite (proj2 (forallb_elem_of _ (o0 :: outs))).
    2:{ intros n Hn. rewrite str_in_true. apply Houts, Hn. }
    eexists. split; [reflexivity |]. cbn. repeat split; reflexivity.
  - intros Hno.
    destruct ((length (input a) <? 1)%nat || (length (output a) <? 1)%nat) eqn:Hlen;
      [reflexivity |].
    apply orb_false_iff in Hlen as [Hli Hlo].
    apply Nat.ltb_ge in Hli, Hlo.
    destruct (forallb _ (input a)) eqn:Hfi; [| reflexivity].
    destruct (forallb _ (output a)) eqn:Hfo; [| reflexivity].
    exfalso. apply Hno. unfold accepted. split; [| split; [| split]].
    + intros Hnil. rewrite Hnil in Hli. cbn in Hli. lia.
    + intros Hnil. rewrite Hnil in Hlo. cbn in Hlo. lia.
    + intros n Hn. rewrite <- !str_in_true. apply orb_true_iff.
      apply (proj1 (forallb_elem_of _ _) Hfi n Hn).
    + intros n Hn. rewrite <- str_in_true.
      apply (proj1 (forallb_elem_of _ _) Hfo n Hn).
Qed.

(** ** The names of the containers *)

Lemma init_attr_props (fs0 : value array) (a : Attr.t) :
  props (init_attr fs0 a) = props (new_attr a).
Proof. destruct a; reflexivity. Qed.

Lemma new_attr_name (a : Attr.t) : name (new_attr (array := array) a) = Attr.ident a.
Proof. destruct a; reflexivity. Qed.

Lemma props_name (c c' : Sim_data array) : props c = props c' -> name c = name c'.
Proof. unfold props. intros [= ]. assumption. Qed.

Lemma init_attr_dicts (fs0 : value array) (a : Attr.t) :
  a ∈ per_trial -> data (init_attr fs0 a) = PDict ∅.
Proof.
  unfold per_trial. intros Ha.
  repeat (apply elem_of_cons in Ha as [-> | Ha]); [.. | inversion Ha]; reflexivity.
Qed.

Lemma supported_in_constant_keys (imu_ : imu_cfg array) (k : key) :
  is_Some (init_supported_in_constant new_attr imu_ !! k) ->
  k = KObj Attr.gps_time
  \/ exists n, k = KStr n
       /\ n ∈ ["fs"; "ref_frame"; "ref_pos"; "ref_vel"; "ref_att"; "ref_gyro";
               "ref_accel"; "ref_gps"; "ref_mag"].
Proof.
  unfold init_supported_in_constant.
  destruct (imu_gps imu_), (imu_magnetometer imu_);
    rewrite !lookup_insert_is_Some', lookup_empty;
    intros Hk; repeat destruct Hk as [<- | Hk];
    try (left; reflexivity);
    try (right; eexists; split; [reflexivity |]; apply list_elem_of_In; vm_compute; tauto);
    destruct Hk as [x Hx]; discriminate.
Qed.

(** X6.  In the engine the constructor returns, every name that is a key
    of one of the three dictionaries of supported data is the identifier
    of an attribute of the engine: ['self.' + name] is the container whose
    [name] is that string, and the dictionary holds its description.  A
    name of [supported_in_varying] or [supported_out] is a container that
    [run] fills by trial and that starts as the empty dict. *)
Theorem supported_names_are_attributes (fs : list (value array))
    (imu_ : imu_cfg array) (waypoints : array) (mode env : pyarg array)
    (alg : option (algorithm array world)) (s : Sim) (n d : string) :
  Sim_init fs imu_ waypoints mode env alg = inr s ->
  supported_in_constant s !! KStr n = Some d
  \/ supported_in_varying s !! KStr n = Some d
  \/ supported_out s !! KStr n = Some d ->
  exists a,
    Attr.of_ident n = Some a
    /\ (forall m : machine, getattr n m = (inr a, m))
    /\ name (attr s a) = n
    /\ description (attr s a) = d
    /\ (supported_in_constant s !! KStr n = None ->
        a ∈ per_trial /\ data (attr s a) = PDict ∅).
Proof.
  intros Hinit Hkey.
  destruct (Sim_init_inr _ _ _ _ _ _ _ Hinit)
    as (fs0 & _ & _ & _ & _ & Hattr & Hsic & Hsiv & Hso & _).
  destruct (init_registry_data fs0 imu_) as (Dc & Dv & Do).
  rewrite Dc in Hsic. rewrite Dv in Hsiv. rewrite Do in Hso.
  rewrite Hsic, Hsiv, Hso in Hkey. rewrite Hsic, Hattr.
  assert (Hcase :
    (n ∈ ["fs"; "ref_frame"; "ref_pos"; "ref_vel"; "ref_att"; "ref_gyro";
          "ref_accel"; "ref_gps"; "ref_mag"]
     /\ init_supported_in_constant new_attr imu_ !! KStr n = Some d)
    \/ (n ∈ ["gyro"; "accel"; "gps"; "mag"]
        /\ init_supported_in_varying new_attr imu_ !! KStr n = Some d)
    \/ (n ∈ out_names /\ init_supported_out (array := array) new_attr !! KStr n = Some d)).
  { destruct Hkey as [Hc | [Hv | Ho]].
    - left. split; [| exact Hc].
      destruct (supported_in_constant_keys imu_ (KStr n)) as [Hobj | (n' & Heq & Hn')];
        [eauto | discriminate |]. injection Heq as <-. exact Hn'.
    - right. left. split; [| exact Hv].
      destruct (supported_in_varying_keys imu_ (KStr n)) as (n' & Heq & Hn'); [eauto |].
      injection Heq as <-. exact Hn'.
    - right. right. split; [| exact Ho].
      destruct (supported_out_keys (KStr n)) as (n' & Heq & Hn'); [eauto |].
      injection Heq as <-. exact Hn'. }
  clear Hkey.
  destruct Hcase as [[Hn Hd] | [[Hn Hd] | [Hn Hd]]].
  - repeat (apply elem_of_cons in Hn as [-> | Hn]); [.. | inversion Hn];
      (eexists; split; [reflexivity |]; split; [reflexivity |]; split; [reflexivity |];
       split; [| rewrite Hd; discriminate]);
      revert Hd; unfold init_supported_in_constant;
      destruct (imu_gps imu_), (imu_magnetometer imu_); vm_compute; congruence.
  - repeat (apply elem_of_cons in Hn as [-> | Hn]); [.. | inversion Hn];
      (eexists; split; [reflexivity |]; split; [reflexivity |]; split; [reflexivity |];
       split; [| intros _; split; [unfold per_trial; set_solver | reflexivity]]);
      revert Hd; unfold init_supported_in_varying;
      destruct (imu_gps imu_), (imu_magnetometer imu_); vm_compute; congruence.
  - unfold out_names in Hn.
    repeat (apply elem_of_cons in Hn as [-> | Hn]); [.. | inversion Hn];
      (eexists; split; [reflexivity |]; split; [reflexivity |]; split; [reflexivity |];
       split; [| intros _; split; [unfold per_trial; set_solver | reflexivity]]);
      revert Hd; vm_compute; congruence.
Qed.

(** ** What [run] writes *)

#[local] Abbreviation same_props := (@same_props array world).
#[local] Abbreviation same_engine := (@same_engine array world).
#[local] Abbreviation same_results := (@same_results array world).
#[local] Abbreviation same_data := (@same_data array world).
#[local] Abbreviation same_but_results := (@same_but_results array world).
#[local] Abbreviation dicts_stay := (@dicts_stay array world).
#[local] Abbreviation holds_val := (@holds_val array world).

#[local] Instance same_props_frame : Frame same_props.
Proof.
  unfold same_props. split; intros; simpl; congruence.
Qed.

#[local] Instance same_engine_frame : Frame same_engine.
Proof.
  unfold same_engine. split; intros; simpl; congruence.
Qed.

#[local] Instance same_results_frame : Frame same_results.
Proof.
  unfold same_results. split; intros; simpl; intuition congruence.
Qed.

#[local] Instance same_data_frame (a : Attr.t) : Frame (same_data a).
Proof.
  unfold same_data. split; intros; simpl; congruence.
Qed.

#[local] Instance same_but_results_frame : Frame same_but_results.
Proof.
  unfold same_but_results. split; intros; simpl; intuition congruence.
Qed.

#[local] Instance dicts_stay_frame : Frame dicts_stay.
Proof.
  unfold dicts_stay. split; intros; simpl; auto.
Qed.

#[local] Instance holds_val_frame (a : Attr.t) (x : value array) :
  Frame (holds_val a x).
Proof.
  unfold holds_val. split; intros; simpl; auto.
Qed.

Lemma data_attr_set_data (f : Attr.t -> Sim_data array) (a b : Attr.t)
    (p : payload array) :
  data (attr_set_data a p f b) = if decide (b = a) then p else data (f b).
Proof.
  unfold attr_set_data. destruct (decide (b = a)); reflexivity.
Qed.

Lemma props_attr_set_data (f : Attr.t -> Sim_data array) (a b : Attr.t)
    (p : payload array) :
  props (attr_set_data a p f b) = props (f b).
Proof.
  unfold attr_set_data. destruct (decide (b = a)); reflexivity.
Qed.

Lemma assign_data_data (a b : Attr.t) (p : payload array) :
  b <> a -> keeps (same_data b) (assign_data a p).
Proof.
  intros Hne m. unfold same_data, assign_data, modify. simpl.
  rewrite data_attr_set_data. destruct (decide (b = a)); [contradiction | reflexivity].
Qed.

Lemma assign_item_data (a b : Attr.t) (i : Z) (v : value array) :
  b <> a -> keeps (same_data b) (assign_item a i v).
Proof.
  intros Hne m. rewrite assign_item_eq.
  destruct (data (attr (self m) a)); [apply assign_data_data, Hne | reflexivity].
Qed.

Lemma assign_data_props (a : Attr.t) (p : payload array) :
  keeps same_props (assign_data a p).
Proof. intros m b. apply props_attr_set_data. Qed.

Lemma assign_item_props (a : Attr.t) (i : Z) (v : value array) :
  keeps same_props (assign_item a i v).
Proof.
  intros m. rewrite assign_item_eq.
  destruct (data (attr (self m) a)); [apply assign_data_props | intros b; reflexivity].
Qed.

Lemma assign_data_results (a : Attr.t) (p : payload array) :
  keeps same_results (assign_data a p).
Proof. intros m. split; reflexivity. Qed.

Lemma assign_item_results (a : Attr.t) (i : Z) (v : value array) :
  keeps same_results (assign_item a i v).
Proof.
  intros m. rewrite assign_item_eq.
  destruct (data (attr (self m) a)); split; reflexivity.
Qed.

Lemma assign_data_dicts (a : Attr.t) (p : payload array) :
  a ∉ per_trial -> keeps dicts_stay (assign_data a p).
Proof.
  intros Ha m Hd b Hb. unfold assign_data, modify. simpl.
  rewrite data_attr_set_data. destruct (decide (b = a)) as [-> | _]; [contradiction |].
  apply Hd, Hb.
Qed.

Lemma assign_item_dicts (a : Attr.t) (i : Z) (v : value array) :
  keeps dicts_stay (assign_item a i v).
Proof.
  intros m Hd b Hb. rewrite assign_item_eq.
  destruct (data (attr (self m) a)) as [d | w] eqn:Ha; [| apply Hd, Hb].
  unfold assign_data, modify. simpl. rewrite data_attr_set_data.
  destruct (decide (b = a)) as [-> | _]; [eauto | apply Hd, Hb].
Qed.

Lemma assign_item_val (a b : Attr.t) (i : Z) (v x : value array) :
  keeps (holds_val b x) (assign_item a i v).
Proof.
  intros m Hx. rewrite assign_item_eq.
  destruct (data (attr (self m) a)) as [d | w] eqn:Ha; [| exact Hx].
  unfold assign_data, modify. simpl. rewrite data_attr_set_data.
  destruct (decide (b = a)) as [-> | _]; [congruence | exact Hx].
Qed.

(** [run] leaves the properties of the containers and the two
    dictionaries of [results] as they are, and the per-trial containers
    go on holding a dict. *)
Lemma run_props (num_times : num) : keeps same_props (run num_times).
Proof.
  apply run_keeps; [exact _ | | | |]; intros.
  - intros m c. reflexivity.
  - intros m c. reflexivity.
  - apply assign_data_props.
  - apply assign_item_props.
Qed.

Lemma run_results (num_times : num) : keeps same_results (run num_times).
Proof.
  apply run_keeps; [exact _ | | | |]; intros.
  - intros m. split; reflexivity.
  - intros m. split; reflexivity.
  - apply assign_data_results.
  - apply assign_item_results.
Qed.

Lemma run_dicts (num_times : num) : keeps dicts_stay (run num_times).
Proof.
  apply run_keeps; [exact _ | | | |]; intros.
  - intros m Hd. exact Hd.
  - intros m Hd. exact Hd.
  - apply assign_data_dicts. assumption.
  - apply assign_item_dicts.
Qed.

(** *** In the states of one engine *)

Section Keeps_in.

Context (s0 : Sim) (R : machine -> machine -> Prop) `{!Frame R}.

Lemma keeps_in_keeps {A : Type} (c : M A) : keeps R c -> keeps_in s0 R c.
Proof. intros Hc m _. apply Hc. Qed.

Lemma keeps_in_bind {A B : Type} (c : M A) (k : A -> M B) :
  keeps_in s0 R c -> keeps same_config c -> (forall a, keeps_in s0 R (k a)) ->
  keeps_in s0 R (c ≫= k).
Proof.
  intros Hc Hcfg Hk m Hm. rewrite bind_eq. specialize (Hc m Hm).
  specialize (Hcfg m). unfold same_config in Hcfg.
  destruct (c m) as [[e | a] m1]; simpl in *; [exact Hc |].
  eapply frame_trans; [exact Hc | apply Hk; congruence].
Qed.

Lemma keeps_in_get_self {B : Type} (k : Sim -> M B) :
  (forall s, config s = config s0 -> keeps_in s0 R (k s)) ->
  keeps_in s0 R (get_self ≫= k).
Proof. intros Hk m Hm. rewrite get_self_bind. apply Hk; exact Hm. Qed.

Lemma keeps_in_for_each {A : Type} (l : list A) (body : A -> M unit) :
  (forall x, x ∈ l -> keeps_in s0 R (body x)) ->
  (forall x, keeps same_config (body x)) ->
  keeps_in s0 R (for_each l body).
Proof.
  intros Hb Hcfg. induction l as [| x l IH]; simpl.
  - apply keeps_in_keeps, (keeps_ret _).
  - apply keeps_in_bind; [apply Hb; left | apply Hcfg | intros _; apply IH].
    intros y Hy. apply Hb. right. exact Hy.
Qed.

Lemma config_eq_imu (s : Sim) : config s = config s0 -> imu s = imu s0.
Proof. apply config_imu. Qed.

Lemma gen_gps_in (i : Z) :
  (imu_gps (imu s0) = true -> forall v, keeps R (assign_item Attr.gps i v)) ->
  keeps_in s0 R (gen_gps i).
Proof.
  intros Hi. unfold gen_gps. apply keeps_in_get_self. intros s Hs.
  rewrite (config_imu _ _ Hs).
  destruct (imu_gps (imu s0)); apply keeps_in_keeps; keeps_auto.
Qed.

Lemma gen_mag_in (i : Z) :
  (imu_magnetometer (imu s0) = true -> forall v, keeps R (assign_item Attr.mag i v)) ->
  keeps_in s0 R (gen_mag i).
Proof.
  intros Hi. unfold gen_mag. apply keeps_in_get_self. intros s Hs.
  rewrite (config_imu _ _ Hs).
  destruct (imu_magnetometer (imu s0)); apply keeps_in_keeps; keeps_auto.
Qed.

Lemma assign_targets_in (i : Z) (targets : list string) (vals : list (value array)) :
  (forall n b v, n ∈ targets -> Attr.of_ident n = Some b ->
                 keeps R (assign_item b i v)) ->
  keeps R (assign_targets i targets vals).
Proof.
  revert vals. induction targets as [| n targets IH]; intros [| v vals] Hall;
    cbn [assign_targets]; try apply (keeps_ret _).
  unfold getattr. destruct (Attr.of_ident n) as [b |] eqn:Hb.
  - apply keeps_ret_bind. keeps_step.
    + apply (Hall n); [left | exact Hb].
    + apply IH. intros x c w Hx. apply Hall. right. exact Hx.
  - intros m. apply frame_refl.
Qed.

Lemma run_algo_in (i : Z) :
  (forall n b v, n ∈ algo_out_expr s0 -> Attr.of_ident n = Some b ->
                 keeps R (assign_item b i v)) ->
  keeps_in s0 R (run_algo i).
Proof.
  intros Hall. unfold run_algo. apply keeps_in_get_self. intros s Hs.
  destruct (algo s) as [al |]; [| apply keeps_in_keeps, (keeps_ret _)].
  apply keeps_in_bind;
    [apply keeps_in_keeps, (eval_in_expr_keeps _) | apply (eval_in_expr_keeps _) |].
  intros args.
  apply keeps_in_bind; [apply keeps_in_keeps, (keeps_call _) | apply (keeps_call _) |].
  intros [].
  apply keeps_in_bind; [apply keeps_in_keeps, (keeps_call _) | apply (keeps_call _) |].
  intros vals. apply keeps_in_get_self. intros s' Hs'.
  destruct (config_exprs _ _ Hs') as [_ ->].
  unfold exec_out_expr. destruct (decide _); apply keeps_in_keeps;
    [apply assign_targets_in, Hall | apply (keeps_raise _)].
Qed.

Lemma gen_accel_config (i : Z) : keeps same_config (gen_accel i).
Proof. apply (gen_accel_keeps _). intros; apply assign_item_config. Qed.

Lemma gen_gyro_config (i : Z) : keeps same_config (gen_gyro i).
Proof. apply (gen_gyro_keeps _). intros; apply assign_item_config. Qed.

Lemma gen_gps_config (i : Z) : keeps same_config (gen_gps i).
Proof. apply (gen_gps_keeps _). intros; apply assign_item_config. Qed.

Lemma gen_mag_config (i : Z) : keeps same_config (gen_mag i).
Proof. apply (gen_mag_keeps _). intros; apply assign_item_config. Qed.

Lemma written_sensors :
  Attr.accel ∈ written s0 /\ Attr.gyro ∈ written s0
  /\ (imu_gps (imu s0) = true -> Attr.gps ∈ written s0)
  /\ (imu_magnetometer (imu s0) = true -> Attr.mag ∈ written s0).
Proof.
  unfold written. rewrite !elem_of_app. repeat split.
  - right. left. left.
  - right. left. right. left.
  - intros ->. right. right. left. left.
  - intros ->. right. right. right. left. left.
Qed.

Lemma written_targets (n : string) (b : Attr.t) :
  n ∈ algo_out_expr s0 -> Attr.of_ident n = Some b -> b ∈ written s0.
Proof.
  intros Hn Hb. unfold written. rewrite !elem_of_app. right. right. right. right.
  apply list_elem_of_omap. exists n. split; assumption.
Qed.

Lemma written_refs (a : Attr.t) (k ix : string) :
  (a, k, ix) ∈ ref_slices (imu_gps (imu s0)) (imu_magnetometer (imu s0)) ->
  a ∈ written s0.
Proof.
  intros Ha. unfold written. rewrite elem_of_app. left.
  apply list_elem_of_fmap. exists (a, k, ix). split; [reflexivity | exact Ha].
Qed.

Lemma trial_in (i : Z) :
  (forall b v, b ∈ written s0 -> keeps R (assign_item b i v)) ->
  keeps_in s0 R (trial i).
Proof.
  intros Hall. unfold trial.
  destruct written_sensors as (Wa & Wy & Wp & Wm).
  apply keeps_in_bind; [| apply gen_accel_config |]; [| intros _].
  { apply keeps_in_keeps, (gen_accel_keeps _). intros v. apply Hall, Wa. }
  apply keeps_in_bind; [| apply gen_gyro_config |]; [| intros _].
  { apply keeps_in_keeps, (gen_gyro_keeps _). intros v. apply Hall, Wy. }
  apply keeps_in_bind; [| apply gen_gps_config |]; [| intros _].
  { apply gen_gps_in. intros Hgps v. apply Hall, Wp, Hgps. }
  apply keeps_in_bind; [| apply gen_mag_config |]; [| intros _].
  { apply gen_mag_in. intros Hmag v. apply Hall, Wm, Hmag. }
  apply run_algo_in. intros n b v Hn Hb. apply Hall. eapply written_targets; eauto.
Qed.

Lemma simulate_in :
  (forall b i v, b ∈ written s0 -> keeps R (assign_item b i v)) ->
  keeps_in s0 R simulate.
Proof.
  intros Hall. unfold simulate. apply keeps_in_get_self. intros s _.
  apply keeps_in_for_each; [| intros i; apply trial_config].
  intros i _. apply trial_in. intros b v. apply Hall.
Qed.

Lemma save_ref_config (a : Attr.t) (rtn : gmap string array) (k ix : string) :
  keeps same_config (save_ref a rtn k ix).
Proof. apply (save_ref_keeps _). intros; apply assign_data_config. Qed.

Lemma ref_slices_not_per_trial (g mg : bool) (a : Attr.t) (k ix : string) :
  (a, k, ix) ∈ ref_slices g mg -> a ∉ per_trial.
Proof.
  unfold per_trial. intros Ha Hper. apply list_elem_of_In in Ha, Hper.
  destruct g, mg; cbn in Ha, Hper; intuition congruence.
Qed.

Lemma save_ref_in (a : Attr.t) (rtn : gmap string array) (k ix : string) :
  (a, k, ix) ∈ ref_slices (imu_gps (imu s0)) (imu_magnetometer (imu s0)) ->
  (forall b p, b ∈ written s0 -> b ∉ per_trial -> keeps R (assign_data b p)) ->
  keeps_in s0 R (save_ref a rtn k ix).
Proof.
  intros Ha Hall. apply keeps_in_keeps, (save_ref_keeps _). intros p.
  apply Hall; [eapply written_refs, Ha |].
  eapply ref_slices_not_per_trial, Ha.
Qed.

Lemma gen_reference_in :
  (forall b p, b ∈ written s0 -> b ∉ per_trial -> keeps R (assign_data b p)) ->
  keeps_in s0 R gen_reference.
Proof.
  intros Hall. unfold gen_reference. apply keeps_in_get_self. intros s Hs.
  apply keeps_in_bind; [apply keeps_in_keeps, (keeps_call _) | apply (keeps_call _) |].
  intros rtn.
  assert (Hsix : forall a k ix,
    (a, k, ix) ∈ [(Attr.time, "nav", "[:, 0]"); (Attr.ref_pos, "nav", "[:, 1:4]");
                  (Attr.ref_vel, "nav", "[:, 4:7]"); (Attr.ref_att, "nav", "[:, 7:10]");
                  (Attr.ref_accel, "imu", "[:, 1:4]"); (Attr.ref_gyro, "imu", "[:, 4:7]")] ->
    keeps_in s0 R (save_ref a rtn k ix)).
  { intros a k ix Ha. apply save_ref_in; [| exact Hall].
    unfold ref_slices. rewrite elem_of_app. left. exact Ha. }
  repeat (apply keeps_in_bind;
    [apply Hsix; apply list_elem_of_In; cbn [In]; tauto | apply save_ref_config | intros _]).
  apply keeps_in_get_self. intros s1 Hs1. rewrite (config_imu _ _ Hs1).
  apply keeps_in_bind.
  - destruct (imu_gps (imu s0)) eqn:Hgps; [| apply keeps_in_keeps, (keeps_ret _)].
    apply keeps_in_bind; [| apply save_ref_config | intros _];
      (apply save_ref_in; [| exact Hall]);
      unfold ref_slices; rewrite Hgps, !elem_of_app; right; left; apply list_elem_of_In; cbn [In]; tauto.
  - destruct (imu_gps (imu s0)); keeps_auto; apply save_ref_config.
  - intros _. apply keeps_in_get_self. intros s2 Hs2. rewrite (config_imu _ _ Hs2).
    destruct (imu_magnetometer (imu s0)) eqn:Hmag; [| apply keeps_in_keeps, (keeps_ret _)].
    apply save_ref_in; [| exact Hall].
    unfold ref_slices. rewrite Hmag, !elem_of_app. right. right. apply list_elem_of_In. cbn [In]. tauto.
Qed.

(** [run] in the engine [s0] keeps a relation that the assignments to the
    containers of [written s0] keep. *)
Lemma run_in (num_times : num) :
  (forall n, keeps R (modify (set_sim_count n))) ->
  (forall b, keeps R (modify (set_sim_complete b))) ->
  (forall b p, b ∈ written s0 -> b ∉ per_trial -> keeps R (assign_data b p)) ->
  (forall b i v, b ∈ written s0 -> keeps R (assign_item b i v)) ->
  keeps_in s0 R (run num_times).
Proof.
  intros Hn Hb Hd Hi. unfold run.
  apply keeps_in_bind;
    [apply keeps_in_keeps, (set_count_keeps _), Hn | apply set_count_config | intros _].
  apply keeps_in_bind;
    [apply gen_reference_in, Hd | apply gen_reference_config | intros _].
  apply keeps_in_bind; [apply simulate_in, Hi | | intros _; apply keeps_in_keeps, Hb].
  apply (simulate_keeps _). intros; apply assign_item_config.
Qed.

End Keeps_in.

Lemma config_written (s s' : Sim) : config s' = config s -> written s' = written s.
Proof.
  intros Hc. unfold written. rewrite (config_imu _ _ Hc).
  destruct (config_exprs _ _ Hc) as [_ ->]. reflexivity.
Qed.

(** X7.  [run] assigns the data of no container outside [written]: the
    reference containers (those of GPS and of the magnetometer only when
    the sensor is enabled), [accel], [gyro], [gps] and [mag] when enabled,
    and the containers named in [algo_out_expr].  Whatever [run] does,
    also when it raises, the data of every other container are the same
    after the call, the set [written] is the same, and so are the
    properties of every container and the dictionaries [res] and
    [supported_plot]. *)
Theorem run_writes_only_its_containers (num_times : num) (m : machine)
    (a : Attr.t) :
  a ∉ written (self m) ->
  let m' := snd (run num_times m) in
  data (attr (self m') a) = data (attr (self m) a)
  /\ written (self m') = written (self m)
  /\ (forall b, props (attr (self m') b) = props (attr (self m) b))
  /\ res (self m') = res (self m)
  /\ supported_plot (self m') = supported_plot (self m).
Proof.
  intros Ha m'. split; [| split; [| split]].
  - refine (run_in (self m) (same_data a) num_times _ _ _ _ m eq_refl).
    + intros n x. reflexivity.
    + intros b x. reflexivity.
    + intros b p Hb _. apply assign_data_data. intros ->. contradiction.
    + intros b i v Hb. apply assign_item_data. intros ->. contradiction.
  - apply config_written, (run_config num_times m).
  - apply (run_props num_times m).
  - apply (run_results num_times m).
Qed.

(** ** The engine of the constructor and its states *)

Lemma Sim_init_out_expr (fs : list (value array)) (imu_ : imu_cfg array)
    (waypoints : array) (mode env : pyarg array)
    (alg : option (algorithm array world)) (s0 : Sim) :
  Sim_init fs imu_ waypoints mode env alg = inr s0 ->
  algo_out_expr s0 = match alg with Some al => output al | None => [] end
  /\ forall n, n ∈ algo_out_expr s0 -> n ∈ out_names.
Proof.
  intros Hinit.
  destruct (Sim_init_inr _ _ _ _ _ _ _ Hinit)
    as (fs0 & _ & _ & _ & _ & _ & _ & _ & Hso & _ & _ & _ & Halg & Hparse).
  destruct (init_registry_data fs0 imu_) as (_ & _ & Do). rewrite Do in Hso.
  destruct alg as [al |].
  - destruct Hparse as [_ Hpo]. apply parse_out_Some in Hpo as [Heq Hall].
    cbn [app] in Heq. split; [exact Heq |]. intros n Hn. rewrite Heq in Hn.
    apply Hall, str_in_true in Hn. rewrite Hso in Hn.
    apply supported_out_keys in Hn as (n' & [= ->] & Hn'). exact Hn'.
  - destruct Hparse as [_ Hoe]. split; [exact Hoe |]. intros n Hn.
    rewrite Hoe in Hn. inversion Hn.
Qed.

Lemma Sim_init_state (fs : list (value array)) (imu_ : imu_cfg array)
    (waypoints : array) (mode env : pyarg array)
    (alg : option (algorithm array world)) (s0 : Sim) :
  Sim_init fs imu_ waypoints mode env alg = inr s0 -> state_of s0 s0.
Proof.
  intros Hinit.
  destruct (Sim_init_inr _ _ _ _ _ _ _ Hinit) as (fs0 & _ & _ & _ & _ & Hattr & _).
  split; [reflexivity |]. split; [reflexivity |].
  intros a Ha. rewrite Hattr. exists ∅. apply init_attr_dicts, Ha.
Qed.

Lemma state_of_run (s0 : Sim) (num_times : num) (m : machine) :
  state_of s0 (self m) -> state_of s0 (self (snd (run num_times m))).
Proof.
  intros (Hc & Hp & Hd). split; [| split].
  - rewrite <- Hc. apply (run_config num_times m).
  - intros a. rewrite <- Hp. apply (run_props num_times m).
  - apply (run_dicts num_times m), Hd.
Qed.

Lemma written_inv (s : Sim) (a : Attr.t) :
  a ∈ written s ->
  (exists k ix, (a, k, ix) ∈ ref_slices (imu_gps (imu s)) (imu_magnetometer (imu s)))
  \/ a = Attr.accel \/ a = Attr.gyro
  \/ (imu_gps (imu s) = true /\ a = Attr.gps)
  \/ (imu_magnetometer (imu s) = true /\ a = Attr.mag)
  \/ exists n, n ∈ algo_out_expr s /\ Attr.of_ident n = Some a.
Proof.
  unfold written. rewrite !elem_of_app.
  intros [Hr | [Hs | [Hg | [Hm | Ho]]]].
  - left. apply list_elem_of_fmap in Hr as ([[a' k] ix] & -> & Hin). eauto.
  - apply elem_of_cons in Hs as [-> | Hs]; [right; left; reflexivity |].
    apply list_elem_of_singleton in Hs as ->. right. right. left. reflexivity.
  - destruct (imu_gps (imu s)); [| inversion Hg].
    apply list_elem_of_singleton in Hg as ->.
    right. right. right. left. split; reflexivity.
  - destruct (imu_magnetometer (imu s)); [| inversion Hm].
    apply list_elem_of_singleton in Hm as ->.
    right. right. right. right. left. split; reflexivity.
  - apply list_elem_of_omap in Ho. right. right. right. right. right. exact Ho.
Qed.

Lemma ref_slices_attr (g mg : bool) (a : Attr.t) (k ix : string) :
  (a, k, ix) ∈ ref_slices g mg ->
  a ∈ [Attr.time; Attr.ref_pos; Attr.ref_vel; Attr.ref_att; Attr.ref_accel;
       Attr.ref_gyro]
  \/ (g = true /\ a ∈ [Attr.gps_time; Attr.ref_gps])
  \/ (mg = true /\ a = Attr.ref_mag).
Proof.
  intros Ha. apply list_elem_of_In in Ha. rewrite !list_elem_of_In.
  destruct g, mg; cbn in Ha |- *; intuition congruence.
Qed.

Lemma run_writes_only_its_containers_aux (num_times : num) (m : machine)
    (a : Attr.t) :
  a ∉ written (self m) ->
  data (attr (self (snd (run num_times m))) a) = data (attr (self m) a).
Proof.
  intros Ha.
  refine (run_in (self m) (same_data a) num_times _ _ _ _ m eq_refl).
  - intros n x. reflexivity.
  - intros b x. reflexivity.
  - intros b p Hb _. apply assign_data_data. intros ->. contradiction.
  - intros b i v Hb. apply assign_item_data. intros ->. contradiction.
Qed.

(** X8.  In an engine the constructor has returned, [run] leaves the data
    of these containers as they are, whether it returns or raises: [fs]
    and [ref_frame]; with GPS disabled [gps], [gps_time] and [ref_gps];
    with the magnetometer disabled [mag] and [ref_mag]; and every output
    container that the algorithm does not declare (all of them without an
    algorithm). *)
Theorem run_leaves_the_other_containers (fs : list (value array))
    (imu_ : imu_cfg array) (waypoints : array) (mode env : pyarg array)
    (alg : option (algorithm array world)) (s0 : Sim)
    (num_times : num) (m : machine) (a : Attr.t) :
  Sim_init fs imu_ waypoints mode env alg = inr s0 ->
  config (self m) = config s0 ->
  a ∈ [Attr.fs; Attr.ref_frame]
  \/ (imu_gps imu_ = false /\ a ∈ [Attr.gps; Attr.gps_time; Attr.ref_gps])
  \/ (imu_magnetometer imu_ = false /\ a ∈ [Attr.mag; Attr.ref_mag])
  \/ (exists n, n ∈ out_names /\ Attr.of_ident n = Some a
        /\ n ∉ match alg with Some al => output al | None => [] end) ->
  data (attr (self (snd (run num_times m))) a) = data (attr (self m) a).
Proof.
  intros Hinit Hcfg Ha.
  destruct (Sim_init_out_expr _ _ _ _ _ _ _ Hinit) as [Hoe Hnames].
  destruct (Sim_init_inr _ _ _ _ _ _ _ Hinit) as (fs0 & _ & _ & _ & Himu & _).
  assert (Hout : forall n, n ∈ algo_out_expr s0 -> Attr.of_ident n = Some a ->
            a ∈ per_trial /\ a <> Attr.gps /\ a <> Attr.mag
            /\ n ∈ match alg with Some al => output al | None => [] end
            /\ n = Attr.ident a).
  { intros n Hn Hn'.
    destruct (out_name_attr n a (Hnames n Hn) Hn') as (P1 & _ & _ & P2 & P3).
    rewrite <- Hoe. repeat split; auto using Attr_of_ident_Some. }
  assert (Ha' :
    a ∈ [Attr.fs; Attr.ref_frame]
    \/ (imu_gps imu_ = false /\ a ∈ [Attr.gps; Attr.gps_time; Attr.ref_gps])
    \/ (imu_magnetometer imu_ = false /\ a ∈ [Attr.mag; Attr.ref_mag])
    \/ (a ∈ per_trial /\ a <> Attr.accel /\ a <> Attr.gyro /\ a <> Attr.gps
        /\ a <> Attr.mag
        /\ Attr.ident a ∉ match alg with Some al => output al | None => [] end)).
  { destruct Ha as [Ha | [Ha | [Ha | (n & Hn & Hn' & Hno)]]]; auto.
    right. right. right.
    destruct (out_name_attr n a Hn Hn') as (P1 & P2 & P3 & P4 & P5).
    apply Attr_of_ident_Some in Hn'. subst n. auto 10. }
  clear Ha.
  assert (Hnw : a ∉ written (self m)).
  { rewrite (config_written _ _ Hcfg). intros Hw.
    apply written_inv in Hw. rewrite Himu in Hw.
    destruct Hw as [(k & ix & Hr) | [-> | [-> | [[Hg ->] | [[Hm ->] | (n & Hn & Hn')]]]]];
    try (apply ref_slices_attr in Hr);
    try (destruct (Hout n Hn Hn') as (P1 & P2 & P3 & P4 & P5));
    unfold per_trial in *;
    rewrite ?list_elem_of_In in *; cbn [In] in *;
    repeat match goal with
           | H : _ \/ _ |- _ => destruct H
           | H : _ /\ _ |- _ => destruct H
           | H : exists _, _ |- _ => destruct H
           end;
    subst; try congruence; try discriminate; try contradiction.
  }
  apply (run_writes_only_its_containers_aux num_times m a Hnw).
Qed.

(** ** The reference data *)

Lemma save_ref_inr (a : Attr.t) (rtn : gmap string array) (k ix : string)
    (m m' : machine) :
  save_ref a rtn k ix m = (inr tt, m') ->
  exists r, rtn !! k = Some r
    /\ m' = upd (fun s => set_attr
                   (attr_set_data a (PVal (VArr (np_getitem ix r))) (attr s)) s) m.
Proof.
  unfold save_ref, dict_getitem. destruct (rtn !! k) as [r |]; [| discriminate].
  intros [= <-]. exists r. split; reflexivity.
Qed.

Lemma save_ref_inl (a : Attr.t) (rtn : gmap string array) (k ix : string)
    (m m' : machine) (e : exn) :
  save_ref a rtn k ix m = (inl e, m') -> rtn !! k = None /\ e = KeyError /\ m' = m.
Proof.
  unfold save_ref, dict_getitem. destruct (rtn !! k) as [r |]; [discriminate |].
  intros [= <- <-]. auto.
Qed.

Lemma gen_reference_inr (m m' : machine) :
  gen_reference m = (inr tt, m') ->
  exists rtn w,
    path_gen (np_hstack [ini_pos_n (self m); ini_vel_b (self m); ini_att (self m)])
             (motion_def (self m)) (output_def (self m)) (mobility (self m))
             (data (attr (self m) Attr.ref_frame))
             (imu_magnetometer (imu (self m))) (ext m) = (inr rtn, w)
    /\ ext m' = w
    /\ forall a k ix,
         (a, k, ix) ∈ ref_slices (imu_gps (imu (self m)))
                                 (imu_magnetometer (imu (self m))) ->
         exists r, rtn !! k = Some r
           /\ data (attr (self m') a) = PVal (VArr (np_getitem ix r)).
Proof.
  unfold gen_reference. rewrite get_self_bind. intros Hrun.
  apply bind_inv_inr in Hrun as (rtn & m1 & Hcall & Hrun).
  unfold call in Hcall.
  destruct (path_gen _ _ _ _ _ _ (ext m)) as [[e | rtn'] w] eqn:Hpath;
    [discriminate |].
  injection Hcall as -> <-.
  exists rtn, w. split; [reflexivity |].
  do 6 (apply bind_inv_inr in Hrun as ([] & ?m & Hs & Hrun);
        apply save_ref_inr in Hs as (?r & ?Hr & ->)).
  rewrite get_self_bind in Hrun.
  cbn [upd self imu set_attr] in Hrun.
  apply bind_inv_inr in Hrun as ([] & m7 & Hgps & Hrun).
  rewrite get_self_bind in Hrun.
  assert (Himu : imu (self m7) = imu (self m)).
  { destruct (imu_gps (imu (self m))).
    - apply bind_inv_inr in Hgps as ([] & ?m & Hs & Hgps).
      apply save_ref_inr in Hs as (?r & ?Hr & ->).
      apply save_ref_inr in Hgps as (?r & ?Hr & ->). reflexivity.
    - injection Hgps as <-. reflexivity. }
  rewrite Himu in Hrun.
  destruct (imu_gps (imu (self m))) eqn:Eg;
    destruct (imu_magnetometer (imu (self m))) eqn:Em.
  all: try (apply bind_inv_inr in Hgps as ([] & ?m & Hs & Hgps);
            apply save_ref_inr in Hs as (?r & ?Hr & ->);
            apply save_ref_inr in Hgps as (?r & ?Hr & ->)).
  all: try (injection Hgps as <-).
  all: try (apply save_ref_inr in Hrun as (?r & ?Hr & ->)).
  all: try (injection Hrun as <-).
  all: (split; [reflexivity |]).
  all: intros a k ix Ha; apply list_elem_of_In in Ha; cbn in Ha.
  all: repeat (destruct Ha as [[= <- <- <-] | Ha];
                 [eexists; (split; [| reflexivity]); assumption |]).
  all: destruct Ha.
Qed.

Lemma set_count_inr (num_times : num) (m m0 : machine) :
  set_count num_times m = (inr tt, m0) ->
  exists z, m0 = upd (set_sim_count z) m.
Proof.
  destruct (py_int num_times) as [e | z] eqn:Hz.
  - unfold set_count. rewrite Hz. discriminate.
  - rewrite (set_count_eq _ _ m Hz). intros [= <-]. eauto.
Qed.

Lemma simulate_val (a : Attr.t) (x : value array) : keeps (holds_val a x) simulate.
Proof. apply (simulate_keeps _). intros. apply assign_item_val. Qed.

(** X9.  A [run] that returns has called [path_gen] once, on the initial
    state, the motion definition, the output definition and the mobility
    of the constructor, the reference frame and the magnetometer flag, in
    the state of the collaborators at the call of [run]; and each
    reference container holds the slice of the result [rtn] that lines
    232 to 242 assign: [time] holds [rtn['nav'][:, 0]], [ref_pos]
    [rtn['nav'][:, 1:4]], and so on, [gps_time] and [ref_gps] the slices
    of [rtn['gps']] when GPS is enabled and [ref_mag] that of
    [rtn['mag']] when the magnetometer is.  The trials that follow
    leave these data as they are. *)
Theorem run_saves_the_reference_data (num_times : num) (m m' : machine) :
  run num_times m = (inr tt, m') ->
  exists rtn w,
    path_gen (np_hstack [ini_pos_n (self m); ini_vel_b (self m); ini_att (self m)])
             (motion_def (self m)) (output_def (self m)) (mobility (self m))
             (data (attr (self m) Attr.ref_frame))
             (imu_magnetometer (imu (self m))) (ext m) = (inr rtn, w)
    /\ forall a k ix,
         (a, k, ix) ∈ ref_slices (imu_gps (imu (self m)))
                                 (imu_magnetometer (imu (self m))) ->
         exists r, rtn !! k = Some r
           /\ data (attr (self m') a) = PVal (VArr (np_getitem ix r)).
Proof.
  intros Hrun.
  destruct (run_inr_inv _ _ _ Hrun) as (m0 & m1 & m2 & Hcount & Hgen & Hsim & ->).
  apply set_count_inr in Hcount as [z ->].
  apply gen_reference_inr in Hgen as (rtn & w & Hpath & _ & Hrefs).
  exists rtn, w. split; [exact Hpath |].
  intros a k ix Ha. destruct (Hrefs a k ix Ha) as (r & Hr & Hdata).
  exists r. split; [exact Hr |].
  apply (keeps_inv _ _ _ _ _ (simulate_val a _) Hsim), Hdata.
Qed.

(** When [path_gen] raises, or its result lacks the key ['nav'], [run]
    raises before any container is assigned. *)
Lemma gen_reference_inl_start (m : machine) :
  (forall e w,
     path_gen (np_hstack [ini_pos_n (self m); ini_vel_b (self m); ini_att (self m)])
              (motion_def (self m)) (output_def (self m)) (mobility (self m))
              (data (attr (self m) Attr.ref_frame))
              (imu_magnetometer (imu (self m))) (ext m) = (inl e, w) ->
     gen_reference m = (inl e, {| self := self m; ext := w; console := console m |}))
  /\ (forall rtn w,
        path_gen (np_hstack [ini_pos_n (self m); ini_vel_b (self m); ini_att (self m)])
                 (motion_def (self m)) (output_def (self m)) (mobility (self m))
                 (data (attr (self m) Attr.ref_frame))
                 (imu_magnetometer (imu (self m))) (ext m) = (inr rtn, w) ->
        rtn !! "nav" = None ->
        gen_reference m
        = (inl KeyError, {| self := self m; ext := w; console := console m |})).
Proof.
  split.
  - intros e w Hpath. unfold gen_reference. rewrite get_self_bind.
    rewrite bind_eq. unfold call. rewrite Hpath. reflexivity.
  - intros rtn w Hpath Hnav. unfold gen_reference. rewrite get_self_bind.
    rewrite bind_eq. unfold call. rewrite Hpath.
    rewrite bind_eq. unfold save_ref at 1, dict_getitem. rewrite Hnav. reflexivity.
Qed.

(** X10.  When [path_gen] raises, [run] raises the same exception; when
    its result has no key ['nav'], [run] raises [KeyError] (line 232).
    In both cases no container has been assigned and no sensor data
    generated, but the trial count is already the new one: the engine
    after the call is the engine before with [sim_count] replaced by
    [max(1, int(num_times))]. *)
Theorem run_fails_before_the_trials (num_times : num) (z : Z) (m : machine) :
  py_int num_times = inr z ->
  let m0 := upd (set_sim_count (if z <? 1 then 1 else z)) m in
  (forall e w,
     path_gen (np_hstack [ini_pos_n (self m); ini_vel_b (self m); ini_att (self m)])
              (motion_def (self m)) (output_def (self m)) (mobility (self m))
              (data (attr (self m) Attr.ref_frame))
              (imu_magnetometer (imu (self m))) (ext m) = (inl e, w) ->
     run num_times m
     = (inl e, {| self := self m0; ext := w; console := console m |}))
  /\ (forall rtn w,
        path_gen (np_hstack [ini_pos_n (self m); ini_vel_b (self m); ini_att (self m)])
                 (motion_def (self m)) (output_def (self m)) (mobility (self m))
                 (data (attr (self m) Attr.ref_frame))
                 (imu_magnetometer (imu (self m))) (ext m) = (inr rtn, w) ->
        rtn !! "nav" = None ->
        run num_times m
        = (inl KeyError, {| self := self m0; ext := w; console := console m |})).
Proof.
  intros Hz m0.
  destruct (gen_reference_inl_start m0) as [Hraise Hkey].
  split.
  - intros e w Hpath. unfold run.
    rewrite (bind_inr _ _ _ _ _ (set_count_eq _ _ m Hz)). fold m0.
    apply bind_inl. apply (Hraise e w). exact Hpath.
  - intros rtn w Hpath Hnav. unfold run.
    rewrite (bind_inr _ _ _ _ _ (set_count_eq _ _ m Hz)). fold m0.
    apply bind_inl. apply (Hkey rtn w); assumption.
Qed.

(** ** The algorithm in a trial *)

Lemma trial_eq (i : Z) (m : machine) :
  trial i m = (sensors i ≫= fun _ => run_algo i) m.
Proof.
  unfold trial, sensors. rewrite bind_assoc, !(bind_eq (gen_accel i)).
  destruct (gen_accel i m) as [[e | []] m1]; [reflexivity |].
  rewrite bind_assoc, !(bind_eq (gen_gyro i)).
  destruct (gen_gyro i m1) as [[e | []] m2]; [reflexivity |].
  rewrite bind_assoc. reflexivity.
Qed.

Lemma sensors_keeps (R : machine -> machine -> Prop) `{!Frame R} (i : Z) :
  (forall a v, keeps R (assign_item a i v)) -> keeps R (sensors i).
Proof.
  intros Hi. unfold sensors. keeps_auto.
  - apply (gen_accel_keeps _); intros; apply Hi.
  - apply (gen_gyro_keeps _); intros; apply Hi.
  - apply (gen_gps_keeps _); intros; apply Hi.
  - apply (gen_mag_keeps _); intros; apply Hi.
Qed.

Lemma sensors_config (i : Z) : keeps same_config (sensors i).
Proof. apply (sensors_keeps _). intros; apply assign_item_config. Qed.

Lemma sensors_fills (i : Z) (m m' : machine) :
  sensors i m = (inr tt, m') -> filled (self m') i.
Proof.
  unfold sensors. intros Hrun.
  apply bind_inv_inr in Hrun as ([] & m1 & Hacc & Hrun).
  apply bind_inv_inr in Hrun as ([] & m2 & Hgyr & Hrun).
  apply bind_inv_inr in Hrun as ([] & m3 & Hgps & Hmag).
  destruct per_trial_sensors as (Pa & Py & Pp & Pm).
  assert (G2 : keeps slots_grow (gen_gyro i))
    by (apply (gen_gyro_keeps _); intros; apply assign_item_grow).
  assert (G3 : keeps slots_grow (gen_gps i))
    by (apply (gen_gps_keeps _); intros; apply assign_item_grow).
  assert (G4 : keeps slots_grow (gen_mag i))
    by (apply (gen_mag_keeps _); intros; apply assign_item_grow).
  pose proof (keeps_inv _ _ _ _ _ G2 Hgyr) as g2.
  pose proof (keeps_inv _ _ _ _ _ G3 Hgps) as g3.
  pose proof (keeps_inv _ _ _ _ _ G4 Hmag) as g4.
  pose proof (config_imu _ _ (keeps_inv _ _ _ _ _ (gen_gps_config i) Hgps)) as c3.
  pose proof (config_imu _ _ (keeps_inv _ _ _ _ _ (gen_mag_config i) Hmag)) as c4.
  apply gen_accel_inr in Hacc as (va & wa & _ & Hacc).
  apply gen_gyro_inr in Hgyr as (vy & wy & _ & Hgyr).
  unfold filled. split; [| split; [| split]].
  - apply g4, g3, g2; eauto.
  - apply g4, g3; eauto.
  - intros Hp. apply g4; [exact Pp |].
    eapply gen_gps_inr; [exact Hgps |]. congruence.
  - intros Hm. eapply gen_mag_inr; [exact Hmag |]. congruence.
Qed.

(** The evaluation of the inputs changes nothing. *)
Lemma eval_in_term_snd (i : Z) (t : in_term) (m : machine) :
  snd (eval_in_term i t m) = m.
Proof.
  unfold eval_in_term, getattr. destruct t as [n | n];
    destruct (Attr.of_ident n) as [a |]; try reflexivity.
  rewrite ret_bind, get_self_bind.
  destruct (data (attr (self m) a)) as [d | v]; [| reflexivity].
  unfold dict_getitem. destruct (d !! i); reflexivity.
Qed.

Lemma eval_in_expr_snd (i : Z) (e : list in_term) (m : machine) :
  snd (eval_in_expr i e m) = m.
Proof.
  induction e as [| t e IH]; [reflexivity |].
  cbn [eval_in_expr]. rewrite bind_eq.
  pose proof (eval_in_term_snd i t m) as Ht.
  destruct (eval_in_term i t m) as [[x | p] m1]; cbn [snd] in Ht; subst m1;
    [reflexivity |].
  rewrite bind_eq.
  destruct (eval_in_expr i e m) as [[x | ps] m1]; cbn [snd] in IH; subst m1;
    reflexivity.
Qed.

Lemma eval_in_term_arg (i : Z) (n : string) (p : payload array) (m : machine) :
  algo_arg (self m) i n = Some p ->
  eval_in_term i (in_term_of (supported_in_constant (self m)) n) m = (inr p, m).
Proof.
  unfold algo_arg, in_term_of, slot.
  destruct (str_in n (supported_in_constant (self m)));
    cbn [eval_in_term]; unfold getattr;
    (destruct (Attr.of_ident n) as [a |]; [| discriminate]);
    rewrite ret_bind, get_self_bind.
  - intros [= <-]. reflexivity.
  - destruct (data (attr (self m) a)) as [d | v]; [| discriminate].
    unfold dict_getitem. destruct (d !! i); [| discriminate].
    intros [= <-]. reflexivity.
Qed.

Lemma eval_in_expr_args (i : Z) (names : list string) (args : list (payload array))
    (m : machine) :
  Forall2 (fun n p => algo_arg (self m) i n = Some p) names args ->
  eval_in_expr i (List.map (in_term_of (supported_in_constant (self m))) names) m
  = (inr args, m).
Proof.
  induction 1 as [| n p names args Hn _ IH]; [reflexivity |].
  cbn [List.map eval_in_expr].
  rewrite (bind_inr _ _ _ _ _ (eval_in_term_arg i n p m Hn)).
  rewrite (bind_inr _ _ _ _ _ IH). reflexivity.
Qed.

Lemma constant_name_attr (imu_ : imu_cfg array) (n : string) :
  is_Some (init_supported_in_constant new_attr imu_ !! KStr n) ->
  exists a, Attr.of_ident n = Some a.
Proof.
  intros Hn.
  destruct (supported_in_constant_keys imu_ (KStr n) Hn) as [Hobj | (n' & Heq & Hn')];
    [discriminate |].
  injection Heq as <-.
  repeat (apply elem_of_cons in Hn' as [-> | Hn']); [.. | inversion Hn'];
    eexists; reflexivity.
Qed.

Lemma varying_name_attr (imu_ : imu_cfg array) (n : string) :
  is_Some (init_supported_in_varying new_attr imu_ !! KStr n) ->
  exists a, Attr.of_ident n = Some a
    /\ (a = Attr.gyro \/ a = Attr.accel
        \/ (a = Attr.gps /\ imu_gps imu_ = true)
        \/ (a = Attr.mag /\ imu_magnetometer imu_ = true)).
Proof.
  intros Hn.
  destruct (supported_in_varying_keys imu_ (KStr n) Hn) as (n' & Heq & Hn').
  injection Heq as <-.
  repeat (apply elem_of_cons in Hn' as [-> | Hn']); [.. | inversion Hn'];
    (eexists; split; [reflexivity |]).
  - left. reflexivity.
  - right. left. reflexivity.
  - right. right. left. split; [reflexivity |].
    revert Hn. unfold init_supported_in_varying.
    destruct (imu_gps imu_); [reflexivity |].
    destruct (imu_magnetometer imu_); vm_compute; intros [x Hx]; discriminate.
  - right. right. right. split; [reflexivity |].
    revert Hn. unfold init_supported_in_varying.
    destruct (imu_magnetometer imu_); [reflexivity |].
    destruct (imu_gps imu_); vm_compute; intros [x Hx]; discriminate.
Qed.

Lemma Sim_init_in_expr (fs : list (value array)) (imu_ : imu_cfg array)
    (waypoints : array) (mode env : pyarg array) (al : algorithm array world)
    (s0 : Sim) :
  Sim_init fs imu_ waypoints mode env (Some al) = inr s0 ->
  algo_in_expr s0 = List.map (in_term_of (supported_in_constant s0)) (input al)
  /\ algo_out_expr s0 = output al
  /\ forall n, n ∈ input al ->
       str_in n (supported_in_constant s0) = true
       \/ str_in n (supported_in_varying s0) = true.
Proof.
  intros Hinit.
  pose proof (Sim_init_algorithm fs imu_ waypoints mode env al) as Heq.
  destruct (Sim_init fs imu_ waypoints mode env None) as [e | s1]; [congruence |].
  rewrite Hinit in Heq.
  destruct ((length (input al) <? 1)%nat || (length (output al) <? 1)%nat);
    [discriminate |].
  rewrite parse_in_spec, parse_out_spec in Heq.
  destruct (forallb _ (input al)) eqn:Hfi; [| discriminate].
  destruct (forallb _ (output al)) eqn:Hfo; [| discriminate].
  injection Heq as ->. cbn. split; [reflexivity |]. split; [reflexivity |].
  intros n Hn. apply orb_true_iff. apply (proj1 (forallb_elem_of _ _) Hfi n Hn).
Qed.

(** X11.  In an engine made with an algorithm, once the sensor data of a
    trial have been generated the evaluation of [algo_in_expr] cannot
    fail and changes nothing: the algorithm is run on one argument for
    each declared input, in the order declared, the whole data of the
    container for an input of [supported_in_constant] and the entry of
    this trial for a sensor; after it [get_results] is unpacked into the
    declared outputs. *)
Theorem algorithm_is_run_on_the_data_of_the_trial (fs : list (value array))
    (imu_ : imu_cfg array) (waypoints : array) (mode env : pyarg array)
    (al : algorithm array world) (s0 : Sim) (i : Z) (m m4 : machine) :
  Sim_init fs imu_ waypoints mode env (Some al) = inr s0 ->
  config (self m) = config s0 ->
  sensors i m = (inr tt, m4) ->
  exists args,
    Forall2 (fun n p => algo_arg (self m4) i n = Some p) (input al) args
    /\ eval_in_expr i (algo_in_expr (self m4)) m4 = (inr args, m4)
    /\ trial i m = (call (algo_run al args) ≫= fun _ =>
                    call (get_results al) ≫= fun vals =>
                    exec_out_expr i (output al) vals) m4
    /\ forall n, n ∈ input al ->
         exists a, Attr.of_ident n = Some a
           /\ (supported_in_constant s0 !! KStr n = None ->
               a ∈ [Attr.gyro; Attr.accel; Attr.gps; Attr.mag]
               /\ is_Some (slot (self m4) a i)).
Proof.
  intros Hinit Hcfg Hsens.
  destruct (Sim_init_in_expr _ _ _ _ _ _ _ Hinit) as (Hie & Hoe & Hins).
  destruct (Sim_init_inr _ _ _ _ _ _ _ Hinit)
    as (fs0 & _ & _ & _ & Himu & _ & Hsic & Hsiv & _ & _ & _ & _ & Halg & _).
  destruct (init_registry_data fs0 imu_) as (Dc & Dv & _).
  rewrite Dc in Hsic. rewrite Dv in Hsiv.
  assert (Hcfg4 : config (self m4) = config s0).
  { rewrite <- Hcfg. apply (keeps_inv _ _ _ _ _ (sensors_config i) Hsens). }
  destruct (config_registry _ _ Hcfg4) as (Rc & _ & _).
  destruct (config_exprs _ _ Hcfg4) as [Ei Eo].
  pose proof (config_imu _ _ Hcfg4) as Imu4. rewrite Himu in Imu4.
  pose proof (sensors_fills i m m4 Hsens) as (Fa & Fy & Fp & Fm).
  rewrite Imu4 in Fp, Fm.
  assert (Hattr : forall n, n ∈ input al ->
    exists a, Attr.of_ident n = Some a
      /\ (supported_in_constant s0 !! KStr n = None ->
          a ∈ [Attr.gyro; Attr.accel; Attr.gps; Attr.mag]
          /\ is_Some (slot (self m4) a i))).
  { intros n Hn. destruct (Hins n Hn) as [Hc | Hv].
    - apply str_in_true in Hc. rewrite Hsic in Hc.
      destruct (constant_name_attr imu_ n Hc) as [a Ha].
      exists a. split; [exact Ha |]. rewrite Hsic. intros Hnone.
      rewrite Hnone in Hc. destruct Hc as [x Hx]. discriminate.
    - apply str_in_true in Hv. rewrite Hsiv in Hv.
      destruct (varying_name_attr imu_ n Hv) as (a & Ha & Hcase).
      exists a. split; [exact Ha |]. intros _.
      destruct Hcase as [-> | [-> | [[-> Hg] | [-> Hmg]]]];
        (split; [apply list_elem_of_In; cbn [In]; tauto | auto]). }
  assert (Hargs : exists args,
    Forall2 (fun n p => algo_arg (self m4) i n = Some p) (input al) args).
  { clear Hie Hins. induction (input al) as [| n names IH]; [exists []; constructor |].
    destruct IH as [args Hargs].
    { intros x Hx. apply Hattr. right. exact Hx. }
    assert (Hp : exists p, algo_arg (self m4) i n = Some p).
    { destruct (Hattr n) as (a & Ha & Hvar); [left |].
      unfold algo_arg. rewrite Ha, Rc.
      destruct (str_in n (supported_in_constant s0)) eqn:Hc; [eauto |].
      apply str_in_false in Hc. destruct (Hvar Hc) as [_ [v Hv]].
      rewrite Hv. eauto. }
    destruct Hp as [p Hp]. exists (p :: args). constructor; assumption. }
  destruct Hargs as [args Hargs]. exists args.
  assert (Heval : eval_in_expr i (algo_in_expr (self m4)) m4 = (inr args, m4)).
  { rewrite Ei, Hie, <- Rc. apply eval_in_expr_args, Hargs. }
  split; [exact Hargs |]. split; [exact Heval |]. split; [| exact Hattr].
  rewrite trial_eq, (bind_inr _ _ _ _ _ Hsens).
  unfold run_algo. rewrite get_self_bind.
  rewrite (config_algo _ _ Hcfg4), Halg.
  rewrite (bind_inr _ _ _ _ _ Heval).
  rewrite !(bind_eq (call (algo_run al args))).
  destruct (call (algo_run al args) m4) as [[e | []] m5] eqn:H1; [reflexivity |].
  rewrite !(bind_eq (call (get_results al))).
  destruct (call (get_results al) m5) as [[e | vals] m6] eqn:H2; [reflexivity |].
  rewrite get_self_bind.
  pose proof (keeps_inv _ _ _ _ _ (keeps_call same_config _) H1) as C1.
  pose proof (keeps_inv _ _ _ _ _ (keeps_call same_config _) H2) as C2.
  assert (Ho : algo_out_expr (self m6) = output al).
  { rewrite <- Hoe, <- Eo. apply config_exprs. unfold same_config in *. congruence. }
  rewrite Ho. reflexivity.
Qed.

(** ** The outputs of the algorithm *)

Lemma assign_item_dict (a : Attr.t) (i : Z) (v : value array) (m : machine) :
  (exists d, data (attr (self m) a) = PDict d) ->
  exists m', assign_item a i v m = (inr tt, m')
    /\ ext m' = ext m /\ console m' = console m.
Proof.
  intros [d Hd]. rewrite assign_item_eq, Hd. eexists. split; [reflexivity |].
  split; reflexivity.
Qed.

(** The unpacked assignment to targets that are outputs, in an engine
    whose per-trial containers hold their dict. *)
Lemma assign_targets_spec (i : Z) (targets : list string) :
  (forall n, n ∈ targets -> n ∈ out_names) ->
  forall (vals : list (value array)) (m : machine),
    length vals = length targets ->
    dicts (self m) ->
    exists m',
      assign_targets i targets vals m = (inr tt, m')
      /\ ext m' = ext m /\ console m' = console m
      /\ (forall a k, k <> i \/ Attr.ident a ∉ targets ->
            slot (self m') a k = slot (self m) a k)
      /\ (forall (j : nat) n v,
            targets !! j = Some n -> vals !! j = Some v ->
            (forall j' : nat, (j < j')%nat -> targets !! j' <> Some n) ->
            exists a, Attr.of_ident n = Some a /\ slot (self m') a i = Some v).
Proof.
  induction targets as [| t targets IH]; intros Hall [| v0 vals] m Hlen Hd;
    try discriminate.
  - exists m. split; [reflexivity |]. split; [reflexivity |]. split; [reflexivity |].
    split; [reflexivity |]. intros j n v Hj. destruct j; discriminate.
  - assert (Ht : t ∈ out_names) by (apply Hall; left).
    assert (Hb : exists b, Attr.of_ident t = Some b).
    { unfold out_names in Ht.
      repeat (apply elem_of_cons in Ht as [-> | Ht]); [.. | inversion Ht];
        eexists; reflexivity. }
    destruct Hb as [b Hb].
    destruct (out_name_attr t b Ht Hb) as (Hper & _).
    destruct (assign_item_dict b i v0 m (Hd b Hper)) as (m1 & Hitem & Hext1 & Hcon1).
    assert (Hd1 : dicts (self m1)).
    { apply (keeps_inv _ _ _ _ _ (assign_item_dicts b i v0) Hitem), Hd. }
    destruct (IH (fun n Hn => Hall n (list_elem_of_further _ _ _ Hn)) vals m1)
      as (m' & Hrest & Hext & Hcon & Hother & Hpos); [cbn in Hlen; lia | exact Hd1 |].
    exists m'. cbn [assign_targets]. unfold getattr. rewrite Hb, ret_bind.
    rewrite (bind_inr _ _ _ _ _ Hitem).
    split; [exact Hrest |]. split; [congruence |]. split; [congruence |].
    pose proof (Attr_of_ident_Some t b Hb) as Hname.
    split.
    + intros a k Hk.
      assert (Hne : a <> b \/ k <> i).
      { destruct Hk as [Hk | Hk]; [right; exact Hk | left].
        intros ->. apply Hk. rewrite <- Hname. left. }
      rewrite Hother.
      * apply (keeps_inv _ _ _ _ _ (assign_item_slot b a i k v0 Hne) Hitem).
      * destruct Hk as [Hk | Hk]; [left; exact Hk | right].
        intros Hin. apply Hk. right. exact Hin.
    + intros j n v Hj Hv Hlast. destruct j as [| j].
      * cbn in Hj, Hv. injection Hj as <-. injection Hv as <-.
        exists b. split; [exact Hb |].
        rewrite Hother.
        -- apply (assign_item_inr _ _ _ _ _ Hitem).
        -- right. rewrite <- Hname. intros Hin.
           apply list_elem_of_lookup in Hin as [j' Hj'].
           apply (Hlast (S j')); [lia | exact Hj'].
      * cbn in Hj, Hv. apply (Hpos j n v Hj Hv).
        intros j' Hlt. apply (Hlast (S j')). lia.
Qed.

Lemma exec_out_expr_inl (i : Z) (targets : list string) (vals : list (value array))
    (m m' : machine) (e : exn) :
  (forall n, n ∈ targets -> n ∈ out_names) ->
  dicts (self m) ->
  exec_out_expr i targets vals m = (inl e, m') ->
  m' = m /\ length vals <> length targets /\ exists msg, e = ValueError msg.
Proof.
  intros Hall Hd. unfold exec_out_expr.
  destruct (decide (length vals = length targets)) as [Hlen | Hlen].
  - destruct (assign_targets_spec i targets Hall vals m Hlen Hd) as (m1 & Hrun & _).
    rewrite Hrun. discriminate.
  - intros [= <- <-]. eauto.
Qed.

Lemma state_of_keeps (s0 : Sim) {A : Type} (c : M A) (m : machine) :
  keeps same_config c -> keeps same_props c -> keeps dicts_stay c ->
  state_of s0 (self m) -> state_of s0 (self (snd (c m))).
Proof.
  intros Kc Kp Kd (Hc & Hp & Hd). split; [| split].
  - rewrite <- Hc. apply (Kc m).
  - intros a. rewrite <- Hp. apply (Kp m).
  - apply (Kd m), Hd.
Qed.

(** X12.  The statement [exec] runs at line 263, in an engine the
    constructor has returned: the values of [get_results] are assigned to
    the declared outputs by position.  With as many values as outputs
    the assignment raises nothing, the entry of trial [i] of the container
    of an output is the value at its position (the last position, for a
    name declared twice), and no other entry of any container changes.
    With any other number of values it raises [ValueError] and nothing is
    assigned. *)
Theorem outputs_are_assigned_by_position (fs : list (value array))
    (imu_ : imu_cfg array) (waypoints : array) (mode env : pyarg array)
    (alg : option (algorithm array world)) (s0 : Sim) (i : Z)
    (vals : list (value array)) (m : machine) :
  Sim_init fs imu_ waypoints mode env alg = inr s0 ->
  state_of s0 (self m) ->
  let targets := match alg with Some al => output al | None => [] end in
  algo_out_expr (self m) = targets
  /\ (length vals <> length targets ->
      exists msg, exec_out_expr i targets vals m = (inl (ValueError msg), m))
  /\ (length vals = length targets ->
      exists m',
        exec_out_expr i targets vals m = (inr tt, m')
        /\ ext m' = ext m /\ console m' = console m
        /\ state_of s0 (self m')
        /\ (forall a k, k <> i \/ Attr.ident a ∉ targets ->
              slot (self m') a k = slot (self m) a k)
        /\ (forall (j : nat) n v,
              targets !! j = Some n -> vals !! j = Some v ->
              (forall j' : nat, (j < j')%nat -> targets !! j' <> Some n) ->
              exists a, Attr.of_ident n = Some a /\ slot (self m') a i = Some v)).
Proof.
  intros Hinit Hstate targets.
  destruct (Sim_init_out_expr _ _ _ _ _ _ _ Hinit) as [Hoe Hnames].
  fold targets in Hoe. rewrite Hoe in Hnames.
  pose proof Hstate as (Hc & Hp & Hd).
  destruct (config_exprs _ _ Hc) as [_ Eo].
  split; [congruence |]. split.
  - intros Hlen. unfold exec_out_expr.
    destruct (decide _) as [Heq | _]; [contradiction | eexists; reflexivity].
  - intros Hlen.
    destruct (assign_targets_spec i targets Hnames vals m Hlen Hd)
      as (m' & Hrun & Hext & Hcon & Hother & Hpos).
    exists m'. unfold exec_out_expr.
    destruct (decide _) as [_ | Hne]; [| contradiction].
    split; [exact Hrun |]. split; [exact Hext |]. split; [exact Hcon |].
    split; [| split; assumption].
    replace m' with (snd (assign_targets i targets vals m)) by (rewrite Hrun; reflexivity).
    apply state_of_keeps; [| | | exact Hstate]; apply (assign_targets_keeps _); intros.
    + apply assign_item_config.
    + apply assign_item_props.
    + apply assign_item_dicts.
Qed.

Lemma sensors_data (a : Attr.t) (i : Z) :
  a ∉ [Attr.accel; Attr.gyro; Attr.gps; Attr.mag] ->
  keeps (same_data a) (sensors i).
Proof.
  intros Ha. unfold sensors. keeps_auto;
    [apply (gen_accel_keeps _) | apply (gen_gyro_keeps _) | apply (gen_gps_keeps _)
     | apply (gen_mag_keeps _)];
    intros v; apply assign_item_data; intros ->; apply Ha;
    apply list_elem_of_In; cbn [In]; tauto.
Qed.

Lemma run_algo_inl (s0 : Sim) (i : Z) (m m' : machine) (e : exn) :
  (forall n, n ∈ algo_out_expr s0 -> n ∈ out_names) ->
  state_of s0 (self m) ->
  run_algo i m = (inl e, m') -> self m' = self m /\ console m' = console m.
Proof.
  intros Hnames (Hc & _ & Hd). unfold run_algo. rewrite get_self_bind.
  destruct (algo (self m)) as [al |]; [| discriminate].
  intros Hrun.
  pose proof (eval_in_expr_snd i (algo_in_expr (self m)) m) as Hpure.
  apply bind_inv in Hrun as [(x & Hx & _) | (args & m1 & H1 & Hrun)].
  { rewrite Hx in Hpure. cbn [snd] in Hpure. subst m'. auto. }
  rewrite H1 in Hpure. cbn [snd] in Hpure. subst m1.
  apply bind_inv in Hrun as [(x & Hx & _) | ([] & m2 & H2 & Hrun)].
  { unfold call in Hx. destruct (algo_run al args (ext m)) as [r w].
    injection Hx as _ <-. auto. }
  assert (S2 : self m2 = self m /\ console m2 = console m).
  { unfold call in H2. destruct (algo_run al args (ext m)) as [r w].
    injection H2 as _ <-. auto. }
  apply bind_inv in Hrun as [(x & Hx & _) | (vals & m3 & H3 & Hrun)].
  { unfold call in Hx. destruct (get_results al (ext m2)) as [r w].
    injection Hx as _ <-. exact S2. }
  assert (S3 : self m3 = self m /\ console m3 = console m).
  { unfold call in H3. destruct (get_results al (ext m2)) as [r w].
    injection H3 as _ <-. exact S2. }
  rewrite get_self_bind in Hrun. destruct S3 as [S3 C3].
  apply exec_out_expr_inl in Hrun as (-> & _).
  - auto.
  - intros n. rewrite S3. destruct (config_exprs _ _ Hc) as [_ ->]. apply Hnames.
  - rewrite S3. exact Hd.
Qed.

(** X13.  In an engine the constructor has returned, a step of the
    algorithm that raises (in the evaluation of the inputs, in [run], in
    [get_results] or in the unpacking of the results) leaves the engine
    as it was before the step: no output of the trial is assigned, not
    even in part.  A trial that raises in this step keeps the sensor data
    it has generated, and the data of every output container are those
    from before the trial. *)
Theorem failed_algorithm_step_assigns_nothing (fs : list (value array))
    (imu_ : imu_cfg array) (waypoints : array) (mode env : pyarg array)
    (alg : option (algorithm array world)) (s0 : Sim) (i : Z)
    (m m' : machine) (e : exn) :
  Sim_init fs imu_ waypoints mode env alg = inr s0 ->
  state_of s0 (self m) ->
  (run_algo i m = (inl e, m') -> self m' = self m /\ console m' = console m)
  /\ (forall m4,
        sensors i m = (inr tt, m4) -> trial i m = (inl e, m') ->
        self m' = self m4
        /\ filled (self m') i
        /\ forall n a, n ∈ out_names -> Attr.of_ident n = Some a ->
             data (attr (self m') a) = data (attr (self m) a)).
Proof.
  intros Hinit Hstate.
  destruct (Sim_init_out_expr _ _ _ _ _ _ _ Hinit) as [_ Hnames].
  split; [apply (run_algo_inl s0 i m m' e Hnames Hstate) |].
  intros m4 Hsens Htrial.
  rewrite trial_eq, (bind_inr _ _ _ _ _ Hsens) in Htrial.
  assert (Hstate4 : state_of s0 (self m4)).
  { replace m4 with (snd (sensors i m)) by (rewrite Hsens; reflexivity).
    apply state_of_keeps; [| | | exact Hstate]; apply (sensors_keeps _); intros.
    - apply assign_item_config.
    - apply assign_item_props.
    - apply assign_item_dicts. }
  destruct (run_algo_inl s0 i m4 m' e Hnames Hstate4 Htrial) as [Hself _].
  split; [exact Hself |]. rewrite Hself.
  split; [apply (sensors_fills i m m4 Hsens) |].
  intros n a Hn Ha.
  refine (keeps_inv _ _ _ _ _ (sensors_data a i _) Hsens).
  destruct (out_name_attr n a Hn Ha) as (_ & N1 & N2 & N3 & N4).
  intros Hin. apply list_elem_of_In in Hin. cbn [In] in Hin.
  intuition congruence.
Qed.

(** ** results, again *)

#[local] Abbreviation quiet c := (@quiet array world _ c).

Lemma quiet_bind {A B : Type} (c : M A) (k : A -> M B) :
  quiet c -> (forall a, quiet (k a)) -> quiet (c ≫= k).
Proof.
  intros Hc Hk m. rewrite bind_eq. specialize (Hc m).
  destruct (c m) as [[e | a] m1]; cbn [snd] in *; [exact Hc |].
  destruct (Hk a m1) as [H1 H2]. destruct Hc as [H3 H4]. split; congruence.
Qed.

Lemma quiet_for_each {A : Type} (l : list A) (body : A -> M unit) :
  (forall x, quiet (body x)) -> quiet (for_each l body).
Proof.
  intros Hb. induction l as [| x l IH]; cbn [for_each].
  - intros m. split; reflexivity.
  - apply quiet_bind; [apply Hb | intros _; exact IH].
Qed.

Lemma quiet_results : quiet results.
Proof.
  unfold results, add_output, pop_supported_plot.
  repeat first
    [ apply quiet_bind; [| intros ?]
    | apply quiet_for_each; intros ?
    | match goal with
      | |- quiet (if ?b then _ else _) => destruct b
      | |- quiet (match ?x with _ => _ end) => destruct x
      | |- quiet (lift ?r) => intros m; split; reflexivity
      | |- quiet _ => intros m; split; reflexivity
      end ].
Qed.

Lemma results_keeps_the_rest : keeps same_but_results results.
Proof.
  assert (Hmod : forall f : Sim -> Sim,
    (forall s, config (f s) = config s /\ attr (f s) = attr s
               /\ sim_complete (f s) = sim_complete s
               /\ sim_count (f s) = sim_count s) ->
    keeps same_but_results (modify f)).
  { intros f Hf m. apply Hf. }
  unfold results, add_output, pop_supported_plot.
  keeps_auto; apply Hmod; intros s'; repeat split; reflexivity.
Qed.

(** Two engines with the same fields are the same. *)
Lemma machine_eq (m m' : machine) :
  config (self m') = config (self m) ->
  attr (self m') = attr (self m) ->
  sim_complete (self m') = sim_complete (self m) ->
  sim_count (self m') = sim_count (self m) ->
  res (self m') = res (self m) ->
  supported_plot (self m') = supported_plot (self m) ->
  ext m' = ext m -> console m' = console m ->
  m' = m.
Proof.
  destruct m as [s w c], m' as [s' w' c']. destruct s, s'. unfold config. cbn.
  intros [= ]. intros. subst. reflexivity.
Qed.

Lemma results_dict_config (s s' : Sim) :
  config s' = config s -> results_dict s' = results_dict s.
Proof.
  intros Hc. unfold results_dict.
  destruct (config_registry _ _ Hc) as (-> & -> & ->).
  rewrite (config_algo _ _ Hc). reflexivity.
Qed.

(** [results] in a completed engine, with the state it leaves. *)
Lemma results_complete_state (m : machine) :
  sim_complete (self m) = true ->
  (forall i, i ∈ match algo (self m) with Some a => output a | None => [] end ->
             is_Some (supported_out (self m) !! KStr i)) ->
  is_Some ((supported_in_varying (self m) ∪ supported_in_constant (self m)) !! KStr "fs") ->
  is_Some ((supported_in_varying (self m) ∪ supported_in_constant (self m))
             !! KStr "ref_frame") ->
  exists m',
    results m = (inr (results_dict (self m)), m')
    /\ res (self m') = results_dict (self m)
    /\ supported_plot (self m')
       = delete (KStr "ref_frame") (delete (KStr "fs") (results_dict (self m))).
Proof.
  intros Hc Hout Hfs Hrf. unfold results.
  rewrite get_self_bind, Hc.
  set (m2 := upd (fun s => set_res (supported_in_varying s ∪ res s) s)
                 (upd (fun s => set_res (supported_in_constant s) s) m)).
  assert (Hloop : exists m3,
    match algo (self m2) with
    | Some a => for_each (output a) add_output
    | None => mret tt
    end m2 = (inr tt, m3)
    /\ res (self m3) = results_dict (self m)).
  { unfold results_dict. cbn [m2 upd self algo set_res].
    destruct (algo (self m)) as [a |].
    - destruct (for_each_add_output (output a) m2 Hout) as (m3 & Hrun & Hres & _).
      exists m3. split; [exact Hrun |]. rewrite Hres. reflexivity.
    - exists m2. split; reflexivity. }
  destruct Hloop as (m3 & Hloop & Hres).
  assert (Hall : forall k, is_Some ((supported_in_varying (self m)
                    ∪ supported_in_constant (self m)) !! k) ->
                    is_Some (results_dict (self m) !! k)).
  { intros k Hk. unfold results_dict. rewrite add_out_lookup by exact Hout.
    destruct (decide _) as [Hin | _]; [| exact Hk].
    apply list_elem_of_fmap in Hin as (i & -> & Hi). apply Hout, Hi. }
  rewrite bind_eq, !modify_bind. fold m2.
  rewrite get_self_bind, bind_eq, Hloop, modify_bind.
  rewrite bind_eq, pop_supported_plot_inr
    by (cbn [upd self supported_plot set_supported_plot]; rewrite Hres; apply Hall, Hfs).
  rewrite pop_supported_plot_inr.
  - rewrite get_self_bind. eexists. split; [| split].
    + cbn [upd self res set_supported_plot]. rewrite Hres. reflexivity.
    + cbn [upd self res set_supported_plot]. exact Hres.
    + cbn [upd self res set_supported_plot supported_plot]. rewrite Hres.
      reflexivity.
  - cbn [upd self supported_plot set_supported_plot]. rewrite Hres.
    rewrite lookup_delete_ne by discriminate. apply Hall, Hrf.
Qed.

(** What [results] needs of the engine, in every state of an engine of the
    constructor. *)
Lemma results_ready (fs : list (value array)) (imu_ : imu_cfg array)
    (waypoints : array) (mode env : pyarg array)
    (alg : option (algorithm array world)) (s0 : Sim) (m : machine) :
  Sim_init fs imu_ waypoints mode env alg = inr s0 ->
  config (self m) = config s0 ->
  (forall i, i ∈ match algo (self m) with Some a => output a | None => [] end ->
             is_Some (supported_out (self m) !! KStr i))
  /\ is_Some ((supported_in_varying (self m) ∪ supported_in_constant (self m))
                !! KStr "fs")
  /\ is_Some ((supported_in_varying (self m) ∪ supported_in_constant (self m))
                !! KStr "ref_frame").
Proof.
  intros Hinit Hcfg.
  destruct (Sim_init_inr _ _ _ _ _ _ _ Hinit)
    as (fs0 & _ & _ & _ & _ & _ & Hsic & Hsiv & Hso & _ & _ & _ & Halg & Hparse).
  destruct (init_registry_data fs0 imu_) as (Dc & Dv & Do).
  rewrite Dc in Hsic. rewrite Dv in Hsiv. rewrite Do in Hso.
  destruct (config_registry _ _ Hcfg) as (Rc & Rv & Ro).
  pose proof (config_algo _ _ Hcfg) as Ra. rewrite Halg in Ra.
  destruct (constant_has_fs imu_) as (Hfs & Hrf & _ & _).
  split; [| split].
  - intros i Hi. rewrite Ra in Hi. rewrite Ro. destruct alg as [a |]; [| inversion Hi].
    destruct Hparse as [_ Hpo]. apply parse_out_Some in Hpo as [_ Hall].
    apply str_in_true, Hall, Hi.
  - rewrite Rc, Rv, Hsic, Hsiv. exists "sample frequency of imu".
    apply inputs_union. left. exact Hfs.
  - rewrite Rc, Rv, Hsic, Hsiv. exists "reference frame".
    apply inputs_union. left. exact Hrf.
Qed.

(** X14.  [results] in a completed engine of the constructor returns the
    dictionary of the supported inputs and declared outputs and stores it
    in [res]; [supported_plot] becomes that dictionary without the keys
    ['fs'] and ['ref_frame'].  Nothing else changes: the configuration,
    the containers, the flag and the trial count are as before, no
    collaborator is called and nothing is printed.  A second call returns
    the same dictionary and leaves the state as the first call has left
    it. *)
Theorem results_builds_both_dictionaries (fs : list (value array))
    (imu_ : imu_cfg array) (waypoints : array) (mode env : pyarg array)
    (alg : option (algorithm array world)) (s0 : Sim) (m : machine) :
  Sim_init fs imu_ waypoints mode env alg = inr s0 ->
  config (self m) = config s0 ->
  sim_complete (self m) = true ->
  exists d m',
    results m = (inr d, m')
    /\ d = results_dict (self m)
    /\ res (self m') = d
    /\ supported_plot (self m') = delete (KStr "ref_frame") (delete (KStr "fs") d)
    /\ config (self m') = config (self m)
    /\ attr (self m') = attr (self m)
    /\ sim_complete (self m') = true
    /\ sim_count (self m') = sim_count (self m)
    /\ ext m' = ext m /\ console m' = console m
    /\ results m' = (inr d, m').
Proof.
  intros Hinit Hcfg Hdone.
  destruct (results_ready _ _ _ _ _ _ _ m Hinit Hcfg) as (Hout & Hfs & Hrf).
  destruct (results_complete_state m Hdone Hout Hfs Hrf) as (m' & Hres & Hr & Hp).
  pose proof (results_keeps_the_rest m) as (Kc & Ka & Kf & Kn).
  pose proof (quiet_results m) as (Qe & Qc).
  rewrite Hres in Kc, Ka, Kf, Kn, Qe, Qc. cbn [snd] in Kc, Ka, Kf, Kn, Qe, Qc.
  exists (results_dict (self m)), m'.
  split; [exact Hres |]. split; [reflexivity |]. split; [exact Hr |].
  split; [exact Hp |]. split; [exact Kc |]. split; [exact Ka |].
  split; [congruence |]. split; [exact Kn |]. split; [exact Qe |].
  split; [exact Qc |].
  assert (Hcfg' : config (self m') = config s0) by congruence.
  assert (Hdone' : sim_complete (self m') = true) by congruence.
  destruct (results_ready _ _ _ _ _ _ _ m' Hinit Hcfg') as (Hout' & Hfs' & Hrf').
  destruct (results_complete_state m' Hdone' Hout' Hfs' Hrf')
    as (m'' & Hres' & Hr' & Hp').
  rewrite (results_dict_config _ _ Kc) in Hres', Hr', Hp'.
  rewrite Hres'. f_equal.
  pose proof (results_keeps_the_rest m') as (Kc' & Ka' & Kf' & Kn').
  pose proof (quiet_results m') as (Qe' & Qc').
  rewrite Hres' in Kc', Ka', Kf', Kn', Qe', Qc'.
  cbn [snd] in Kc', Ka', Kf', Kn', Qe', Qc'.
  apply machine_eq; congruence.
Qed.

(** ** What [plot] does to the state *)

#[local] Abbreviation appends c := (@appends array world _ c).

Lemma appends_ret {A : Type} (a : A) : appends (mret a).
Proof. intros m. exists []. symmetry. apply printed_nil. Qed.

Lemma appends_raise {A : Type} (e : exn) : appends (raise (A := A) e).
Proof. intros m. exists []. symmetry. apply printed_nil. Qed.

Lemma appends_lift {A : Type} (r : exn + A) : appends (lift r).
Proof. intros m. exists []. symmetry. apply printed_nil. Qed.

Lemma appends_get_self : appends get_self.
Proof. intros m. exists []. symmetry. apply printed_nil. Qed.

Lemma appends_emit (e : event array) : appends (emit e).
Proof. intros m. exists [e]. reflexivity. Qed.

Lemma appends_getattr (i : string) : appends (getattr i).
Proof.
  unfold getattr. destruct (Attr.of_ident i); [apply appends_ret | apply appends_raise].
Qed.

Lemma appends_bind {A B : Type} (c : M A) (k : A -> M B) :
  appends c -> (forall a, appends (k a)) -> appends (c ≫= k).
Proof.
  intros Hc Hk m. rewrite bind_eq. destruct (Hc m) as [es1 H1].
  destruct (c m) as [[e | a] m1]; cbn [snd] in *; [eauto |].
  destruct (Hk a m1) as [es2 H2]. exists (es1 ++ es2)%list.
  rewrite H2, H1. apply printed_app.
Qed.

Lemma appends_for_each {A : Type} (l : list A) (body : A -> M unit) :
  (forall x, appends (body x)) -> appends (for_each l body).
Proof.
  intros Hb. induction l as [| x l IH]; cbn [for_each].
  - apply appends_ret.
  - apply appends_bind; [apply Hb | intros _; exact IH].
Qed.

Ltac appends_step :=
  match goal with
  | |- appends (mbind _ _) => apply appends_bind; [| intros ?]
  | |- appends (mret _) => apply appends_ret
  | |- appends (raise _) => apply appends_raise
  | |- appends (lift _) => apply appends_lift
  | |- appends get_self => apply appends_get_self
  | |- appends (emit _) => apply appends_emit
  | |- appends (for_each _ _) => apply appends_for_each; intros ?
  | |- appends (getattr _) => apply appends_getattr
  | |- appends (if ?b then _ else _) => destruct b
  | |- appends (match ?x with _ => _ end) => destruct x
  end.

Lemma appends_check_idx (mutable : bool) (i : nat) (l : list num) :
  appends (check_idx mutable i l).
Proof.
  revert i. induction l as [| x l IH]; intros i; cbn [check_idx];
    repeat appends_step. apply IH.
Qed.

Lemma appends_plot_in_one_figure (x y : payload array)
    (lx ly : bool) (title : string) (k : option Z) (g : string)
    (lg : option (list string)) :
  appends (plot_in_one_figure x y lx ly title k g lg).
Proof. unfold plot_in_one_figure. repeat appends_step. Qed.

Lemma appends_Sim_data_plot (a : Attr.t) (x : payload array) (key : option (list Z)) :
  appends (Sim_data_plot a x key).
Proof.
  unfold Sim_data_plot, plot_dict, plot_array.
  repeat first [apply appends_plot_in_one_figure | appends_step].
Qed.

Lemma appends_plot_one (idx : list Z) (i : string) : appends (plot_one idx i).
Proof.
  unfold plot_one. repeat first [apply appends_Sim_data_plot | appends_step].
Qed.


(** ** Names that are not plotted *)

Lemma plot_one_unsupported (idx : list Z) (i : string) (m : machine) :
  supported_plot (self m) !! KStr i = None ->
  plot_one idx i m = (inr tt, printed [Print_unsupported i] m).
Proof.
  intros Hi. unfold plot_one. rewrite get_self_bind.
  rewrite (proj2 (str_in_false _ _) Hi). reflexivity.
Qed.

Lemma for_each_unsupported (idx : list Z) (what : list string) (m : machine) :
  (forall i, i ∈ what -> supported_plot (self m) !! KStr i = None) ->
  for_each what (plot_one idx) m
  = (inr tt, printed (List.map Print_unsupported what) m).
Proof.
  revert m. induction what as [| i what IH]; intros m Hall.
  - cbn. rewrite printed_nil. reflexivity.
  - cbn [for_each List.map].
    rewrite (bind_inr _ _ _ _ _ (plot_one_unsupported idx i m (Hall i ltac:(left)))).
    rewrite IH by (intros j Hj; apply Hall; right; exact Hj).
    rewrite printed_app. reflexivity.
Qed.

(** X16.  [plot] does not call [results]: in the engine the constructor
    has returned, before any call of [results], also after calls of
    [run], [supported_plot] is empty, and [plot] draws nothing.  For a
    selector that is no tuple it prints the lines of the indices out of
    range, then ['Unsupported plot: <name>.'] for every name asked for,
    in order, calls [plt.show()] and returns. *)
Theorem plot_before_results_draws_nothing (fs : list (value array))
    (imu_ : imu_cfg array) (waypoints : array) (mode env : pyarg array)
    (alg : option (algorithm array world)) (s0 : Sim)
    (what : list string) (sim_idx : option selector) (vs : list Z) (m : machine) :
  Sim_init fs imu_ waypoints mode env alg = inr s0 ->
  self m = s0
  \/ (exists w c runs,
        m = foldl (fun m n => snd (run n m))
                  {| self := s0; ext := w; console := c |} runs) ->
  is_tuple sim_idx = false ->
  selected (sim_count (self m)) sim_idx = inr vs ->
  supported_plot (self m) = ∅
  /\ plot what sim_idx m
     = (inr tt,
        printed (warnings (sim_count (self m)) 0 vs
                 ++ List.map Print_unsupported what ++ [Show]) m).
Proof.
  intros Hinit Hm Htuple Hsel.
  destruct (Sim_init_inr _ _ _ _ _ _ _ Hinit)
    as (fs0 & _ & _ & _ & _ & _ & _ & _ & _ & _ & Hplot0 & _).
  assert (Hempty : supported_plot (self m) = ∅).
  { clear Hsel. destruct Hm as [-> | (w & c & runs & ->)]; [exact Hplot0 |].
    induction runs as [| n runs IH] using rev_ind; [exact Hplot0 |].
    rewrite foldl_app. cbn [foldl].
    destruct (run_results n (foldl (fun m n => snd (run n m))
                {| self := s0; ext := w; console := c |} runs)) as [_ Hp].
    rewrite Hp. exact IH. }
  split; [exact Hempty |].
  rewrite (plot_resolved what sim_idx vs m Htuple Hsel).
  rewrite bind_eq, for_each_unsupported.
  - unfold emit. cbn [printed self ext console].
    rewrite <- !app_assoc. reflexivity.
  - intros i _. cbn [printed self]. rewrite Hempty. apply lookup_empty.
Qed.

(** ** What can be plotted after [results] *)

(** The entries of the dictionary of [results] in an engine of the
    constructor. *)
Lemma results_dict_lookup (fs : list (value array)) (imu_ : imu_cfg array)
    (waypoints : array) (mode env : pyarg array)
    (alg : option (algorithm array world)) (s0 : Sim) (s : Sim) (k : key)
    (v : string) :
  Sim_init fs imu_ waypoints mode env alg = inr s0 ->
  config s = config s0 ->
  results_dict s !! k = Some v <->
  supported_in_constant s0 !! k = Some v
  \/ supported_in_varying s0 !! k = Some v
  \/ exists a i, alg = Some a /\ i ∈ output a /\ k = KStr i
                 /\ supported_out s0 !! k = Some v.
Proof.
  intros Hinit Hcfg.
  destruct (Sim_init_inr _ _ _ _ _ _ _ Hinit)
    as (fs0 & _ & _ & _ & _ & _ & Hsic & Hsiv & Hso & _ & _ & _ & Halg & Hparse).
  destruct (init_registry_data fs0 imu_) as (Dc & Dv & Do).
  rewrite Dc in Hsic. rewrite Dv in Hsiv. rewrite Do in Hso.
  destruct (config_registry _ _ Hcfg) as (Rc & Rv & Ro).
  pose proof (config_algo _ _ Hcfg) as Ra. rewrite Halg in Ra.
  assert (Hout : forall i,
    i ∈ match algo s with Some a => output a | None => [] end ->
    is_Some (supported_out s !! KStr i)).
  { intros i Hi. rewrite Ra in Hi. rewrite Ro. destruct alg as [a |]; [| inversion Hi].
    destruct Hparse as [_ Hpo]. apply parse_out_Some in Hpo as [_ Hall].
    apply str_in_true, Hall, Hi. }
  unfold results_dict. rewrite add_out_lookup by exact Hout.
  rewrite Ra, Rc, Rv, Ro, Hsic, Hsiv, Hso.
  destruct (decide _) as [Hin | Hnin].
  - apply list_elem_of_fmap in Hin as (i & -> & Hi).
    destruct alg as [a |]; [| inversion Hi].
    split.
    + intros Hv. right. right. exists a, i. auto.
    + intros [Hc | [Hv | (a' & i' & _ & _ & _ & Hv)]]; [| | exact Hv].
      * destruct (output_not_input imu_ (KStr i)) as [Hn _]; [| congruence].
        rewrite <- Hso, <- Ro. apply Hout. rewrite Ra. exact Hi.
      * destruct (output_not_input imu_ (KStr i)) as [_ Hn]; [| congruence].
        rewrite <- Hso, <- Ro. apply Hout. rewrite Ra. exact Hi.
  - rewrite inputs_union. split.
    + intros [Hc | Hv]; auto.
    + intros [Hc | [Hv | (a & i & -> & Hi & -> & _)]]; auto.
      exfalso. apply Hnin. apply list_elem_of_fmap. exists i. auto.
Qed.

Lemma not_constant_names (imu_ : imu_cfg array) (n : string) :
  n ∈ ["time"; "gps_time"] ->
  init_supported_in_constant new_attr imu_ !! KStr n = None
  /\ init_supported_in_varying new_attr imu_ !! KStr n = None
  /\ init_supported_out (array := array) new_attr !! KStr n = None.
Proof.
  unfold init_supported_in_constant, init_supported_in_varying.
  intros Hn. repeat (apply elem_of_cons in Hn as [-> | Hn]); [.. | inversion Hn];
    destruct (imu_gps imu_), (imu_magnetometer imu_); repeat split;
    vm_compute; reflexivity.
Qed.

(** The keys of [supported_plot] after [results] in a completed engine
    of the constructor. *)
Lemma supported_plot_keys (fs : list (value array))
    (imu_ : imu_cfg array) (waypoints : array) (mode env : pyarg array)
    (alg : option (algorithm array world)) (s0 : Sim) (m m' : machine)
    (d : gmap key string) (n : string) :
  Sim_init fs imu_ waypoints mode env alg = inr s0 ->
  config (self m) = config s0 ->
  sim_complete (self m) = true ->
  results m = (inr d, m') ->
  is_Some (supported_plot (self m') !! KStr n) <->
  n <> "fs" /\ n <> "ref_frame"
  /\ (is_Some (supported_in_constant s0 !! KStr n)
      \/ is_Some (supported_in_varying s0 !! KStr n)
      \/ n ∈ match alg with Some a => output a | None => [] end).
Proof.
  intros Hinit Hcfg Hdone Hres.
  destruct (results_ready _ _ _ _ _ _ _ m Hinit Hcfg) as (Hout & Hfs & Hrf).
  destruct (results_complete_state m Hdone Hout Hfs Hrf) as (m2 & Hres2 & _ & Hp).
  rewrite Hres in Hres2. injection Hres2 as -> <-.
  destruct (Sim_init_inr _ _ _ _ _ _ _ Hinit)
    as (fs0 & _ & _ & _ & _ & _ & _ & _ & _ & _ & _ & _ & _ & Hparse).
  rewrite Hp. unfold is_Some.
  setoid_rewrite lookup_delete_Some. setoid_rewrite lookup_delete_Some.
  setoid_rewrite (results_dict_lookup _ _ _ _ _ _ _ (self m) (KStr n) _ Hinit Hcfg).
  split.
  - intros (v & Hrf' & Hfs' & Hv). split; [congruence |]. split; [congruence |].
    destruct Hv as [Hc | [Hv | (a & i & -> & Hi & [= <-] & _)]]; eauto.
  - intros (Nfs & Nrf & [[v Hc] | [[v Hv] | Hi]]).
    + exists v. split; [congruence |]. split; [congruence |]. auto.
    + exists v. split; [congruence |]. split; [congruence |]. auto.
    + destruct alg as [a |]; [| inversion Hi].
      destruct Hparse as [_ Hpo]. apply parse_out_Some in Hpo as [_ Hall].
      destruct (proj1 (str_in_true _ _) (Hall n Hi)) as [v Hv].
      exists v. split; [congruence |]. split; [congruence |].
      right. right. exists a, n. auto.
Qed.

(** X17.  After [results] in a completed engine of the constructor, a
    name is a key of [supported_plot] exactly when it is neither ['fs']
    nor ['ref_frame'] and is a key of one of the dictionaries of inputs
    or a declared output.  For every other name [plot] prints
    ['Unsupported plot: <name>.'] and draws nothing: so for ['fs'] and
    ['ref_frame'], for ['time'] and ['gps_time'] (no key of any
    dictionary), for a sensor that is disabled and for an output the
    algorithm does not declare. *)
Theorem what_can_be_plotted (fs : list (value array))
    (imu_ : imu_cfg array) (waypoints : array) (mode env : pyarg array)
    (alg : option (algorithm array world)) (s0 : Sim) (m m' : machine)
    (d : gmap key string) :
  Sim_init fs imu_ waypoints mode env alg = inr s0 ->
  config (self m) = config s0 ->
  sim_complete (self m) = true ->
  results m = (inr d, m') ->
  (forall n,
     is_Some (supported_plot (self m') !! KStr n) <->
     n <> "fs" /\ n <> "ref_frame"
     /\ (is_Some (supported_in_constant s0 !! KStr n)
         \/ is_Some (supported_in_varying s0 !! KStr n)
         \/ n ∈ match alg with Some a => output a | None => [] end))
  /\ (forall n idx,
        n ∈ ["fs"; "ref_frame"; "time"; "gps_time"]
        \/ (supported_in_constant s0 !! KStr n = None
            /\ supported_in_varying s0 !! KStr n = None
            /\ n ∉ match alg with Some a => output a | None => [] end) ->
        plot_one idx n m' = (inr tt, printed [Print_unsupported n] m')).
Proof.
  intros Hinit Hcfg Hdone Hres.
  pose proof (fun n => supported_plot_keys _ _ _ _ _ _ _ m m' d n Hinit Hcfg Hdone Hres)
    as Hkeys.
  destruct (Sim_init_inr _ _ _ _ _ _ _ Hinit)
    as (fs0 & _ & _ & _ & _ & _ & Hsic & Hsiv & Hso & _ & _ & _ & Halg & Hparse).
  destruct (init_registry_data fs0 imu_) as (Dc & Dv & Do).
  rewrite Dc in Hsic. rewrite Dv in Hsiv. rewrite Do in Hso.
  split; [exact Hkeys |].
  intros n idx Hn. apply plot_one_unsupported.
  apply eq_None_not_Some. rewrite Hkeys. intros (Nfs & Nrf & Hcase).
  destruct Hn as [Hn | (Hc & Hv & Hi)].
  - repeat (apply elem_of_cons in Hn as [-> | Hn]); [.. | inversion Hn];
      try congruence.
    + destruct (not_constant_names imu_ "time") as (N1 & N2 & N3);
        [apply list_elem_of_In; cbn [In]; tauto |].
      rewrite Hsic, Hsiv, N1, N2 in Hcase.
      destruct Hcase as [[v Hx] | [[v Hx] | Hi]]; try discriminate.
      destruct alg as [a |]; [| inversion Hi].
      destruct Hparse as [_ Hpo]. apply parse_out_Some in Hpo as [_ Hall].
      apply Hall, str_in_true in Hi. rewrite Hso, N3 in Hi.
      destruct Hi as [v Hx]. discriminate.
    + destruct (not_constant_names imu_ "gps_time") as (N1 & N2 & N3);
        [apply list_elem_of_In; cbn [In]; tauto |].
      rewrite Hsic, Hsiv, N1, N2 in Hcase.
      destruct Hcase as [[v Hx] | [[v Hx] | Hi]]; try discriminate.
      destruct alg as [a |]; [| inversion Hi].
      destruct Hparse as [_ Hpo]. apply parse_out_Some in Hpo as [_ Hall].
      apply Hall, str_in_true in Hi. rewrite Hso, N3 in Hi.
      destruct Hi as [v Hx]. discriminate.
  - rewrite Hc, Hv in Hcase.
    destruct Hcase as [[v Hx] | [[v Hx] | Hi']]; try discriminate. contradiction.
Qed.

(** ** Keys without data *)

(** X18.  [Sim_data.plot_dict] draws the keys in order and stops at the
    first one that fails, whatever keys follow.  With the keys before it
    present, of one or two dimensions and drawn by matplotlib over [x],
    their figures are drawn; then a key the dict does not hold raises
    [KeyError] at line 419 or 421, and a key whose array the [try] block of
    [plot_in_one_figure] does not draw over the array [x] leaves its empty
    figure and the two shapes on the console and raises the [ValueError]
    of line 481. *)
Theorem plot_dict_stops_at_a_missing_key (a : Attr.t) (x : payload array)
    (before after : list Z) (k : Z) (d : gmap Z (value array)) (m : machine) :
  data (attr (self m) a) = PDict d ->
  (forall i, i ∈ before -> exists v, d !! i = Some v
     /\ let y := match pre_func (attr (self m) a) with Some f => f v | None => v end in
        (ndim y = Some 1%nat \/ ndim y = Some 2%nat)
        /\ lines_drawn x y (logx (attr (self m) a)) (logy (attr (self m) a)) = true) ->
  (d !! k = None ->
   plot_dict a x (Some (before ++ k :: after)%list) m
   = (inl KeyError, printed (figures (attr (self m) a) x d before) m))
  /\ (forall xa v ya,
        x = PVal (VArr xa) -> d !! k = Some v ->
        match pre_func (attr (self m) a) with Some f => f v | None => v end = VArr ya ->
        ~ (ndim (VArr ya) = Some 1%nat \/ ndim (VArr ya) = Some 2%nat)
        \/ lines_drawn x (VArr ya) (logx (attr (self m) a)) (logy (attr (self m) a))
           = false ->
        plot_dict a x (Some (before ++ k :: after)%list) m
        = (inl (ValueError "Check input data y."),
           printed (figures (attr (self m) a) x d before
                    ++ [Figure (name (attr (self m) a)) (Some k);
                        Print_shape (shape xa); Print_shape (shape ya)]) m)).
Proof.
  intros Hd Hall.
  pose proof (plot_dict_ok a x before d m Hd Hall) as Hbefore.
  unfold plot_dict in *. split.
  - intros Hk. rewrite for_each_app.
    rewrite (bind_inr _ _ _ _ _ Hbefore).
    cbn [for_each]. rewrite bind_eq, get_self_bind.
    cbn [printed self]. rewrite Hd. unfold dict_getitem. rewrite Hk. reflexivity.
  - intros xa v ya -> Hk Hy Hbad. rewrite for_each_app.
    rewrite (bind_inr _ _ _ _ _ Hbefore).
    cbn [for_each]. rewrite bind_eq, get_self_bind.
    cbn [printed self]. rewrite Hd. unfold dict_getitem. rewrite Hk.
    unfold lift at 1. rewrite bind_eq. cbn [M_bind]. rewrite Hy.
    rewrite (plot_in_one_figure_fails xa ya _ _ _ _ _ _ _ Hbad).
    fold (printed (figures (attr (self m) a) (PVal (VArr xa)) d before) m).
    rewrite printed_app. reflexivity.
Qed.

Lemma state_props_name (s0 s : Sim) (fs0 : value array) (a : Attr.t) :
  attr s0 = init_attr fs0 ->
  (forall b, props (attr s b) = props (attr s0 b)) ->
  name (attr s a) = Attr.ident a.
Proof.
  intros Hattr Hp. rewrite (props_name _ _ (Hp a)), Hattr.
  rewrite (props_name _ _ (init_attr_props fs0 a)). apply new_attr_name.
Qed.

(** X19.  The Allan variance is plotted against [av_t.data[0]] (line
    326).  In an engine made with an algorithm that declares ['av_gyro']
    or ['av_accel'] but not ['av_t'], after a first [run] that returned
    and [results], that name is a key of [supported_plot] but the
    container [av_t] is empty: [plot] of a list that begins with the name
    raises [KeyError], before any figure and before [plt.show()]. *)
Theorem plot_of_allan_variance_needs_av_t (fs : list (value array))
    (imu_ : imu_cfg array) (waypoints : array) (mode env : pyarg array)
    (al : algorithm array world) (s0 : Sim) (w : world) (c : list (event array))
    (num_times : num) (m1 m2 : machine) (d : gmap key string)
    (n : string) (rest : list string) :
  Sim_init fs imu_ waypoints mode env (Some al) = inr s0 ->
  n ∈ ["av_gyro"; "av_accel"] ->
  n ∈ output al ->
  "av_t" ∉ output al ->
  run num_times {| self := s0; ext := w; console := c |} = (inr tt, m1) ->
  results m1 = (inr d, m2) ->
  data (attr (self m2) Attr.av_t) = PDict ∅
  /\ is_Some (supported_plot (self m2) !! KStr n)
  /\ plot (n :: rest) None m2 = (inl KeyError, m2).
Proof.
  intros Hinit Hn Hout Hnot Hrun Hres.
  set (m0 := {| self := s0; ext := w; console := c |}) in *.
  destruct (Sim_init_inr _ _ _ _ _ _ _ Hinit)
    as (fs0 & _ & _ & _ & Himu & Hattr & Hsic & Hsiv & _).
  destruct (init_registry_data fs0 imu_) as (Dc & Dv & _).
  rewrite Dc in Hsic. rewrite Dv in Hsiv.
  destruct (Sim_init_out_expr _ _ _ _ _ _ _ Hinit) as [Hoe Hnames].
  assert (Hcfg1 : config (self m1) = config s0).
  { apply (keeps_inv _ _ _ _ _ (run_config num_times) Hrun). }
  assert (Hdone : sim_complete (self m1) = true) by apply (run_inr_flag _ _ _ Hrun).
  pose proof (keeps_inv _ _ _ _ _ results_keeps_the_rest Hres) as (Kc & Ka & _ & _).
  (* the container [av_t] is never written *)
  assert (Hnw : Attr.av_t ∉ written (self m0)).
  { intros Hw. apply written_inv in Hw.
    destruct Hw as [(k & ix & Hr) | [Hx | [Hx | [[_ Hx] | [[_ Hx] | (n' & Hn' & Hid)]]]]];
      try discriminate.
    - apply ref_slices_attr in Hr. rewrite !list_elem_of_In in Hr. cbn [In] in Hr.
      intuition discriminate.
    - cbn [m0 self] in Hn'. rewrite Hoe in Hn'.
      apply Attr_of_ident_Some in Hid. subst n'. contradiction. }
  assert (Hav : data (attr (self m2) Attr.av_t) = PDict ∅).
  { rewrite Ka.
    pose proof (run_writes_only_its_containers_aux num_times m0 Attr.av_t Hnw) as Hd.
    rewrite Hrun in Hd. cbn [snd] in Hd. rewrite Hd. cbn [m0 self]. rewrite Hattr.
    apply init_attr_dicts. unfold per_trial. apply list_elem_of_In. cbn [In]. tauto. }
  assert (Hkey : is_Some (supported_plot (self m2) !! KStr n)).
  { apply (supported_plot_keys _ _ _ _ _ _ _ m1 m2 d n Hinit Hcfg1 Hdone Hres).
    split; [| split; [| right; right; exact Hout]].
    - intros ->. repeat (apply elem_of_cons in Hn as [Hn | Hn]); try discriminate.
      inversion Hn.
    - intros ->. repeat (apply elem_of_cons in Hn as [Hn | Hn]); try discriminate.
      inversion Hn. }
  split; [exact Hav |]. split; [exact Hkey |].
  (* the selector *)
  rewrite (plot_resolved (n :: rest) None (range (sim_count (self m2))) m2 eq_refl eq_refl).
  destruct (filter_range (sim_count (self m2))) as [-> ->].
  rewrite printed_nil.
  apply bind_inl. cbn [for_each]. apply bind_inl.
  (* the name *)
  assert (Hnames2 : forall a, name (attr (self m2) a) = Attr.ident a).
  { intros a. apply (state_props_name s0 _ fs0 a Hattr). intros b.
    rewrite Ka. apply (keeps_inv _ _ _ _ _ (run_props num_times) Hrun b). }
  assert (Hnc : supported_in_constant (self m2) !! KStr n = None).
  { destruct (config_registry (self m1) (self m2) Kc) as (-> & _ & _).
    destruct (config_registry _ _ Hcfg1) as (-> & _ & _). rewrite Hsic.
    apply constant_not_output. unfold out_names.
    repeat (apply elem_of_cons in Hn as [-> | Hn]); [.. | inversion Hn];
      apply list_elem_of_In; cbn [In]; tauto. }
  unfold plot_one. rewrite get_self_bind.
  rewrite (proj2 (str_in_true _ _) Hkey), (proj2 (str_in_false _ _) Hnc).
  rewrite !Hnames2, Hav.
  repeat (apply elem_of_cons in Hn as [-> | Hn]); [.. | inversion Hn]; reflexivity.
Qed.

(** ** The figures of the reference data *)

Lemma props_fields (c c' : Sim_data array) :
  props c = props c' ->
  name c = name c' /\ plottable c = plottable c' /\ logx c = logx c'
  /\ logy c = logy c' /\ grid c = grid c' /\ legend c = legend c'
  /\ pre_func c = pre_func c'.
Proof. unfold props. intros [= ]. auto 10. Qed.

Lemma ref_slice_constant (imu_ : imu_cfg array) (a : Attr.t) (k ix : string) :
  (a, k, ix) ∈ ref_slices (imu_gps imu_) (imu_magnetometer imu_) ->
  a <> Attr.time -> a <> Attr.gps_time ->
  is_Some (init_supported_in_constant new_attr imu_ !! KStr (Attr.ident a))
  /\ Attr.ident a <> "fs" /\ Attr.ident a <> "ref_frame"
  /\ plottable (new_attr (array := array) a) = true
  /\ logx (new_attr (array := array) a) = false
  /\ logy (new_attr (array := array) a) = false
  /\ grid (new_attr (array := array) a) = "on"
  /\ String.eqb (Attr.ident a) "gps_time" = false
  /\ String.eqb (Attr.ident a) "ref_gps" = bool_decide (a = Attr.ref_gps).
Proof.
  intros Ha Ht Hg. apply list_elem_of_In in Ha.
  unfold init_supported_in_constant.
  destruct (imu_gps imu_), (imu_magnetometer imu_); cbn in Ha;
    repeat (destruct Ha as [[= <- <- <-] | Ha]; [try contradiction |]);
    try (destruct Ha);
    (split; [vm_compute; eexists; reflexivity |]);
    repeat split; try discriminate; reflexivity.
Qed.

(** X20.  The reference data on the screen.  After a [run] that has
    returned and [results], in an engine of the constructor, [plot] of
    the name of a reference container other than [time] and [gps_time]
    draws one figure whatever the selector is: its title is the name,
    without a trial index; the data are the slice of the result of
    [path_gen] that [run] has stored, plotted over [gps_time.data] for
    ['ref_gps'] and over [time.data] for every other name, on linear
    axes, with the legend of the container and with the grid.  The lines
    are there when the slice has one or two dimensions and matplotlib
    draws it over the time base; otherwise the figure stays empty, the two
    shapes are printed and [plot] raises the [ValueError] of line 481. *)
Theorem plot_of_reference_data (fs : list (value array))
    (imu_ : imu_cfg array) (waypoints : array) (mode env : pyarg array)
    (alg : option (algorithm array world)) (s0 : Sim)
    (num_times : num) (m m1 m2 : machine) (d : gmap key string)
    (a : Attr.t) (k ix : string) (idx : list Z) :
  Sim_init fs imu_ waypoints mode env alg = inr s0 ->
  state_of s0 (self m) ->
  run num_times m = (inr tt, m1) ->
  results m1 = (inr d, m2) ->
  (a, k, ix) ∈ ref_slices (imu_gps imu_) (imu_magnetometer imu_) ->
  a <> Attr.time -> a <> Attr.gps_time ->
  exists x y,
    data (attr (self m2) (if bool_decide (a = Attr.ref_gps)
                          then Attr.gps_time else Attr.time)) = PVal (VArr x)
    /\ data (attr (self m2) a) = PVal (VArr y)
    /\ plot_one idx (Attr.ident a) m2
       = plot_in_one_figure (PVal (VArr x)) (PVal (VArr y)) false false
                            (Attr.ident a) None "on" (legend (new_attr a)) m2
    /\ (ndim (VArr y) = Some 1%nat \/ ndim (VArr y) = Some 2%nat ->
        lines_drawn (PVal (VArr x)) (VArr y) false false = true ->
        plot_one idx (Attr.ident a) m2
        = (inr tt,
           printed [Figure (Attr.ident a) None;
                    Lines (PVal (VArr x)) (VArr y) false false
                          (legend (new_attr a)) true] m2))
    /\ (~ (ndim (VArr y) = Some 1%nat \/ ndim (VArr y) = Some 2%nat)
        \/ lines_drawn (PVal (VArr x)) (VArr y) false false = false ->
        plot_one idx (Attr.ident a) m2
        = (inl (ValueError "Check input data y."),
           printed [Figure (Attr.ident a) None;
                    Print_shape (shape x); Print_shape (shape y)] m2)
        /\ forall rest sim_idx,
             resolve_sim_idx sim_idx m2 = (inr idx, m2) ->
             plot (Attr.ident a :: rest) sim_idx m2
             = (inl (ValueError "Check input data y."),
                printed [Figure (Attr.ident a) None;
                         Print_shape (shape x); Print_shape (shape y)] m2)).
Proof.
  intros Hinit (Hc & Hp & _) Hrun Hres Ha Ht Hg.
  destruct (Sim_init_inr _ _ _ _ _ _ _ Hinit)
    as (fs0 & _ & _ & _ & Himu & Hattr & Hsic & _).
  destruct (init_registry_data fs0 imu_) as (Dc & _ & _). rewrite Dc in Hsic.
  assert (Hcfg1 : config (self m1) = config s0).
  { rewrite <- Hc. apply (keeps_inv _ _ _ _ _ (run_config num_times) Hrun). }
  assert (Hdone : sim_complete (self m1) = true) by apply (run_inr_flag _ _ _ Hrun).
  pose proof (keeps_inv _ _ _ _ _ results_keeps_the_rest Hres) as (Kc & Ka & _ & _).
  assert (Hprops : forall b, props (attr (self m2) b) = props (new_attr b)).
  { intros b. rewrite Ka.
    rewrite (keeps_inv _ _ _ _ _ (run_props num_times) Hrun b), Hp, Hattr.
    apply init_attr_props. }
  (* the data [run] has stored *)
  assert (Himu0 : imu (self m) = imu_) by (rewrite (config_imu _ _ Hc); exact Himu).
  assert (Hdata : forall b kb ixb,
    (b, kb, ixb) ∈ ref_slices (imu_gps imu_) (imu_magnetometer imu_) ->
    exists z, data (attr (self m2) b) = PVal (VArr z)).
  { intros b kb ixb Hb. rewrite Ka.
    destruct (run_inr_inv _ _ _ Hrun) as (n0 & n1 & n2 & Hcount & Hgen & Hsim & ->).
    apply set_count_inr in Hcount as [z ->].
    apply gen_reference_inr in Hgen as (rtn & w & _ & _ & Hrefs).
    cbn [upd self imu set_sim_count] in Hrefs. rewrite Himu0 in Hrefs.
    destruct (Hrefs b kb ixb Hb) as (r & _ & Hd).
    eexists. apply (keeps_inv _ _ _ _ _ (simulate_val b _) Hsim), Hd. }
  destruct (ref_slice_constant imu_ a k ix Ha Ht Hg)
    as (Hkey & Nfs & Nrf & Pl & Lx & Ly & Gr & Egt & Erg).
  destruct (Hdata a k ix Ha) as [y Hy].
  assert (Hx : exists x,
    data (attr (self m2) (if bool_decide (a = Attr.ref_gps)
                          then Attr.gps_time else Attr.time)) = PVal (VArr x)).
  { destruct (bool_decide (a = Attr.ref_gps)) eqn:Hrg.
    - apply bool_decide_eq_true in Hrg. subst a.
      apply (Hdata Attr.gps_time "gps" "[:, 0]").
      apply list_elem_of_In in Ha. apply list_elem_of_In.
      destruct (imu_gps imu_), (imu_magnetometer imu_); cbn in Ha |- *;
        intuition congruence.
    - apply (Hdata Attr.time "nav" "[:, 0]"). unfold ref_slices.
      apply elem_of_app. left. left. }
  destruct Hx as [x Hx]. exists x, y.
  split; [exact Hx |]. split; [exact Hy |].
  assert (Hplot : plot_one idx (Attr.ident a) m2
       = plot_in_one_figure (PVal (VArr x)) (PVal (VArr y)) false false
                            (Attr.ident a) None "on" (legend (new_attr a)) m2).
  { assert (Hsp : is_Some (supported_plot (self m2) !! KStr (Attr.ident a))).
    { apply (supported_plot_keys _ _ _ _ _ _ _ m1 m2 d _ Hinit Hcfg1 Hdone Hres).
      split; [exact Nfs |]. split; [exact Nrf |]. left. rewrite Hsic. exact Hkey. }
    assert (Hcon : is_Some (supported_in_constant (self m2) !! KStr (Attr.ident a))).
    { destruct (config_registry (self m1) (self m2) Kc) as (-> & _ & _).
      destruct (config_registry _ _ Hcfg1) as (-> & _ & _). rewrite Hsic. exact Hkey. }
    unfold plot_one. rewrite get_self_bind.
    rewrite (proj2 (str_in_true _ _) Hsp), (proj2 (str_in_true _ _) Hcon).
    destruct (props_fields _ _ (Hprops Attr.ref_gps)) as (-> & _).
    destruct (props_fields _ _ (Hprops Attr.gps_time)) as (-> & _).
    rewrite !new_attr_name. cbn [Attr.ident].
    rewrite Egt, Erg, orb_false_r.
    unfold getattr. rewrite Attr_of_ident_ident, ret_bind.
    unfold Sim_data_plot. rewrite get_self_bind.
    destruct (props_fields _ _ (Hprops a)) as (Pn & Pp & Plx & Ply & Pg & Plg & _).
    rewrite Pp, Pl, Hy. unfold plot_array. rewrite get_self_bind, Hy.
    rewrite Pn, Plx, Ply, Pg, Plg, Lx, Ly, Gr, new_attr_name.
    destruct (bool_decide (a = Attr.ref_gps)); rewrite Hx; reflexivity. }
  split; [exact Hplot |]. split.
  - intros Hdim Hl. rewrite Hplot. apply plot_in_one_figure_ok; assumption.
  - intros Hbad.
    assert (Hone : plot_one idx (Attr.ident a) m2
        = (inl (ValueError "Check input data y."),
           printed [Figure (Attr.ident a) None;
                    Print_shape (shape x); Print_shape (shape y)] m2)).
    { rewrite Hplot. apply plot_in_one_figure_fails, Hbad. }
    split; [exact Hone |].
    intros rest sim_idx Hidx. unfold plot.
    rewrite (bind_inr _ _ _ _ _ Hidx). cbn [for_each].
    rewrite bind_eq, (bind_inl _ _ _ _ _ Hone). reflexivity.
Qed.

(** ** The values a trial stores *)

(** An item assignment that returns has stored the value and has changed
    nothing else. *)
Lemma assign_item_inr_frame (a : Attr.t) (i : Z) (v : value array) (m m' : machine) :
  assign_item a i v m = (inr tt, m') ->
  ext m' = ext m /\ console m' = console m
  /\ config (self m') = config (self m)
  /\ slot (self m') a i = Some v
  /\ (forall b, b <> a -> data (attr (self m') b) = data (attr (self m) b))
  /\ (forall b j, b <> a \/ j <> i -> slot (self m') b j = slot (self m) b j).
Proof.
  intros Hrun.
  pose proof (assign_item_inr _ _ _ _ _ Hrun) as Hslot.
  pose proof (keeps_inv _ _ _ _ _ (assign_item_config a i v) Hrun) as Hcfg.
  assert (Hio : ext m' = ext m /\ console m' = console m).
  { rewrite assign_item_eq in Hrun.
    destruct (data (attr (self m) a)); [| discriminate].
    injection Hrun as <-. split; reflexivity. }
  destruct Hio as [He Hc].
  split; [exact He |]. split; [exact Hc |]. split; [exact Hcfg |].
  split; [exact Hslot |]. split.
  - intros b Hb. apply (keeps_inv _ _ _ _ _ (assign_item_data a b i v Hb) Hrun).
  - intros b j Hne. apply (keeps_inv _ _ _ _ _ (assign_item_slot a b i j v Hne) Hrun).
Qed.

Lemma step_of_call (a : Attr.t) (i : Z) (v : value array) (m m' : machine)
    (w : world) :
  assign_item a i v {| self := self m; ext := w; console := console m |}
  = (inr tt, m') ->
  ext m' = w /\ slot (self m') a i = Some v /\ step_of a i m m'.
Proof.
  intros Hrun.
  destruct (assign_item_inr_frame _ _ _ _ _ Hrun) as (He & Hc & Hcfg & Hs & Hd & Ho).
  cbn [ext console self] in *. unfold step_of. auto 10.
Qed.

Lemma gen_accel_value (i : Z) (m m' : machine) :
  gen_accel i m = (inr tt, m') ->
  exists v,
    acc_gen (data (attr (self m) Attr.fs)) (data (attr (self m) Attr.ref_accel))
            (accel_err (imu (self m))) (vib_def (self m)) (ext m) = (inr v, ext m')
    /\ slot (self m') Attr.accel i = Some v
    /\ step_of Attr.accel i m m'.
Proof.
  unfold gen_accel. rewrite bind_eq. cbn [get_self]. rewrite bind_eq.
  unfold call.
  destruct (acc_gen _ _ _ _ (ext m)) as [[e | v] w] eqn:Hgen; [discriminate |].
  intros Ha. apply step_of_call in Ha as (-> & Hs & Hstep). eauto.
Qed.

Lemma gen_gyro_value (i : Z) (m m' : machine) :
  gen_gyro i m = (inr tt, m') ->
  exists v,
    gyro_gen (data (attr (self m) Attr.fs)) (data (attr (self m) Attr.ref_gyro))
             (gyro_err (imu (self m))) (ext m) = (inr v, ext m')
    /\ slot (self m') Attr.gyro i = Some v
    /\ step_of Attr.gyro i m m'.
Proof.
  unfold gen_gyro. rewrite bind_eq. cbn [get_self]. rewrite bind_eq.
  unfold call.
  destruct (gyro_gen _ _ _ (ext m)) as [[e | v] w] eqn:Hgen; [discriminate |].
  intros Ha. apply step_of_call in Ha as (-> & Hs & Hstep). eauto.
Qed.

Lemma step_of_refl (a : Attr.t) (i : Z) (m : machine) : step_of a i m m.
Proof. unfold step_of. auto. Qed.

Lemma gen_gps_value (i : Z) (m m' : machine) :
  gen_gps i m = (inr tt, m') ->
  (if imu_gps (imu (self m)) then
     exists v,
       gps_gen (data (attr (self m) Attr.ref_gps)) (gps_err (imu (self m)))
               (data (attr (self m) Attr.ref_frame)) (ext m) = (inr v, ext m')
       /\ slot (self m') Attr.gps i = Some v
   else ext m' = ext m)
  /\ step_of Attr.gps i m m'.
Proof.
  unfold gen_gps. rewrite bind_eq. cbn [get_self].
  destruct (imu_gps (imu (self m))).
  - rewrite bind_eq. unfold call.
    destruct (gps_gen _ _ _ (ext m)) as [[e | v] w] eqn:Hgen; [discriminate |].
    intros Ha. apply step_of_call in Ha as (-> & Hs & Hstep). eauto.
  - intros [= <-]. split; [reflexivity | apply step_of_refl].
Qed.

Lemma gen_mag_value (i : Z) (m m' : machine) :
  gen_mag i m = (inr tt, m') ->
  (if imu_magnetometer (imu (self m)) then
     exists v,
       mag_gen (data (attr (self m) Attr.ref_mag)) (mag_err (imu (self m)))
               (ext m) = (inr v, ext m')
       /\ slot (self m') Attr.mag i = Some v
   else ext m' = ext m)
  /\ step_of Attr.mag i m m'.
Proof.
  unfold gen_mag. rewrite bind_eq. cbn [get_self].
  destruct (imu_magnetometer (imu (self m))).
  - rewrite bind_eq. unfold call.
    destruct (mag_gen _ _ (ext m)) as [[e | v] w] eqn:Hgen; [discriminate |].
    intros Ha. apply step_of_call in Ha as (-> & Hs & Hstep). eauto.
  - intros [= <-]. split; [reflexivity | apply step_of_refl].
Qed.

(** The sensor data of a trial: the four generators are called in the
    order of the source, each in the world the one before has left, on
    the data of the state the trial starts in, and what each returns is
    stored at the index of the trial. *)
Lemma sensors_values (i : Z) (m m4 : machine) :
  sensors i m = (inr tt, m4) ->
  exists va w1 vg w2 w3,
    acc_gen (data (attr (self m) Attr.fs)) (data (attr (self m) Attr.ref_accel))
            (accel_err (imu (self m))) (vib_def (self m)) (ext m) = (inr va, w1)
    /\ gyro_gen (data (attr (self m) Attr.fs)) (data (attr (self m) Attr.ref_gyro))
                (gyro_err (imu (self m))) w1 = (inr vg, w2)
    /\ (if imu_gps (imu (self m)) then
          exists vp,
            gps_gen (data (attr (self m) Attr.ref_gps)) (gps_err (imu (self m)))
                    (data (attr (self m) Attr.ref_frame)) w2 = (inr vp, w3)
            /\ slot (self m4) Attr.gps i = Some vp
        else w3 = w2)
    /\ (if imu_magnetometer (imu (self m)) then
          exists vm,
            mag_gen (data (attr (self m) Attr.ref_mag)) (mag_err (imu (self m))) w3
            = (inr vm, ext m4)
            /\ slot (self m4) Attr.mag i = Some vm
        else ext m4 = w3)
    /\ slot (self m4) Attr.accel i = Some va
    /\ slot (self m4) Attr.gyro i = Some vg.
Proof.
  unfold sensors. intros Hrun.
  apply bind_inv_inr in Hrun as ([] & m1 & Hacc & Hrun).
  apply bind_inv_inr in Hrun as ([] & m2 & Hgyr & Hrun).
  apply bind_inv_inr in Hrun as ([] & m3 & Hgps & Hmag).
  apply gen_accel_value in Hacc as (va & Hva & Sa & (_ & C1 & D1 & O1)).
  apply gen_gyro_value in Hgyr as (vg & Hvg & Sg & (_ & C2 & D2 & O2)).
  apply gen_gps_value in Hgps as (Hvp & (_ & C3 & D3 & O3)).
  apply gen_mag_value in Hmag as (Hvm & (_ & C4 & D4 & O4)).
  pose proof (config_imu _ _ C1) as I1. pose proof (config_imu _ _ C2) as I2.
  pose proof (config_imu _ _ C3) as I3.
  exists va, (ext m1), vg, (ext m2), (ext m3).
  split; [exact Hva |].
  split.
  { rewrite I1, !D1 in Hvg by discriminate. exact Hvg. }
  split.
  { rewrite I2, I1, !D2, !D1 in Hvp by discriminate.
    destruct (imu_gps (imu (self m))); [| exact Hvp].
    destruct Hvp as (vp & Hvp & Sp). exists vp. split; [exact Hvp |].
    rewrite O4 by (left; discriminate). exact Sp. }
  split.
  { rewrite I3, I2, I1, !D3, !D2, !D1 in Hvm by discriminate. exact Hvm. }
  split.
  - rewrite O4, O3, O2 by (left; discriminate). exact Sa.
  - rewrite O4, O3 by (left; discriminate). exact Sg.
Qed.

(** An unpacked assignment that returns has stored each value at its
    target, the last value for a target named twice, and has changed no
    other entry. *)
Lemma assign_targets_values (i : Z) (targets : list string) :
  forall (vals : list (value array)) (m m' : machine),
    length vals = length targets ->
    assign_targets i targets vals m = (inr tt, m') ->
    ext m' = ext m
    /\ (forall a k, k <> i \/ Attr.ident a ∉ targets ->
          slot (self m') a k = slot (self m) a k)
    /\ (forall (j : nat) n v,
          targets !! j = Some n -> vals !! j = Some v ->
          (forall j' : nat, (j < j')%nat -> targets !! j' <> Some n) ->
          exists a, Attr.of_ident n = Some a /\ slot (self m') a i = Some v).
Proof.
  induction targets as [| t targets IH]; intros [| v0 vals] m m' Hlen;
    try discriminate.
  - intros [= <-]. split; [reflexivity |]. split; [reflexivity |].
    intros j n v Hj. destruct j; discriminate.
  - cbn [assign_targets]. unfold getattr.
    destruct (Attr.of_ident t) as [b |] eqn:Hb; [| discriminate].
    rewrite ret_bind. intros Hrun.
    apply bind_inv_inr in Hrun as ([] & m1 & Hitem & Hrest).
    destruct (assign_item_inr_frame _ _ _ _ _ Hitem) as (He1 & _ & _ & Hs1 & _ & O1).
    destruct (IH vals m1 m') as (He & Hother & Hpos);
      [cbn in Hlen; lia | exact Hrest |].
    pose proof (Attr_of_ident_Some t b Hb) as Hname.
    split; [congruence |]. split.
    + intros a k Hk. rewrite Hother.
      * apply O1. destruct Hk as [Hk | Hk]; [right; exact Hk | left].
        intros ->. apply Hk. rewrite <- Hname. left.
      * destruct Hk as [Hk | Hk]; [left; exact Hk | right].
        intros Hin. apply Hk. right. exact Hin.
    + intros j n v Hj Hv Hlast. destruct j as [| j].
      * cbn in Hj, Hv. injection Hj as <-. injection Hv as <-.
        exists b. split; [exact Hb |]. rewrite Hother; [exact Hs1 |].
        right. rewrite <- Hname. intros Hin.
        apply list_elem_of_lookup in Hin as [j' Hj'].
        apply (Hlast (S j')); [lia | exact Hj'].
      * cbn in Hj, Hv. apply (Hpos j n v Hj Hv).
        intros j' Hlt. apply (Hlast (S j')). lia.
Qed.

(** The step of the algorithm, when it returns. *)
Lemma run_algo_values (i : Z) (al : algorithm array world) (m m' : machine) :
  algo (self m) = Some al ->
  run_algo i m = (inr tt, m') ->
  exists args w5 vals,
    eval_in_expr i (algo_in_expr (self m)) m = (inr args, m)
    /\ algo_run al args (ext m) = (inr tt, w5)
    /\ get_results al w5 = (inr vals, ext m')
    /\ length vals = length (algo_out_expr (self m))
    /\ forall (j : nat) n v,
         algo_out_expr (self m) !! j = Some n -> vals !! j = Some v ->
         (forall j' : nat, (j < j')%nat -> algo_out_expr (self m) !! j' <> Some n) ->
         exists a, Attr.of_ident n = Some a /\ slot (self m') a i = Some v.
Proof.
  intros Hal. unfold run_algo. rewrite get_self_bind, Hal. intros Hrun.
  pose proof (eval_in_expr_snd i (algo_in_expr (self m)) m) as Hpure.
  apply bind_inv_inr in Hrun as (args & m1 & H1 & Hrun).
  rewrite H1 in Hpure. cbn [snd] in Hpure. subst m1.
  apply bind_inv_inr in Hrun as ([] & m2 & H2 & Hrun).
  apply bind_inv_inr in Hrun as (vals & m3 & H3 & Hrun).
  unfold call in H2.
  destruct (algo_run al args (ext m)) as [[e | []] w5] eqn:Hcall; [discriminate |].
  injection H2 as <-. unfold call in H3. cbn [ext self console] in H3.
  destruct (get_results al w5) as [[e | vals'] w6] eqn:Hres; [discriminate |].
  injection H3 as -> <-.
  rewrite get_self_bind in Hrun. cbn [self] in Hrun. unfold exec_out_expr in Hrun.
  destruct (decide (length vals = length (algo_out_expr (self m)))) as [Hlen | _];
    [| discriminate].
  destruct (assign_targets_values i _ vals _ _ Hlen Hrun) as (He & _ & Hpos).
  cbn [ext] in He. exists args, w5, vals.
  split; [exact H1 |]. split; [exact Hcall |]. split; [rewrite He; exact Hres |].
  split; [exact Hlen |]. exact Hpos.
Qed.

(** C8.  In an engine the constructor has returned, a [run] that returns
    leaves the entries of the sensor and output containers at keys
    outside [0, sim_count) as they were, whatever an earlier run has
    stored there.  The entry at a key [i] within the new count is the one
    trial [i] of this run has stored, whatever was there before: [accel]
    holds what [acc_gen] has returned in that trial, [gyro] what
    [gyro_gen] has returned, [gps] and [mag] what [gps_gen] and [mag_gen]
    have returned where the sensor is enabled, each generator called in
    the world the call before it has left; and the container of each
    declared output holds the value at its position in what
    [get_results] has returned after [algo.run] on the inputs of the
    trial. *)
Theorem rerun_overwrites_in_place (fs : list (value array)) (imu_ : imu_cfg array)
    (waypoints : array) (mode env : pyarg array)
    (alg : option (algorithm array world)) (s0 : Sim)
    (num_times : num) (m m' : machine) :
  Sim_init fs imu_ waypoints mode env alg = inr s0 ->
  config (self m) = config s0 ->
  run num_times m = (inr tt, m') ->
  let c := sim_count (self m') in
  1 <= c
  /\ (forall a i, a ∈ per_trial -> ~ (0 <= i < c) ->
        slot (self m') a i = slot (self m) a i)
  /\ (forall i, 0 <= i < c ->
        exists m1 mi m4 mi' va w1 vg w2 w3,
          (set_count num_times ≫= fun _ => gen_reference) m = (inr tt, m1)
          /\ for_each (range i) trial m1 = (inr tt, mi)
          /\ sensors i mi = (inr tt, m4)
          /\ trial i mi = (inr tt, mi')
          /\ (forall a, slot (self m') a i = slot (self mi') a i)
          /\ filled (self m') i
          /\ acc_gen (data (attr (self mi) Attr.fs))
                     (data (attr (self mi) Attr.ref_accel))
                     (accel_err imu_) (vib_def (self mi)) (ext mi)
             = (inr va, w1)
          /\ slot (self m') Attr.accel i = Some va
          /\ gyro_gen (data (attr (self mi) Attr.fs))
                      (data (attr (self mi) Attr.ref_gyro))
                      (gyro_err imu_) w1
             = (inr vg, w2)
          /\ slot (self m') Attr.gyro i = Some vg
          /\ (if imu_gps imu_ then
                exists vp,
                  gps_gen (data (attr (self mi) Attr.ref_gps)) (gps_err imu_)
                          (data (attr (self mi) Attr.ref_frame)) w2
                  = (inr vp, w3)
                  /\ slot (self m') Attr.gps i = Some vp
              else w3 = w2)
          /\ (if imu_magnetometer imu_ then
                exists vm,
                  mag_gen (data (attr (self mi) Attr.ref_mag)) (mag_err imu_) w3
                  = (inr vm, ext m4)
                  /\ slot (self m') Attr.mag i = Some vm
              else ext m4 = w3)
          /\ match alg with
             | None => mi' = m4
             | Some al =>
                 exists args w5 vals,
                   eval_in_expr i (algo_in_expr s0) m4 = (inr args, m4)
                   /\ algo_run al args (ext m4) = (inr tt, w5)
                   /\ get_results al w5 = (inr vals, ext mi')
                   /\ length vals = length (output al)
                   /\ forall (j : nat) n v,
                        output al !! j = Some n -> vals !! j = Some v ->
                        (forall j' : nat, (j < j')%nat -> output al !! j' <> Some n) ->
                        exists a, Attr.of_ident n = Some a
                          /\ slot (self m') a i = Some v
             end).
Proof.
  intros Hinit Hcfg Hrun c.
  destruct (run_inr_inv _ _ _ Hrun) as (m0 & m1 & m2 & Hcount & Hgen & Hsim & ->).
  pose proof (set_count_ge_1 _ _ _ Hcount) as Hge.
  pose proof (keeps_inv _ _ _ _ _ gen_reference_progress Hgen) as [_ P1].
  pose proof (keeps_inv _ _ _ _ _ simulate_progress Hsim) as [_ P2].
  assert (Hc : c = sim_count (self m1)) by (unfold c; cbn; congruence).
  assert (Hc0 : sim_count (self m0) = sim_count (self m1)) by congruence.
  clearbody c. subst c.
  pose proof (keeps_inv _ _ _ _ _ (set_count_config num_times) Hcount) as K0.
  pose proof (keeps_inv _ _ _ _ _ gen_reference_config Hgen) as K1.
  unfold simulate in Hsim. rewrite get_self_bind in Hsim.
  destruct (Sim_init_out_expr _ _ _ _ _ _ _ Hinit) as [Hoe Htargets].
  destruct (Sim_init_inr _ _ _ _ _ _ _ Hinit)
    as (fs0 & _ & _ & _ & Himu & _ & _ & _ & _ & _ & _ & _ & Halg & _).
  assert (Hcfg1 : config (self m1) = config s0).
  { unfold same_config in *. congruence. }
  split; [lia |]. split.
  - intros a i Ha Hi. cbn [upd self].
    change (slot (set_sim_complete true (self m2)) a i) with (slot (self m2) a i).
    assert (S2 : same_slot a i m1 m2).
    { refine (keeps_inv _ _ _ _ _ _ Hsim). apply (keeps_for_each _).
      intros j Hj. apply trial_slot. apply elem_of_range in Hj. lia. }
    pose proof (keeps_inv _ _ _ _ _ (gen_reference_slot a i Ha) Hgen) as S1.
    pose proof (keeps_inv _ _ _ _ _ (set_count_slot a i num_times) Hcount) as S0.
    unfold same_slot in *. congruence.
  - intros i Hi.
    destruct (for_each_range_inr trial _ i m1 m2 Hsim Hi)
      as (rest & mi & mi' & Hrest & Hpre & Hi' & Htail).
    assert (Ki : config (self mi) = config s0).
    { rewrite <- Hcfg1.
      apply (keeps_inv _ _ _ _ _ (keeps_for_each same_config _ trial
               (fun j _ => trial_config j)) Hpre). }
    assert (Kt : config (self m2) = config (self mi'))
      by apply (keeps_inv _ _ _ _ _ (keeps_for_each same_config _ trial
                  (fun j _ => trial_config j)) Htail).
    assert (Hsame : forall a, slot (self m2) a i = slot (self mi') a i).
    { intros a. refine (keeps_inv (same_slot a i) _ _ _ _ _ Htail).
      apply (keeps_for_each _). intros j Hj. apply trial_slot.
      apply Hrest in Hj. lia. }
    pose proof Hi' as Htrial. rewrite trial_eq in Htrial.
    apply bind_inv_inr in Htrial as ([] & m4 & Hsens & Halgo).
    assert (K4 : config (self m4) = config s0).
    { rewrite <- Ki. apply (keeps_inv _ _ _ _ _ (sensors_config i) Hsens). }
    destruct (config_exprs _ _ K4) as [Hie4 Hoe4].
    assert (Hnames4 : forall n, n ∈ algo_out_expr (self m4) -> n ∈ out_names).
    { intros n. rewrite Hoe4. apply Htargets. }
    assert (Hsensor : forall a, a ∈ [Attr.accel; Attr.gyro; Attr.gps; Attr.mag] ->
              slot (self m2) a i = slot (self m4) a i).
    { intros a Ha. rewrite Hsame.
      pose proof (run_algo_sensor_slot a i i m4 Hnames4 Ha) as S5.
      rewrite Halgo in S5. exact S5. }
    destruct (sensors_values i mi m4 Hsens)
      as (va & w1 & vg & w2 & w3 & Hva & Hvg & Hvp & Hvm & Sa & Sg).
    rewrite (config_imu _ _ Ki), Himu in Hva, Hvg, Hvp, Hvm.
    exists m1, mi, m4, mi', va, w1, vg, w2, w3.
    split; [rewrite (bind_inr _ _ _ _ _ Hcount); exact Hgen |].
    split; [exact Hpre |]. split; [exact Hsens |]. split; [exact Hi' |].
    cbn [upd self].
    change (slot (set_sim_complete true (self m2))) with (slot (self m2)).
    split; [exact Hsame |].
    split.
    { pose proof (trial_fills i mi mi' Hi') as (Fa & Fy & Fp & Fm).
      assert (Himu2 : imu (set_sim_complete true (self m2)) = imu (self mi')).
      { cbn. apply config_imu, Kt. }
      unfold filled. rewrite Himu2.
      change (slot (set_sim_complete true (self m2))) with (slot (self m2)).
      rewrite !Hsame. auto. }
    split; [exact Hva |].
    split; [rewrite Hsensor by (apply list_elem_of_In; cbn [In]; tauto); exact Sa |].
    split; [exact Hvg |].
    split; [rewrite Hsensor by (apply list_elem_of_In; cbn [In]; tauto); exact Sg |].
    split.
    { destruct (imu_gps imu_); [| exact Hvp].
      destruct Hvp as (vp & Hvp & Sp). exists vp. split; [exact Hvp |].
      rewrite Hsensor by (apply list_elem_of_In; cbn [In]; tauto). exact Sp. }
    split.
    { destruct (imu_magnetometer imu_); [| exact Hvm].
      destruct Hvm as (vm & Hvm & Sm). exists vm. split; [exact Hvm |].
      rewrite Hsensor by (apply list_elem_of_In; cbn [In]; tauto). exact Sm. }
    pose proof (config_algo _ _ K4) as Hal. rewrite Halg in Hal.
    destruct alg as [al |].
    + destruct (run_algo_values i al m4 mi' Hal Halgo)
        as (args & w5 & vals & Hargs & Hcall & Hres & Hlen & Hpos).
      rewrite Hoe4, Hoe in Hlen, Hpos. rewrite Hie4 in Hargs.
      exists args, w5, vals.
      split; [exact Hargs |]. split; [exact Hcall |]. split; [exact Hres |].
      split; [exact Hlen |].
      intros j n v Hj Hv Hlast. destruct (Hpos j n v Hj Hv Hlast) as (a & Ha & Hs).
      exists a. split; [exact Ha |]. rewrite Hsame. exact Hs.
    + unfold run_algo in Halgo. rewrite get_self_bind, Hal in Halgo.
      injection Halgo as <-. reflexivity.
Qed.

End Properties.

(** * The engine on the small collaborators *)

Lemma pair_of_fst {A : Type} (c : M A) (m : machine Z Z) (r : exn + A) :
  fst (c m) = r -> c m = (r, Demo.after c m).
Proof. unfold Demo.after. destruct (c m) as [r' m']. simpl. congruence. Qed.

Lemma returns_inr {A : Type} (r : exn + A) :
  returns r = true -> exists a, r = inr a.
Proof. destruct r as [e | a]; [discriminate | eauto]. Qed.

Lemma boot_constructed (gps magnetometer : bool) (a : option (algorithm Z Z)) :
  returns (Sim_init Demo.fs (Demo.imu_of gps magnetometer) Demo.waypoints
                    (AStr "flight") (AStr "2g_random") a) = true ->
  Sim_init Demo.fs (Demo.imu_of gps magnetometer) Demo.waypoints
           (AStr "flight") (AStr "2g_random") a
  = inr (self (Demo.boot gps magnetometer a)).
Proof.
  intros Hr. apply returns_inr in Hr as [s Hs].
  unfold Demo.boot, Demo.engine. rewrite Hs. reflexivity.
Qed.

Lemma sim0_constructed :
  Sim_init Demo.fs (Demo.imu_of true false) Demo.waypoints (AStr "flight")
           (AStr "2g_random") (Some (Demo.plugin 5)) = inr Demo.sim0.
Proof. apply boot_constructed. vm_compute. reflexivity. Qed.

Lemma m0_config : config (self Demo.m0) = config Demo.sim0.
Proof. reflexivity. Qed.

Lemma m0_run3_fst : fst (run (NInt 3) Demo.m0) = inr tt.
Proof. vm_compute. reflexivity. Qed.

Lemma m0_run3 : run (NInt 3) Demo.m0 = (inr tt, Demo.m3).
Proof. exact (pair_of_fst (run (NInt 3)) Demo.m0 (inr tt) m0_run3_fst). Qed.

Lemma m3_config : config (self Demo.m3) = config Demo.sim0.
Proof. exact (run_config (NInt 3) Demo.m0). Qed.

Lemma m3_complete : sim_complete (self Demo.m3) = true.
Proof. exact (run_inr_flag _ _ _ m0_run3). Qed.

(** C1 on an algorithm that declares the input ['unknown_sensor']. *)
Lemma unknown_sensor_is_rejected :
  "unknown_sensor" ∈ input Demo.bad_plugin
  /\ Sim_init Demo.fs (Demo.imu_of true false) Demo.waypoints (AStr "flight")
              (AStr "2g_random") (Some Demo.bad_plugin)
     = inl (ValueError check_msg).
Proof.
  assert (Hin : "unknown_sensor" ∈ input Demo.bad_plugin) by left.
  split; [exact Hin |].
  refine (proj2 (unknown_name_fails_construction Demo.fs (Demo.imu_of true false)
             Demo.waypoints (AStr "flight") (AStr "2g_random") Demo.bad_plugin _)
            _ (boot_constructed true false None _)).
  - left. exists "unknown_sensor".
    split; [exact Hin |]. split; vm_compute; reflexivity.
  - vm_compute. reflexivity.
Defined.

(** The key of the GPS time base in the engine with GPS (C2). *)
Lemma gps_time_is_no_key_of_the_demo_engine :
  imu_gps (Demo.imu_of true false) = true
  /\ supported_in_constant Demo.sim0 !! KObj Attr.gps_time = Some "GPS sample time"
  /\ supported_in_constant Demo.sim0 !! KStr "gps_time" = None.
Proof.
  split; [reflexivity |].
  destruct (gps_time_key_is_the_container _ _ _ _ _ _ _ sim0_constructed eq_refl)
    as (Hobj & Hstr & _).
  split; assumption.
Defined.

(** C3 on the engine with the algorithm whose output is ['att_euler']. *)
Lemma results_of_the_demo_engine :
  results (Demo.start Demo.sim0) = (inr ∅, Demo.start Demo.sim0)
  /\ exists d m2,
       results Demo.m3 = (inr d, m2)
       /\ d !! KStr "att_euler" = Some "sim att (Euler angles, ZYX)"
       /\ d !! KStr "gyro" = Some "gyro measurements"
       /\ d !! KStr "ref_pos" = Some "true pos"
       /\ d !! KStr "pos" = None.
Proof.
  destruct (results_before_and_after_run _ _ _ _ _ _ _ sim0_constructed)
    as [Hbefore Hafter].
  split; [exact (Hbefore 0 []) |].
  destruct (Hafter Demo.m0 Demo.m3 (NInt 3) m0_config m0_run3) as (d & m2 & Hres & Hd).
  exists d, m2. split; [exact Hres |].
  assert (Ho : supported_out Demo.sim0 !! KStr "att_euler"
               = Some "sim att (Euler angles, ZYX)") by (vm_compute; reflexivity).
  assert (Hv : supported_in_varying Demo.sim0 !! KStr "gyro"
               = Some "gyro measurements") by (vm_compute; reflexivity).
  assert (Hc : supported_in_constant Demo.sim0 !! KStr "ref_pos"
               = Some "true pos") by (vm_compute; reflexivity).
  assert (Hnc : supported_in_constant Demo.sim0 !! KStr "pos" = None)
    by (vm_compute; reflexivity).
  assert (Hnv : supported_in_varying Demo.sim0 !! KStr "pos" = None)
    by (vm_compute; reflexivity).
  split; [| split; [| split]].
  - apply (proj2 (Hd _ _)). right. right. exists (Demo.plugin 5), "att_euler".
    split; [reflexivity |]. split; [left |]. split; [reflexivity | exact Ho].
  - apply (proj2 (Hd _ _)). right. left. exact Hv.
  - apply (proj2 (Hd _ _)). left. exact Hc.
  - destruct (d !! KStr "pos") as [v |] eqn:Hpos; [| reflexivity]. exfalso.
    apply (proj1 (Hd _ _)) in Hpos.
    destruct Hpos as [Hc' | [Hv' | (a & i & Ha & Hi & Hk & _)]].
    + rewrite Hnc in Hc'. discriminate.
    + rewrite Hnv in Hv'. discriminate.
    + injection Ha as <-. injection Hk as <-.
      apply list_elem_of_singleton in Hi. discriminate.
Defined.

(** C4 on [run(-0.5)]. *)
Lemma run_of_minus_half_is_run_of_one :
  num_finite (NFloat Demo.minus_half)
  /\ num_lt_1 (NFloat Demo.minus_half)
  /\ set_count (NFloat Demo.minus_half) Demo.m0
     = (inr tt, upd (set_sim_count 1) Demo.m0)
  /\ run (NFloat Demo.minus_half) Demo.m0 = run (NInt 1) Demo.m0.
Proof.
  assert (Hfin : num_finite (NFloat Demo.minus_half)) by exact I.
  assert (Hlt : num_lt_1 (NFloat Demo.minus_half)) by exact I.
  destruct (proj2 (run_clamps_small_counts (NFloat Demo.minus_half) Demo.m0 Hfin) Hlt)
    as (Hcount & _ & Hrun).
  split; [exact Hfin |]. split; [exact Hlt |]. split; assumption.
Defined.

(** [run(float('-inf'))]: the argument is less than one, [int] raises
    [OverflowError], and [run(1)] returns. *)
Lemma run_of_minus_infinity_raises :
  num_lt_1 (NFloat (S754_infinity true))
  /\ fst (run (NFloat (S754_infinity true)) Demo.m0) = inl OverflowError
  /\ fst (run (NInt 1) Demo.m0) = inr tt.
Proof.
  split; [reflexivity |]. split; vm_compute; reflexivity.
Qed.

Lemma m3_reference_fst :
  fst ((set_count (NInt 3) ≫= fun _ => gen_reference) Demo.m3) = inr tt.
Proof. vm_compute. reflexivity. Qed.

Lemma m3_reference_count :
  sim_count (self (Demo.after (set_count (NInt 3) ≫= fun _ => gen_reference) Demo.m3))
  = 3.
Proof. vm_compute. reflexivity. Qed.

Lemma m3_trial_0_fst :
  fst (for_each (range 1) trial
         (Demo.after (set_count (NInt 3) ≫= fun _ => gen_reference) Demo.m3))
  = inr tt.
Proof. vm_compute. reflexivity. Qed.

Lemma m3_trial_1_fst :
  fst (trial 1 (Demo.after (for_each (range 1) trial)
         (Demo.after (set_count (NInt 3) ≫= fun _ => gen_reference) Demo.m3)))
  = inl (Raised "algorithm").
Proof. vm_compute. reflexivity. Qed.

(** C5 on a [run(3)] that has returned followed by a [run(3)] in which
    the algorithm raises in trial 1: the flag is set after the call that
    has raised. *)
Lemma failed_rerun_keeps_the_flag :
  run (NInt 3) Demo.m0 = (inr tt, Demo.m3)
  /\ sim_complete (self Demo.m3) = true
  /\ exists m1 mk m',
       (set_count (NInt 3) ≫= fun _ => gen_reference) Demo.m3 = (inr tt, m1)
       /\ for_each (range 1) trial m1 = (inr tt, mk)
       /\ trial 1 mk = (inl (Raised "algorithm"), m')
       /\ run (NInt 3) Demo.m3 = (inl (Raised "algorithm"), m')
       /\ sim_complete (self m') = true.
Proof.
  split; [exact m0_run3 |]. split; [exact m3_complete |].
  pose proof (pair_of_fst _ Demo.m3 _ m3_reference_fst) as Hpre.
  pose proof (pair_of_fst _ _ _ m3_trial_0_fst) as H0.
  pose proof (pair_of_fst _ _ _ m3_trial_1_fst) as H1.
  destruct (proj2 (run_flag_and_earlier_trials (NInt 3) Demo.m3) _ Hpre)
    as (_ & Hraise & _).
  destruct (Hraise 1 _ _ _ ltac:(rewrite m3_reference_count; lia) H0 H1)
    as (Hrun & Hflag & _).
  eexists _, _, _. split; [exact Hpre |]. split; [exact H0 |]. split; [exact H1 |].
  split; [exact Hrun |]. rewrite Hflag. exact m3_complete.
Defined.

Lemma ready_count : sim_count (self Demo.ready) = 3.
Proof. vm_compute. reflexivity. Qed.


(** C6 on [plot(['gyro'], (0, 3))] after [run(3)]. *)
Lemma plot_gyro_of_the_tuple_0_3_raises :
  py_int (NInt 0) = inr 0
  /\ plot ["gyro"] (Some (STuple [NInt 0; NInt 3])) Demo.ready
     = (inl (TypeError "'tuple' object does not support item assignment"),
        Demo.ready).
Proof.
  split; [reflexivity |].
  exact (proj2 (proj2 (plot_of_a_tuple_raises ["gyro"] (NInt 0) [NInt 3] 0
                         Demo.ready eq_refl))).
Defined.

(** C10 on [plot(['gyro'], 0.9)] after [run(3)]: trial 0 is drawn. *)
Lemma plot_gyro_of_trial_0_9 :
  1 <= sim_count (self Demo.ready)
  /\ resolve_sim_idx (Some (SNum (NFloat float_0_9))) Demo.ready = (inr [0], Demo.ready)
  /\ console (Demo.after (plot ["gyro"] (Some (SNum (NFloat float_0_9)))) Demo.ready)
     = [Figure "gyro" (Some 0);
        Lines (PVal (VArr 1)) (VArr 101) false false
              (Some ["gyro_x"; "gyro_y"; "gyro_z"]) true;
        Show].
Proof.
  assert (Hcount : 1 <= sim_count (self Demo.ready)) by (rewrite ready_count; lia).
  destruct (plot_truncates_float_indices ["gyro"] Demo.ready)
    as (_ & _ & _ & _ & Hnine).
  destruct (Hnine Hcount) as [Hres Hplot].
  split; [exact Hcount |]. split; [exact Hres |].
  unfold Demo.after. rewrite Hplot. vm_compute. reflexivity.
Defined.

(** C7 on a file of one row and on a file of two rows of nine numbers. *)
Lemma tables_of_one_and_of_two_rows :
  shape Demo.nine_entries = genfromtxt_shape 1 9
  /\ Sim_init Demo.fs (Demo.imu_of true false) Demo.nine_entries (AStr "flight")
              (AStr "2g_random") None = inl IndexError
  /\ shape Demo.waypoints = genfromtxt_shape 2 9
  /\ exists s, Sim_init Demo.fs (Demo.imu_of true false) Demo.waypoints
                        (AStr "flight") (AStr "2g_random") (Some (Demo.plugin 5))
               = inr s.
Proof.
  assert (H1 : shape Demo.nine_entries = genfromtxt_shape 1 9) by reflexivity.
  assert (H2 : shape Demo.waypoints = genfromtxt_shape 2 9) by reflexivity.
  assert (H9 : (1 <= 9)%nat) by lia.
  split; [exact H1 |]. split; [| split; [exact H2 |]].
  - refine (proj1 (proj2 (proj2 (trajectory_table_shape Demo.fs
              (Demo.imu_of true false) Demo.nine_entries (AStr "flight")
              (AStr "2g_random") None 1 9 H9 H1))) _ _).
    + discriminate.
    + left. reflexivity.
  - refine (proj2 (proj2 (proj2 (trajectory_table_shape Demo.fs
              (Demo.imu_of true false) Demo.waypoints (AStr "flight")
              (AStr "2g_random") (Some (Demo.plugin 5)) 2 9 H9 H2))) _ _ _ _ _ _).
    + split; [lia | reflexivity].
    + discriminate.
    + intros _. cbn. lia.
    + discriminate.
    + discriminate.
    + split; [discriminate |]. split; [discriminate |]. split.
      * intros n Hn. cbn [Demo.plugin input] in Hn.
        repeat (apply elem_of_cons in Hn as [-> | Hn]); [.. | inversion Hn].
        -- left. vm_compute. eexists. reflexivity.
        -- right. vm_compute. eexists. reflexivity.
        -- right. vm_compute. eexists. reflexivity.
      * intros n Hn. cbn [Demo.plugin output] in Hn.
        apply list_elem_of_singleton in Hn as ->.
        vm_compute. eexists. reflexivity.
Defined.

(** X2 on an array of nine entries. *)
Lemma array_of_nine_entries_raises_IndexError :
  shape Demo.nine_entries = [9%nat]
  /\ Sim_init Demo.fs (Demo.imu_of true false) Demo.nine_entries (AStr "flight")
              (AStr "2g_random") None = inl IndexError.
Proof.
  assert (Hshape : shape Demo.nine_entries = [9%nat]) by reflexivity.
  split; [exact Hshape |].
  refine (proj1 (one_dimensional_table Demo.fs (Demo.imu_of true false)
            Demo.nine_entries (AStr "flight") (AStr "2g_random") None 9 Hshape _) _).
  - discriminate.
  - lia.
Defined.

Lemma m3_run1_fst : fst (run (NInt 1) Demo.m3) = inr tt.
Proof. vm_compute. reflexivity. Qed.

Lemma m3_run1 :
  run (NInt 1) Demo.m3 = (inr tt, Demo.after (run (NInt 1)) Demo.m3).
Proof. exact (pair_of_fst (run (NInt 1)) Demo.m3 _ m3_run1_fst). Qed.

Lemma m3_run1_count : sim_count (self (Demo.after (run (NInt 1)) Demo.m3)) = 1.
Proof. vm_compute. reflexivity. Qed.

Lemma m3_gyro_slots :
  slot (self Demo.m3) Attr.gyro 0 = Some (VArr 101)
  /\ slot (self (Demo.after (run (NInt 1)) Demo.m3)) Attr.gyro 0 = Some (VArr 104)
  /\ slot (self (Demo.after (run (NInt 1)) Demo.m3)) Attr.att_euler 0
     = Some (VArr 1004).
Proof. repeat split; vm_compute; reflexivity. Qed.

(** C8 on [run(3)] followed by [run(1)]: the data of trial 2 stay, those
    of trial 0 are the ones the generators and the algorithm have returned
    in the second run. *)
Lemma rerun_with_one_trial :
  run (NInt 1) Demo.m3 = (inr tt, Demo.after (run (NInt 1)) Demo.m3)
  /\ slot (self (Demo.after (run (NInt 1)) Demo.m3)) Attr.gyro 2
     = slot (self Demo.m3) Attr.gyro 2
  /\ slot (self Demo.m3) Attr.gyro 0 = Some (VArr 101)
  /\ (exists x r e w1 w2,
        gyro_gen x r e w1 = (inr (VArr 104), w2)
        /\ slot (self (Demo.after (run (NInt 1)) Demo.m3)) Attr.gyro 0
           = Some (VArr 104))
  /\ exists w5 w6,
       get_results (Demo.plugin 5) w5 = (inr [VArr 1004], w6)
       /\ slot (self (Demo.after (run (NInt 1)) Demo.m3)) Attr.att_euler 0
          = Some (VArr 1004).
Proof.
  split; [exact m3_run1 |].
  pose proof (rerun_overwrites_in_place _ _ _ _ _ _ _ (NInt 1) Demo.m3 _
                sim0_constructed m3_config m3_run1) as Hrerun.
  cbv zeta in Hrerun. rewrite m3_run1_count in Hrerun.
  destruct Hrerun as (_ & Hkeep & Hnew).
  destruct m3_gyro_slots as (Hold & Hgyro & Hout).
  split.
  { apply Hkeep; [| lia]. unfold per_trial. apply list_elem_of_In. cbn [In]. tauto. }
  split; [exact Hold |].
  destruct (Hnew 0 ltac:(lia))
    as (m1 & mi & m4 & mi' & va & w1 & vg & w2 & w3 & _ & _ & _ & _ & _ & _
        & _ & _ & Hvg & Sg & _ & _ & Halg).
  split.
  - rewrite Hgyro in Sg. injection Sg as <-.
    eexists _, _, _, _, _. split; [exact Hvg | exact Hgyro].
  - clear Sg Hvg Hkeep Hnew.
    destruct Halg as (args & w5 & vals & _ & _ & Hres & Hlen & Hpos).
    cbn [Demo.plugin output length] in Hlen.
    destruct vals as [| v [| v' vals]];
      [discriminate Hlen | | discriminate Hlen].
    destruct (Hpos 0%nat "att_euler" v eq_refl eq_refl) as (a & Ha & Hs).
    { intros [| j'] Hj'; [lia | discriminate]. }
    vm_compute in Ha. injection Ha as <-.
    rewrite Hout in Hs. injection Hs as <-.
    eexists _, _. split; [exact Hres | exact Hout].
Defined.

(** C9 on the engine made with a string and with an array as [env]. *)
Lemma demo_engine_has_no_vibration_model :
  vib_def Demo.sim0 = None
  /\ Sim_init Demo.fs (Demo.imu_of true false) Demo.waypoints (AStr "flight")
              (AArr 7) (Some (Demo.plugin 5)) = inr Demo.sim0.
Proof.
  destruct (vib_def_is_always_None _ _ _ _ _ _ _ sim0_constructed) as (Hvib & Henv & _).
  split; [exact Hvib |]. apply Henv. discriminate.
Defined.

(** X3 on the sample rates of the small engine: the third rate is not
    read, an empty list and, with GPS, a list of one rate raise. *)
Lemma the_third_rate_is_not_read :
  Sim_init Demo.fs (Demo.imu_of true false) Demo.waypoints (AStr "flight")
           (AStr "2g_random") None
  = Sim_init [VInt 100; VInt 10] (Demo.imu_of true false) Demo.waypoints
             (AStr "flight") (AStr "2g_random") None
  /\ Sim_init [] (Demo.imu_of true false) Demo.waypoints (AStr "flight")
              (AStr "2g_random") None = inl IndexError
  /\ Sim_init [VInt 100] (Demo.imu_of true false) Demo.waypoints (AStr "flight")
              (AStr "2g_random") None = inl IndexError.
Proof.
  destruct (only_fs_0_and_fs_1_are_read Demo.fs [VInt 100; VInt 10]
              (Demo.imu_of true false) Demo.waypoints (AStr "flight")
              (AStr "2g_random") None) as (Hsame & Hempty & Hone & _).
  split; [apply Hsame; [reflexivity | intros _; reflexivity] |].
  split; [exact Hempty |].
  apply (Hone (VInt 100) 2%nat); [reflexivity | reflexivity | lia].
Defined.

(** X4 on a [mode] and on an [env] that are neither strings nor arrays. *)
Lemma mode_and_env_of_another_type :
  Sim_init Demo.fs (Demo.imu_of true false) Demo.waypoints AOther AOther None
  = inl (TypeError "mode should be a string or a numpy array of size (3,)")
  /\ Sim_init Demo.fs (Demo.imu_of true false) Demo.waypoints (AStr "flight")
              AOther (Some Demo.bad_plugin)
     = inl (TypeError "env should be a string or a numpy array of size (n,2)").
Proof.
  split.
  - refine (proj1 (mode_and_env_are_type_checked Demo.fs (Demo.imu_of true false)
              Demo.waypoints AOther AOther None 2 _ _ _ _) eq_refl).
    + discriminate.
    + intros _. cbn. lia.
    + reflexivity.
    + lia.
  - refine (proj2 (mode_and_env_are_type_checked Demo.fs (Demo.imu_of true false)
              Demo.waypoints (AStr "flight") AOther (Some Demo.bad_plugin) 2 _ _ _ _)
              _ eq_refl).
    + discriminate.
    + intros _. cbn. lia.
    + reflexivity.
    + lia.
    + discriminate.
Defined.

Lemma plain_constructed :
  Sim_init Demo.fs (Demo.imu_of true false) Demo.waypoints (AStr "flight")
           (AStr "2g_random") None = inr (self (Demo.boot true false None)).
Proof. apply boot_constructed. vm_compute. reflexivity. Qed.

(** X5 on the algorithm of the small engine and on one that asks for an
    unknown sensor. *)
Lemma check_of_two_algorithms :
  (exists s,
     Sim_init Demo.fs (Demo.imu_of true false) Demo.waypoints (AStr "flight")
              (AStr "2g_random") (Some (Demo.plugin 5)) = inr s
     /\ algo_in_expr s = [TConst "fs"; TVary "gyro"; TVary "accel"]
     /\ algo_out_expr s = ["att_euler"])
  /\ Sim_init Demo.fs (Demo.imu_of true false) Demo.waypoints (AStr "flight")
              (AStr "2g_random") (Some Demo.bad_plugin)
     = inl (ValueError check_msg).
Proof.
  split.
  - destruct (proj1 (algorithm_check _ _ _ _ _ (Demo.plugin 5) _ plain_constructed))
      as (s & Hs & _ & Hin & Hout & _).
    + split; [discriminate |]. split; [discriminate |]. split.
      * intros n Hn. cbn [Demo.plugin input] in Hn.
        repeat (apply elem_of_cons in Hn as [-> | Hn]); [.. | inversion Hn].
        -- left. vm_compute. eexists. reflexivity.
        -- right. vm_compute. eexists. reflexivity.
        -- right. vm_compute. eexists. reflexivity.
      * intros n Hn. cbn [Demo.plugin output] in Hn.
        apply list_elem_of_singleton in Hn as ->.
        vm_compute. eexists. reflexivity.
    + exists s. split; [exact Hs |]. split; [| exact Hout].
      rewrite Hin. vm_compute. reflexivity.
  - apply (proj2 (algorithm_check _ _ _ _ _ Demo.bad_plugin _ plain_constructed)).
    intros (_ & _ & Hins & _).
    destruct (Hins "unknown_sensor") as [[x Hx] | [x Hx]]; [left | |];
      vm_compute in Hx; discriminate.
Defined.

(** X6 on the name ['gyro'] of the small engine. *)
Lemma gyro_names_its_container :
  supported_in_varying Demo.sim0 !! KStr "gyro" = Some "gyro measurements"
  /\ exists a,
       Attr.of_ident "gyro" = Some a
       /\ name (attr Demo.sim0 a) = "gyro"
       /\ description (attr Demo.sim0 a) = "gyro measurements"
       /\ data (attr Demo.sim0 a) = PDict ∅.
Proof.
  assert (Hv : supported_in_varying Demo.sim0 !! KStr "gyro" = Some "gyro measurements")
    by (vm_compute; reflexivity).
  split; [exact Hv |].
  destruct (supported_names_are_attributes _ _ _ _ _ _ _ "gyro" "gyro measurements"
              sim0_constructed (or_intror (or_introl Hv)))
    as (a & Ha & _ & Hname & Hdesc & Hdata).
  exists a. split; [exact Ha |]. split; [exact Hname |]. split; [exact Hdesc |].
  apply Hdata. vm_compute. reflexivity.
Defined.

(** X7 on [run(3)] in the small engine, whose algorithm outputs
    ['att_euler'] only: the container [pos] is not written. *)
Lemma run_of_the_demo_engine_leaves_pos :
  (Attr.pos ∉ written (self Demo.m0))
  /\ data (attr (self Demo.m3) Attr.pos) = data (attr (self Demo.m0) Attr.pos)
  /\ supported_plot (self Demo.m3) = supported_plot (self Demo.m0).
Proof.
  assert (Hpos : Attr.pos ∉ written (self Demo.m0)).
  { intros Hin. apply list_elem_of_In in Hin. vm_compute in Hin.
    repeat (destruct Hin as [Hin | Hin]; [discriminate |]). exact Hin. }
  split; [exact Hpos |].
  destruct (run_writes_only_its_containers (NInt 3) Demo.m0 Attr.pos Hpos)
    as (Hdata & _ & _ & _ & Hplot).
  split; [exact Hdata | exact Hplot].
Defined.

(** X8 on [run(3)] in the small engine, which has no magnetometer. *)
Lemma run_without_magnetometer_leaves_mag :
  imu_magnetometer (Demo.imu_of true false) = false
  /\ data (attr (self Demo.m3) Attr.mag) = data (attr (self Demo.m0) Attr.mag)
  /\ data (attr (self Demo.m3) Attr.fs) = data (attr (self Demo.m0) Attr.fs).
Proof.
  split; [reflexivity |]. split.
  - apply (run_leaves_the_other_containers _ _ _ _ _ _ _ (NInt 3) Demo.m0 Attr.mag
             sim0_constructed m0_config).
    right. right. left. split; [reflexivity | left].
  - apply (run_leaves_the_other_containers _ _ _ _ _ _ _ (NInt 3) Demo.m0 Attr.fs
             sim0_constructed m0_config).
    left. left.
Defined.

(** X9 on [run(3)] in the small engine: the true positions are a slice of
    the array under ['nav']. *)
Lemma reference_data_of_the_demo_engine :
  run (NInt 3) Demo.m0 = (inr tt, Demo.m3)
  /\ exists (rtn : gmap string Z) (r : Z),
       rtn !! "nav" = Some r
       /\ data (attr (self Demo.m3) Attr.ref_pos)
          = PVal (VArr (np_getitem "[:, 1:4]" r)).
Proof.
  split; [exact m0_run3 |].
  destruct (run_saves_the_reference_data (NInt 3) Demo.m0 Demo.m3 m0_run3)
    as (rtn & w & _ & Hrefs).
  destruct (Hrefs Attr.ref_pos "nav" "[:, 1:4]") as (r & Hr & Hdata).
  { apply list_elem_of_In. vm_compute. right. left. reflexivity. }
  exists rtn, r. split; assumption.
Defined.

(** X10 on [run(3)] with a [path_gen] that raises. *)
Lemma run_with_a_failing_path_gen :
  py_int (NInt 3) = inr 3
  /\ @run Z Z Demo.failing (NInt 3) Demo.m0
     = (inl (Raised "path_gen"),
        {| self := self (upd (set_sim_count (if 3 <? 1 then 1 else 3)) Demo.m0);
           ext := ext Demo.m0; console := console Demo.m0 |}).
Proof.
  split; [reflexivity |].
  exact (proj1 (@run_fails_before_the_trials Z Z Demo.failing (NInt 3) 3 Demo.m0
                  eq_refl) (Raised "path_gen") (ext Demo.m0) eq_refl).
Defined.

Lemma m0_sensors_fst : fst (sensors 0 Demo.m0) = inr tt.
Proof. vm_compute. reflexivity. Qed.

Lemma m0_sensors : sensors 0 Demo.m0 = (inr tt, Demo.after (sensors 0) Demo.m0).
Proof. exact (pair_of_fst (sensors 0) Demo.m0 _ m0_sensors_fst). Qed.

(** X11 on trial 0 of the small engine, whose algorithm declares the
    inputs ['fs', 'gyro', 'accel']. *)
Lemma arguments_of_the_demo_algorithm :
  sensors 0 Demo.m0 = (inr tt, Demo.after (sensors 0) Demo.m0)
  /\ exists args,
       Forall2 (fun n p => algo_arg (self (Demo.after (sensors 0) Demo.m0)) 0 n = Some p)
               ["fs"; "gyro"; "accel"] args
       /\ eval_in_expr 0 (algo_in_expr (self (Demo.after (sensors 0) Demo.m0)))
                       (Demo.after (sensors 0) Demo.m0)
          = (inr args, Demo.after (sensors 0) Demo.m0).
Proof.
  split; [exact m0_sensors |].
  destruct (algorithm_is_run_on_the_data_of_the_trial _ _ _ _ _ (Demo.plugin 5) _ 0
              Demo.m0 _ sim0_constructed m0_config m0_sensors)
    as (args & Hargs & Heval & _).
  exists args. split; [exact Hargs | exact Heval].
Defined.

Lemma sim0_state : state_of Demo.sim0 (self Demo.m0).
Proof. exact (Sim_init_state _ _ _ _ _ _ _ sim0_constructed). Qed.

(** X12 on the output ['att_euler'] of the small engine: one value is
    assigned to trial 0, no value raises [ValueError]. *)
Lemma one_output_and_one_value :
  (exists m',
     exec_out_expr 0 ["att_euler"] [VArr 7] Demo.m0 = (inr tt, m')
     /\ slot (self m') Attr.att_euler 0 = Some (VArr 7))
  /\ exists msg,
       exec_out_expr 0 ["att_euler"] [] Demo.m0 = (inl (ValueError msg), Demo.m0).
Proof.
  split.
  - pose proof (outputs_are_assigned_by_position _ _ _ _ _ _ _ 0 [VArr 7] Demo.m0
                  sim0_constructed sim0_state) as H.
    cbv zeta in H. destruct H as (_ & _ & Hok).
    destruct (Hok eq_refl) as (m' & Hrun & _ & _ & _ & _ & Hpos).
    assert (Hlast : forall j' : nat, (0 < j')%nat ->
              (match Some (Demo.plugin 5) with
               | Some al => output al | None => [] end) !! j' <> Some "att_euler").
    { intros [| j'] Hj'; [lia | discriminate]. }
    destruct (Hpos 0%nat "att_euler" (VArr 7) eq_refl eq_refl Hlast) as (a & Ha & Hslot).
    vm_compute in Ha. injection Ha as <-.
    exists m'. split; [exact Hrun | exact Hslot].
  - pose proof (outputs_are_assigned_by_position _ _ _ _ _ _ _ 0 [] Demo.m0
                  sim0_constructed sim0_state) as H.
    cbv zeta in H. destruct H as (_ & Hbad & _).
    apply Hbad. discriminate.
Defined.

Lemma m01_constructed :
  Sim_init Demo.fs (Demo.imu_of true false) Demo.waypoints (AStr "flight")
           (AStr "2g_random") (Some (Demo.plugin 1)) = inr (self Demo.m01).
Proof. apply boot_constructed. vm_compute. reflexivity. Qed.

Lemma m01_sensors_fst : fst (sensors 0 Demo.m01) = inr tt.
Proof. vm_compute. reflexivity. Qed.

Lemma m01_trial_fst : fst (trial 0 Demo.m01) = inl (Raised "algorithm").
Proof. vm_compute. reflexivity. Qed.

(** X13 on an algorithm that raises in trial 0. *)
Lemma algorithm_that_raises_in_trial_0 :
  trial 0 Demo.m01 = (inl (Raised "algorithm"), Demo.after (trial 0) Demo.m01)
  /\ self (Demo.after (trial 0) Demo.m01) = self (Demo.after (sensors 0) Demo.m01)
  /\ data (attr (self (Demo.after (trial 0) Demo.m01)) Attr.att_euler)
     = data (attr (self Demo.m01) Attr.att_euler).
Proof.
  pose proof (pair_of_fst (trial 0) Demo.m01 _ m01_trial_fst) as Htrial.
  pose proof (pair_of_fst (sensors 0) Demo.m01 _ m01_sensors_fst) as Hsens.
  split; [exact Htrial |].
  destruct (failed_algorithm_step_assigns_nothing _ _ _ _ _ _ _ 0 Demo.m01
              (Demo.after (trial 0) Demo.m01) (Raised "algorithm") m01_constructed
              (Sim_init_state _ _ _ _ _ _ _ m01_constructed)) as [_ H].
  destruct (H _ Hsens Htrial) as (Hself & _ & Hout).
  split; [exact Hself |].
  apply (Hout "att_euler").
  - apply list_elem_of_In. cbn. tauto.
  - reflexivity.
Defined.

(** X14 on [results()] after [run(3)] in the small engine. *)
Lemma results_twice_after_three_trials :
  exists d,
    results Demo.m3 = (inr d, Demo.ready)
    /\ res (self Demo.ready) = d
    /\ results Demo.ready = (inr d, Demo.ready).
Proof.
  destruct (results_builds_both_dictionaries _ _ _ _ _ _ _ Demo.m3 sim0_constructed
              m3_config m3_complete)
    as (d & m' & Hres & _ & Hr & _ & _ & _ & _ & _ & _ & _ & Hagain).
  assert (Hm' : m' = Demo.ready).
  { unfold Demo.ready, Demo.after. rewrite Hres. reflexivity. }
  rewrite Hm' in Hres, Hr, Hagain.
  exists d. split; [exact Hres |]. split; [exact Hr | exact Hagain].
Defined.

Lemma boot_start (gps magnetometer : bool) (a : option (algorithm Z Z)) :
  Demo.boot gps magnetometer a
  = {| self := self (Demo.boot gps magnetometer a); ext := 0; console := [] |}.
Proof.
  unfold Demo.boot, Demo.engine. destruct (Sim_init _ _ _ _ _ _); reflexivity.
Qed.

Lemma m3_selected : selected (sim_count (self Demo.m3)) None = inr [0; 1; 2].
Proof. vm_compute. reflexivity. Qed.

(** X16 on [plot(['gyro'])] after [run(3)], before any [results()]. *)
Lemma plot_of_gyro_before_results :
  supported_plot (self Demo.m3) = ∅
  /\ plot ["gyro"] None Demo.m3
     = (inr tt,
        printed (warnings (sim_count (self Demo.m3)) 0 [0; 1; 2]
                 ++ List.map Print_unsupported ["gyro"] ++ [Show]) Demo.m3).
Proof.
  refine (plot_before_results_draws_nothing _ _ _ _ _ _ _ ["gyro"] None [0; 1; 2]
            Demo.m3 sim0_constructed (or_intror _) eq_refl m3_selected).
  exists 0, [], [NInt 3]. cbn [foldl].
  unfold Demo.m3, Demo.after, Demo.sim0, Demo.m0.
  rewrite <- (boot_start true false (Some (Demo.plugin 5))). reflexivity.
Defined.

Lemma m3_results_returns : returns (fst (results Demo.m3)) = true.
Proof. vm_compute. reflexivity. Qed.

Lemma m3_results : exists d, results Demo.m3 = (inr d, Demo.ready).
Proof.
  destruct (returns_inr _ m3_results_returns) as [d Hd]. exists d.
  exact (pair_of_fst results Demo.m3 _ Hd).
Qed.

(** X17 after [run(3)] and [results()] in the small engine: the output
    ['att_euler'] can be plotted, ['time'] cannot. *)
Lemma time_cannot_be_plotted :
  is_Some (supported_plot (self Demo.ready) !! KStr "att_euler")
  /\ plot_one [0] "time" Demo.ready
     = (inr tt, printed [Print_unsupported "time"] Demo.ready).
Proof.
  destruct m3_results as [d Hd].
  destruct (what_can_be_plotted _ _ _ _ _ _ _ Demo.m3 Demo.ready d sim0_constructed
              m3_config m3_complete Hd) as [Hkeys Hun].
  split.
  - apply Hkeys. split; [discriminate |]. split; [discriminate |].
    right. right. apply list_elem_of_In. cbn. tauto.
  - apply Hun. left. apply list_elem_of_In. cbn. tauto.
Defined.

Lemma m3_gyro :
  exists d, data (attr (self Demo.m3) Attr.gyro) = PDict d
    /\ d !! 0 = Some (VArr 101) /\ d !! 5 = None
    /\ ndim (match pre_func (attr (self Demo.m3) Attr.gyro) with
             | Some f => f (VArr 101)
             | None => VArr 101
             end) = Some 2%nat.
Proof.
  exists (match data (attr (self Demo.m3) Attr.gyro) with
          | PDict d => d
          | PVal _ => ∅
          end).
  repeat split; vm_compute; reflexivity.
Qed.

(** X18 on the gyroscope data of three trials and the keys [0, 5, 1],
    over the time base. *)
Lemma plot_dict_of_trials_0_5_1 :
  exists d,
    data (attr (self Demo.m3) Attr.gyro) = PDict d
    /\ plot_dict Attr.gyro (PVal (VArr 1)) (Some [0; 5; 1]) Demo.m3
       = (inl KeyError,
          printed (figures (attr (self Demo.m3) Attr.gyro) (PVal (VArr 1)) d [0])
                  Demo.m3).
Proof.
  destruct m3_gyro as (d & Hd & H0 & H5 & Hdim).
  exists d. split; [exact Hd |].
  refine (proj1 (plot_dict_stops_at_a_missing_key Attr.gyro (PVal (VArr 1)) [0] [1]
                   5 d Demo.m3 Hd _) H5).
  intros i Hi. apply list_elem_of_singleton in Hi. rewrite Hi.
  exists (VArr 101). split; [exact H0 |].
  split; [right; exact Hdim | reflexivity].
Defined.

Lemma allan_constructed :
  Sim_init Demo.fs (Demo.imu_of true false) Demo.waypoints (AStr "flight")
           (AStr "2g_random") (Some Demo.allan_plugin)
  = inr (self (Demo.boot true false (Some Demo.allan_plugin))).
Proof. apply boot_constructed. vm_compute. reflexivity. Qed.

Lemma a0_run1_fst : fst (run (NInt 1) Demo.a0) = inr tt.
Proof. vm_compute. reflexivity. Qed.

Lemma a1_results_returns : returns (fst (results Demo.a1)) = true.
Proof. vm_compute. reflexivity. Qed.

Lemma a1_results : exists d, results Demo.a1 = (inr d, Demo.a2).
Proof.
  destruct (returns_inr _ a1_results_returns) as [d Hd]. exists d.
  exact (pair_of_fst results Demo.a1 _ Hd).
Qed.

(** X19 on an algorithm that outputs ['av_gyro'] only. *)
Lemma allan_variance_without_its_time_base :
  run (NInt 1) Demo.a0 = (inr tt, Demo.a1)
  /\ is_Some (supported_plot (self Demo.a2) !! KStr "av_gyro")
  /\ plot ["av_gyro"] None Demo.a2 = (inl KeyError, Demo.a2).
Proof.
  pose proof (pair_of_fst (run (NInt 1)) Demo.a0 _ a0_run1_fst) as Hrun.
  destruct a1_results as [d Hd].
  split; [exact Hrun |].
  assert (H1 : "av_gyro" ∈ ["av_gyro"; "av_accel"]).
  { apply list_elem_of_In. cbn. tauto. }
  assert (H2 : "av_gyro" ∈ output Demo.allan_plugin).
  { apply list_elem_of_In. cbn. tauto. }
  assert (H3 : "av_t" ∉ output Demo.allan_plugin).
  { intros H. apply list_elem_of_In in H. cbn in H. destruct H as [H | []].
    discriminate. }
  destruct (plot_of_allan_variance_needs_av_t _ _ _ _ _ Demo.allan_plugin _ 0 []
              (NInt 1) Demo.a1 Demo.a2 d "av_gyro" [] allan_constructed H1 H2 H3
              Hrun Hd) as (_ & Hkey & Hplot).
  split; [exact Hkey | exact Hplot].
Defined.

Lemma ready_ref_pos :
  data (attr (self Demo.ready) Attr.time) = PVal (VArr 1)
  /\ data (attr (self Demo.ready) Attr.ref_pos) = PVal (VArr 1).
Proof. split; vm_compute; reflexivity. Qed.

(** X20 on [plot(['ref_pos'])] after [run(3)] and [results()]. *)
Lemma plot_of_the_true_positions :
  plot_one [0] "ref_pos" Demo.ready
  = (inr tt,
     printed [Figure "ref_pos" None;
              Lines (PVal (VArr 1)) (VArr 1) false false
                    (legend (new_attr Attr.ref_pos)) true] Demo.ready).
Proof.
  destruct m3_results as [d Hd].
  assert (Hin : (Attr.ref_pos, "nav", "[:, 1:4]")
                ∈ ref_slices (imu_gps (Demo.imu_of true false))
                             (imu_magnetometer (Demo.imu_of true false))).
  { apply list_elem_of_In. vm_compute. right. left. reflexivity. }
  assert (Ht : Attr.ref_pos <> Attr.time) by discriminate.
  assert (Hg : Attr.ref_pos <> Attr.gps_time) by discriminate.
  destruct (plot_of_reference_data _ _ _ _ _ _ _ (NInt 3) Demo.m0 Demo.m3 Demo.ready
              d Attr.ref_pos "nav" "[:, 1:4]" [0] sim0_constructed
              (Sim_init_state _ _ _ _ _ _ _ sim0_constructed) m0_run3 Hd Hin Ht Hg)
    as (x & y & Hx & Hy & _ & Hplot & _).
  destruct ready_ref_pos as [Hx1 Hy1].
  change (data (attr (self Demo.ready) Attr.time) = PVal (VArr x)) in Hx.
  rewrite Hx1 in Hx. rewrite Hy1 in Hy.
  injection Hx as <-. injection Hy as <-.
  apply Hplot; [left |]; reflexivity.
Defined.
